(** * GlobalStockPulse: technical indicators and the fallback multi-asset ranker

    A shallow embedding of [utils/technical_analysis.py] (class
    [TechnicalAnalyzer]) and of the scoring part of
    [components/comparison.py] (class [StockComparison]), with the
    properties of the specification stated over it; then of what surrounds
    the ranker there (the fetching of the comparison data, the choice
    between the advisor's answer and the fallback, the rankings section of
    the page) and of [utils/currency_helper.py].

    Numbers.  The Python code works on IEEE-754 doubles held in pandas
    columns.  A double is modelled by [fval]: the not-a-number value, the
    two infinities, or the rational a finite double denotes.  Comparisons
    and the special cases of the arithmetic (operations on NaN and on the
    infinities, division by zero) follow IEEE-754; arithmetic on finite
    values is exact, so rounding and overflow are not modelled: a value
    that exact arithmetic puts on a threshold of the scoring rules (a
    total return of exactly 10 percent, say) can fall on the other side of
    it in doubles, and equalities between computed values hold up to
    rounding.  Zero
    carries no sign: the zero divisors that occur in the code are
    differences [x - x], which are positive zeros, and trailing means of
    losses, where the sign of the zero decides the sign of the infinite
    quotient but not the RSI computed from it.

    pandas.  The operations on columns follow the documented behaviour of
    pandas ([rolling], [ewm], [shift], [diff], [where], [pct_change],
    [cumprod], [expanding], and the reductions that skip missing values).

    Frames.  A pandas [DataFrame] is a number of rows together with a finite
    map from column names to columns; every column of a frame built by the
    application has exactly that many rows ([frame_wf]). *)

From Stdlib Require Import QArith Qabs ZArith List String Lia Sorting.Sorted Permutation.
From Stdlib Require Import Lqa.
From stdpp Require Import gmap strings list fin_maps.

(* ===================================================================== *)
(** ** Floating-point values *)
(* ===================================================================== *)

Module Float.

Inductive fval : Type :=
| NaN
| NInf
| Fin (q : Q)
| PInf.

Definition is_nan (x : fval) : bool :=
  match x with NaN => true | _ => false end.

Definition is_obs (x : fval) : bool := negb (is_nan x).

Definition Qltb (p q : Q) : bool := negb (Qle_bool q p).

(** [a < b]; false as soon as one side is NaN. *)
Definition flt (a b : fval) : bool :=
  match a, b with
  | NaN, _ | _, NaN => false
  | NInf, NInf => false
  | NInf, _ => true
  | Fin p, Fin q => Qltb p q
  | Fin _, PInf => true
  | Fin _, NInf => false
  | PInf, _ => false
  end.

(** [a > b]. *)
Definition fgt (a b : fval) : bool := flt b a.

(** [a == b]; NaN is equal to nothing. *)
Definition feqb (a b : fval) : bool :=
  match a, b with
  | NInf, NInf | PInf, PInf => true
  | Fin p, Fin q => Qeq_bool p q
  | _, _ => false
  end.

(** [a != b]. *)
Definition fneb (a b : fval) : bool := negb (feqb a b).

(** Sign of a value: -1, 0 or 1 (0 for NaN, which callers rule out). *)
Definition sgn (a : fval) : Z :=
  match a with
  | NaN => 0
  | NInf => -1
  | PInf => 1
  | Fin q => Z.sgn (Qnum q)
  end.

(** The infinity of the given sign; the invalid operation when the sign is 0. *)
Definition inf_signed (s : Z) : fval :=
  match s with
  | Z0 => NaN
  | Zpos _ => PInf
  | Zneg _ => NInf
  end.

Definition fneg (a : fval) : fval :=
  match a with
  | NaN => NaN
  | NInf => PInf
  | PInf => NInf
  | Fin q => Fin (- q)
  end.

Definition fabs (a : fval) : fval :=
  match a with
  | NaN => NaN
  | NInf | PInf => PInf
  | Fin q => Fin (Qabs q)
  end.

Definition fadd (a b : fval) : fval :=
  match a, b with
  | NaN, _ | _, NaN => NaN
  | PInf, NInf | NInf, PInf => NaN
  | PInf, _ | _, PInf => PInf
  | NInf, _ | _, NInf => NInf
  | Fin p, Fin q => Fin (p + q)
  end.

Definition fsub (a b : fval) : fval := fadd a (fneg b).

Definition fmul (a b : fval) : fval :=
  match a, b with
  | NaN, _ | _, NaN => NaN
  | Fin p, Fin q => Fin (p * q)
  | _, _ => inf_signed (sgn a * sgn b)
  end.

(** Division.  A finite non-zero value over zero is an infinity, zero over
    zero and infinity over infinity are NaN, a finite value over an
    infinity is zero. *)
Definition fdiv (a b : fval) : fval :=
  match a, b with
  | NaN, _ | _, NaN => NaN
  | Fin p, Fin q => if Qeq_bool q 0 then inf_signed (sgn a) else Fin (p / q)
  | Fin _, _ => Fin 0
  | _, Fin q => inf_signed (sgn a * (if Qeq_bool q 0 then 1 else sgn b))
  | _, _ => NaN
  end.

(** Square root of a rational, from below, to within [2^-64]. *)
Definition Qsqrt (q : Q) : Q :=
  Z.sqrt (Qnum q * Zpos (Qden q) * 4 ^ 64) # (Qden q * 2 ^ 64).

Definition fsqrt (a : fval) : fval :=
  match a with
  | NaN | NInf => NaN
  | PInf => PInf
  | Fin q => if Qltb q 0 then NaN else Fin (Qsqrt q)
  end.

(** Injection of the integer literals of the source. *)
Definition of_Z (z : Z) : fval := Fin (inject_Z z).
Definition of_nat (n : nat) : fval := of_Z (Z.of_nat n).

(** Two values denote the same number (NaN only matches NaN): equality of
    results up to the representation of the rational. *)
Definition same (a b : fval) : Prop :=
  match a, b with
  | NaN, NaN | NInf, NInf | PInf, PInf => True
  | Fin p, Fin q => p == q
  | _, _ => False
  end.

Definition is_inf (x : fval) : bool :=
  match x with NInf | PInf => true | _ => false end.

(** Neither NaN nor an infinity. *)
Definition is_finite (x : fval) : bool :=
  match x with Fin _ => true | _ => false end.

End Float.

Export Float.

Declare Scope float_scope.
Delimit Scope float_scope with F.
Bind Scope float_scope with fval.
Infix "+" := fadd : float_scope.
Infix "-" := fsub : float_scope.
Infix "*" := fmul : float_scope.
Infix "/" := fdiv : float_scope.
Infix "<?" := flt : float_scope.
Infix ">?" := fgt : float_scope.
Infix "==?" := feqb (at level 70) : float_scope.
Infix "!=?" := fneb (at level 70) : float_scope.
Notation "- x" := (fneg x) : float_scope.
Infix "≈" := same (at level 70) : float_scope.

#[global] Arguments flt : simpl never.
#[global] Arguments fgt : simpl never.
#[global] Arguments feqb : simpl never.
#[global] Arguments fneb : simpl never.
#[global] Arguments fadd : simpl never.
#[global] Arguments fsub : simpl never.
#[global] Arguments fmul : simpl never.
#[global] Arguments fdiv : simpl never.
#[global] Arguments of_Z : simpl never.

(* ===================================================================== *)
(** ** pandas series operations used by the source *)
(* ===================================================================== *)

Module Pandas.

Abbreviation series := (list fval).

(** [s.shift()]: every value moves one row down, the first row is missing. *)
Definition shift (s : series) : series :=
  match s with
  | [] => []
  | _ => NaN :: removelast s
  end.

(** [s.diff()]. *)
Definition diff (s : series) : series := zip_with fsub s (shift s).

(** [s.where(cond, other)] with a scalar [other]. *)
Definition where_ (cond : fval → bool) (other : fval) (s : series) : series :=
  map (λ v, if cond v then v else other) s.

(** [s.dropna()]. *)
Definition dropna (s : series) : series := filter (λ v, is_obs v = true) s.

Definition fsum (l : list fval) : fval := fold_left fadd l (Fin 0).

Definition min_list (l : list fval) : fval :=
  match l with
  | [] => NaN
  | x :: r => fold_left (λ acc v, if (v <? acc)%F then v else acc) r x
  end.

Definition max_list (l : list fval) : fval :=
  match l with
  | [] => NaN
  | x :: r => fold_left (λ acc v, if (v >? acc)%F then v else acc) r x
  end.

Definition mean_list (l : list fval) : fval := (fsum l / of_nat (length l))%F.

(** Sample standard deviation (one degree of freedom removed). *)
Definition std_list (l : list fval) : fval :=
  let m := mean_list l in
  let sq := map (λ v, ((v - m) * (v - m))%F) l in
  if (length l <? 2)%nat then NaN
  else fsqrt (fsum sq / of_nat (length l - 1))%F.

(** Reductions of a whole column skip the missing values. *)
Definition series_min (s : series) : fval := min_list (dropna s).
Definition series_max (s : series) : fval := max_list (dropna s).
Definition series_mean (s : series) : fval := mean_list (dropna s).
Definition series_std (s : series) : fval := std_list (dropna s).

(** The [w] values that end at row [i]. *)
Definition window_at (w i : nat) (s : series) : list fval :=
  firstn w (skipn (S i - w) s).

(** [s.rolling(window=w).agg()]: missing until [w] rows are available and
    wherever the window holds a missing value ([min_periods] is [w]).
    pandas replaces the infinities of the column by missing values before
    it aggregates, so that a window holding an infinity gives a missing
    value as well. *)
Definition rolling (w : nat) (agg : list fval → fval) (s : series) : series :=
  map (λ i, let win := window_at w i s in
            if (w <=? S i)%nat && forallb is_finite win then agg win else NaN)
      (seq 0 (length s)).

Definition rolling_mean (w : nat) := rolling w mean_list.
Definition rolling_min (w : nat) := rolling w min_list.
Definition rolling_max (w : nat) := rolling w max_list.
Definition rolling_std (w : nat) := rolling w std_list.

(** [s.expanding().max()]: the maximum of the values seen so far; missing
    values, and the infinities pandas replaces by missing values, are
    skipped. *)
Fixpoint expanding_max_from (cur : fval) (s : series) : series :=
  match s with
  | [] => []
  | x :: r =>
      let cur' := if negb (is_finite x) then cur
                  else if is_nan cur then x
                  else if (x >? cur)%F then x else cur in
      cur' :: expanding_max_from cur' r
  end.

Definition expanding_max (s : series) : series := expanding_max_from NaN s.

(** [s.cumprod()]; missing values are skipped and stay missing. *)
Fixpoint cumprod_from (acc : fval) (s : series) : series :=
  match s with
  | [] => []
  | x :: r =>
      if is_nan x then NaN :: cumprod_from acc r
      else let acc' := (acc * x)%F in acc' :: cumprod_from acc' r
  end.

Definition cumprod (s : series) : series := cumprod_from (Fin 1) s.

(** [s.pct_change()]: relative change to the previous row.  Missing
    values are not filled before the change is taken. *)
Definition pct_change (s : series) : series :=
  zip_with (λ x p, (x / p - Fin 1)%F) s (shift s).

(** [s.ewm(span=w).mean()].  pandas' defaults are [adjust=True],
    [ignore_na=False] and [min_periods=0]: the value at row [t] is the
    weighted mean of the observations [x_j], [j <= t], with weights
    [(1 - alpha)^(t - j)] and [alpha = 2 / (span + 1)].  [num] and [den]
    carry the weighted sum and the sum of weights.  pandas accepts spans
    of at least 1 only; the source passes 12, 26 and 9. *)
Fixpoint ewm_from (alpha : Q) (num : fval) (den : Q) (seen : bool) (s : series) : series :=
  match s with
  | [] => []
  | x :: r =>
      let num' := (Fin (1 - alpha) * num)%F in
      let den' := ((1 - alpha) * den)%Q in
      if is_nan x then
        (if seen then (num' / Fin den')%F else NaN) :: ewm_from alpha num' den' seen r
      else
        let n2 := (num' + x)%F in
        let d2 := (den' + 1)%Q in
        (n2 / Fin d2)%F :: ewm_from alpha n2 d2 true r
  end.

Definition span_alpha (span : nat) : Q := 2 # Pos.of_nat (span + 1).

Definition ewm_mean (span : nat) (s : series) : series :=
  ewm_from (span_alpha span) (Fin 0) 0 false s.

(** [s.iloc[-1]] and [s.iloc[0]] on a non-empty column. *)
Definition iloc_last (s : series) : fval := List.last s NaN.
Definition iloc_first (s : series) : fval := List.hd NaN s.

End Pandas.

Export Pandas.

(* ===================================================================== *)
(** ** Exceptions, frames and summaries *)
(* ===================================================================== *)

Module Model.

(** The Python exceptions the modelled code can raise. *)
Inductive exn : Type :=
| KeyError (key : string)
| TypeError.

Inductive except (A : Type) : Type :=
| Ok (a : A)
| Raise (e : exn).

Arguments Ok {A} a.
Arguments Raise {A} e.

#[global] Instance except_ret : MRet except := λ A a, Ok a.

#[global] Instance except_bind : MBind except := λ A B k m,
  match m with
  | Ok a => k a
  | Raise e => Raise e
  end.

(** [try: body except Exception: handler]. *)
Definition try_except {A : Type} (body : except A) (handler : A) : A :=
  match body with
  | Ok a => a
  | Raise _ => handler
  end.

Definition raises {A : Type} (m : except A) : Prop :=
  match m with Ok _ => False | Raise _ => True end.

Definition returns {A : Type} (m : except A) : Prop :=
  match m with Ok _ => True | Raise _ => False end.

(** A [DataFrame]: the number of rows and the columns by name. *)
Record frame : Type := mkFrame {
  nrows : nat;
  columns : gmap string series
}.

(** Every column has one value per row. *)
Definition frame_wf (f : frame) : Prop :=
  ∀ k s, columns f !! k = Some s → length s = nrows f.

(** [df[key]]. *)
Definition getitem (f : frame) (key : string) : except series :=
  match columns f !! key with
  | Some s => Ok s
  | None => Raise (KeyError key)
  end.

(** [df[key] = s]. *)
Definition setitem (f : frame) (key : string) (s : series) : frame :=
  {| nrows := nrows f; columns := <[key := s]> (columns f) |}.

(** [df.empty]: no row or no column. *)
Definition empty (f : frame) : bool :=
  (nrows f =? 0)%nat || bool_decide (columns f = ∅).

(** [df.iloc[-1].get(key, default)]: the last row's value of a column, the
    default when the frame has no such column. *)
Definition latest_get (f : frame) (key : string) (default : fval) : fval :=
  match columns f !! key with
  | Some s => iloc_last s
  | None => default
  end.

(** The summary dictionary of [get_technical_summary]: each key is present
    or absent; the empty dictionary has none. *)
Record summary_dict : Type := mkSummary {
  rsi_current : option fval;
  rsi_signal : option string;
  macd_signal : option string;
  trend_signal : option string;
  volume_signal : option string;
  bollinger_position : option string;
  momentum_signal : option string;
  overall_signal : option string
}.

Definition empty_summary : summary_dict :=
  mkSummary None None None None None None None None.

(** [d.get(key, default)]. *)
Definition get_or {A : Type} (field : option A) (default : A) : A :=
  match field with
  | Some v => v
  | None => default
  end.

(** [needle in hay] on strings. *)
Fixpoint is_prefix (p s : string) : bool :=
  match p, s with
  | EmptyString, _ => true
  | String a p', String b s' => Ascii.eqb a b && is_prefix p' s'
  | String _ _, EmptyString => false
  end.

Fixpoint contains (needle hay : string) : bool :=
  is_prefix needle hay ||
  match hay with
  | EmptyString => false
  | String _ hay' => contains needle hay'
  end.

End Model.

Export Model.

(* ===================================================================== *)
(** ** utils/technical_analysis.py *)
(* ===================================================================== *)

Module TechnicalAnalyzer.

Definition calculate_sma (data : series) (window : nat) : series :=
  rolling_mean window data.

Definition calculate_ema (data : series) (window : nat) : series :=
  ewm_mean window data.

(** The two trailing averages of [calculate_rsi]. *)
Definition rsi_gain (data : series) (window : nat) : series :=
  rolling_mean window (where_ (λ d, d >? Fin 0)%F (Fin 0) (diff data)).

Definition rsi_loss (data : series) (window : nat) : series :=
  rolling_mean window (map fneg (where_ (λ d, d <? Fin 0)%F (Fin 0) (diff data))).

Definition rsi_of_rs (rs : fval) : fval :=
  (of_Z 100 - of_Z 100 / (of_Z 1 + rs))%F.

Definition calculate_rsi (data : series) (window : nat) : series :=
  let gain := rsi_gain data window in
  let loss := rsi_loss data window in
  let rs := zip_with fdiv gain loss in
  map rsi_of_rs rs.

Definition calculate_macd (data : series) (fast slow signal : nat)
  : series * series * series :=
  let ema_fast := calculate_ema data fast in
  let ema_slow := calculate_ema data slow in
  let macd := zip_with fsub ema_fast ema_slow in
  let macd_signal := calculate_ema macd signal in
  let macd_histogram := zip_with fsub macd macd_signal in
  (macd, macd_signal, macd_histogram).

Definition calculate_bollinger_bands (data : series) (window : nat) (num_std : fval)
  : series * series * series :=
  let sma := calculate_sma data window in
  let std := rolling_std window data in
  let upper_band := zip_with (λ m s, m + s * num_std)%F sma std in
  let lower_band := zip_with (λ m s, m - s * num_std)%F sma std in
  (upper_band, sma, lower_band).

Definition stochastic_k (lowest_low highest_high close : fval) : fval :=
  (of_Z 100 * ((close - lowest_low) / (highest_high - lowest_low)))%F.

Definition calculate_stochastic (high low close : series) (k_window d_window : nat)
  : series * series :=
  let lowest_low := rolling_min k_window low in
  let highest_high := rolling_max k_window high in
  let k_percent :=
    zip_with (λ c lh, stochastic_k (fst lh) (snd lh) c) close (zip lowest_low highest_high) in
  let d_percent := rolling_mean d_window k_percent in
  (k_percent, d_percent).

Definition williams (highest_high lowest_low close : fval) : fval :=
  (of_Z (-100) * ((highest_high - close) / (highest_high - lowest_low)))%F.

Definition calculate_williams_r (high low close : series) (window : nat) : series :=
  let highest_high := rolling_max window high in
  let lowest_low := rolling_min window low in
  zip_with (λ c hl, williams (fst hl) (snd hl) c) close (zip highest_high lowest_low).

(** [pd.concat([a, b, c], axis=1).max(axis=1)]: the row-wise maximum, which
    skips missing values. *)
Definition row_max3 (a b c : series) : series :=
  zip_with (λ x yz, max_list (dropna [x; fst yz; snd yz])) a (zip b c).

Definition calculate_adx (high low close : series) (window : nat) : series :=
  let tr1 := zip_with fsub high low in
  let tr2 := map fabs (zip_with fsub high (shift close)) in
  let tr3 := map fabs (zip_with fsub low (shift close)) in
  let tr := row_max3 tr1 tr2 tr3 in
  let dm_plus := zip_with fsub high (shift high) in
  let dm_minus := zip_with fsub (shift low) low in
  let dm_plus :=
    zip_with (λ p m, if (p >? m)%F && (p >? Fin 0)%F then p else Fin 0) dm_plus dm_minus in
  let dm_minus :=
    zip_with (λ m p, if (m >? p)%F && (m >? Fin 0)%F then m else Fin 0) dm_minus dm_plus in
  let tr_smooth := rolling_mean window tr in
  let dm_plus_smooth := rolling_mean window dm_plus in
  let dm_minus_smooth := rolling_mean window dm_minus in
  let di_plus := zip_with (λ d t, of_Z 100 * (d / t))%F dm_plus_smooth tr_smooth in
  let di_minus := zip_with (λ d t, of_Z 100 * (d / t))%F dm_minus_smooth tr_smooth in
  let dx := zip_with (λ p m, of_Z 100 * fabs (p - m) / (p + m))%F di_plus di_minus in
  rolling_mean window dx.

Definition calculate_support_resistance (data : frame) (window : nat)
  : except (series * series) :=
  low ← getitem data "low";
  let support := rolling_min window low in
  high ← getitem data "high";
  let resistance := rolling_max window high in
  mret (support, resistance).

(** The right-hand sides of the assignments of [calculate_all_indicators],
    each the computation of one indicator on the input frame. *)
Definition sma_of (data : frame) (window : nat) : except series :=
  close ← getitem data "close"; mret (calculate_sma close window).

Definition ema_of (data : frame) (window : nat) : except series :=
  close ← getitem data "close"; mret (calculate_ema close window).

Definition rsi_of (data : frame) : except series :=
  close ← getitem data "close"; mret (calculate_rsi close 14).

Definition macd_of (data : frame) : except (series * series * series) :=
  close ← getitem data "close"; mret (calculate_macd close 12 26 9).

Definition bollinger_of (data : frame) : except (series * series * series) :=
  close ← getitem data "close"; mret (calculate_bollinger_bands close 20 (of_Z 2)).

Definition stochastic_of (data : frame) : except (series * series) :=
  high ← getitem data "high";
  low ← getitem data "low";
  close ← getitem data "close";
  mret (calculate_stochastic high low close 14 3).

Definition williams_of (data : frame) : except series :=
  high ← getitem data "high";
  low ← getitem data "low";
  close ← getitem data "close";
  mret (calculate_williams_r high low close 14).

Definition adx_of (data : frame) : except series :=
  high ← getitem data "high";
  low ← getitem data "low";
  close ← getitem data "close";
  mret (calculate_adx high low close 14).

(** The body of the [try] block of [calculate_all_indicators]. *)
Definition all_indicators_body (data : frame) : except frame :=
  let result := data in
  v ← sma_of data 20; let result := setitem result "sma_20" v in
  v ← sma_of data 50; let result := setitem result "sma_50" v in
  v ← ema_of data 12; let result := setitem result "ema_12" v in
  v ← ema_of data 26; let result := setitem result "ema_26" v in
  v ← rsi_of data; let result := setitem result "rsi" v in
  '(macd, macd_signal, macd_histogram) ← macd_of data;
  let result := setitem result "macd" macd in
  let result := setitem result "macd_signal" macd_signal in
  let result := setitem result "macd_histogram" macd_histogram in
  '(bb_upper, bb_middle, bb_lower) ← bollinger_of data;
  let result := setitem result "bb_upper" bb_upper in
  let result := setitem result "bb_middle" bb_middle in
  let result := setitem result "bb_lower" bb_lower in
  '(stoch_k, stoch_d) ← stochastic_of data;
  let result := setitem result "stoch_k" stoch_k in
  let result := setitem result "stoch_d" stoch_d in
  v ← williams_of data; let result := setitem result "williams_r" v in
  v ← adx_of data; let result := setitem result "adx" v in
  '(support, resistance) ← calculate_support_resistance data 20;
  let result := setitem result "support" support in
  let result := setitem result "resistance" resistance in
  mret result.

(** [calculate_all_indicators]: one [try] around the whole body; the
    handler reports the error and returns the input frame. *)
Definition calculate_all_indicators (data : frame) : frame :=
  try_except (all_indicators_body data) data.

(** The tally behind [overall_signal]. *)
Definition overall_of (rsi_signal macd_signal trend_signal : string) : string :=
  let bullish_signals := 0%nat in
  let bearish_signals := 0%nat in
  let '(bullish_signals, bearish_signals) :=
    if String.eqb rsi_signal "Oversold" then (S bullish_signals, bearish_signals)
    else if String.eqb rsi_signal "Overbought" then (bullish_signals, S bearish_signals)
    else (bullish_signals, bearish_signals) in
  let '(bullish_signals, bearish_signals) :=
    if String.eqb macd_signal "Bullish" then (S bullish_signals, bearish_signals)
    else if String.eqb macd_signal "Bearish" then (bullish_signals, S bearish_signals)
    else (bullish_signals, bearish_signals) in
  let '(bullish_signals, bearish_signals) :=
    if contains "Uptrend" trend_signal then (S bullish_signals, bearish_signals)
    else if contains "Downtrend" trend_signal then (bullish_signals, S bearish_signals)
    else (bullish_signals, bearish_signals) in
  if (bearish_signals <? bullish_signals)%nat then "Bullish - Consider buying on dips"
  else if (bullish_signals <? bearish_signals)%nat then "Bearish - Consider selling on rallies"
  else "Neutral - Wait for clearer signals".

(** The body of the [try] block of [get_technical_summary]. *)
Definition technical_summary_body (technical_data : frame) : except summary_dict :=
  if empty technical_data then mret empty_summary
  else
    let rsi_current := latest_get technical_data "rsi" (of_Z 50) in
    let rsi_signal :=
      if (rsi_current >? of_Z 70)%F then "Overbought"
      else if (rsi_current <? of_Z 30)%F then "Oversold"
      else "Neutral" in
    let macd_current := latest_get technical_data "macd" (of_Z 0) in
    let macd_signal_current := latest_get technical_data "macd_signal" (of_Z 0) in
    let macd_signal :=
      if (macd_current >? macd_signal_current)%F then "Bullish"
      else if (macd_current <? macd_signal_current)%F then "Bearish"
      else "Neutral" in
    let price_current := latest_get technical_data "close" (of_Z 0) in
    let sma_20 := latest_get technical_data "sma_20" (of_Z 0) in
    let sma_50 := latest_get technical_data "sma_50" (of_Z 0) in
    let trend_signal :=
      if (price_current >? sma_20)%F && (sma_20 >? sma_50)%F then "Strong Uptrend"
      else if (price_current >? sma_20)%F then "Uptrend"
      else if (price_current <? sma_20)%F && (sma_20 <? sma_50)%F then "Strong Downtrend"
      else if (price_current <? sma_20)%F then "Downtrend"
      else "Sideways" in
    volume_signal ←
      (if (1 <? nrows technical_data)%nat then
         volume ← getitem technical_data "volume";
         let avg_volume := iloc_last (rolling_mean 20 volume) in
         let current_volume := latest_get technical_data "volume" (of_Z 0) in
         mret (if (current_volume >? avg_volume * Fin (3 # 2))%F then "High Volume"
               else if (current_volume <? avg_volume * Fin (1 # 2))%F then "Low Volume"
               else "Normal Volume")
       else mret "Normal Volume");
    let bb_upper := latest_get technical_data "bb_upper" (of_Z 0) in
    let bb_lower := latest_get technical_data "bb_lower" (of_Z 0) in
    let bollinger_position :=
      if (price_current >? bb_upper)%F then "Above Upper Band"
      else if (price_current <? bb_lower)%F then "Below Lower Band"
      else "Within Bands" in
    let overall_signal := overall_of rsi_signal macd_signal trend_signal in
    mret {| rsi_current := Some rsi_current;
            rsi_signal := Some rsi_signal;
            macd_signal := Some macd_signal;
            trend_signal := Some trend_signal;
            volume_signal := Some volume_signal;
            bollinger_position := Some bollinger_position;
            momentum_signal := Some rsi_signal;
            overall_signal := Some overall_signal |}.

(** [get_technical_summary]: the handler of the [try] returns the empty
    dictionary. *)
Definition get_technical_summary (technical_data : frame) : summary_dict :=
  try_except (technical_summary_body technical_data) empty_summary.

End TechnicalAnalyzer.

(* ===================================================================== *)
(** ** components/comparison.py *)
(* ===================================================================== *)

Module StockComparison.

Record metrics : Type := mkMetrics {
  current_price : fval;
  total_return : fval;
  volatility : fval;
  sharpe_ratio : fval;
  max_drawdown : fval;
  high_52w : fval;
  low_52w : fval;
  price_position : fval;
  avg_volume : fval;
  volume_ratio : fval
}.

(** [252 ** 0.5]. *)
Definition sqrt_252 : fval := fsqrt (of_Z 252).

(** The body of the [try] block of [calculate_metrics]. *)
Definition calculate_metrics_body (stock_data : frame) : except (option metrics) :=
  if empty stock_data || (nrows stock_data <? 2)%nat then mret None
  else
    close ← getitem stock_data "close";
    let current_price := iloc_last close in
    close ← getitem stock_data "close";
    let start_price := iloc_first close in
    let total_return :=
      if (start_price !=? of_Z 0)%F
      then ((current_price / start_price - of_Z 1) * of_Z 100)%F
      else of_Z 0 in
    close ← getitem stock_data "close";
    let returns := dropna (pct_change close) in
    let '(volatility, sharpe) :=
      if (length returns <? 2)%nat then (of_Z 0, of_Z 0)
      else
        let volatility := (series_std returns * sqrt_252 * of_Z 100)%F in
        let risk_free_rate := Fin (2 # 100) in
        let excess_returns := map (λ r, r - risk_free_rate / of_Z 252)%F returns in
        let sharpe :=
          if (series_std returns !=? of_Z 0)%F
          then (series_mean excess_returns / series_std returns * sqrt_252)%F
          else of_Z 0 in
        (volatility, sharpe) in
    let max_drawdown :=
      if (0 <? length returns)%nat then
        let cumulative := cumprod (map (λ r, of_Z 1 + r)%F returns) in
        let rolling_max := expanding_max cumulative in
        let drawdown := zip_with (λ c m, c / m - of_Z 1)%F cumulative rolling_max in
        (series_min drawdown * of_Z 100)%F
      else of_Z 0 in
    high ← getitem stock_data "high";
    let high_52w := series_max high in
    low ← getitem stock_data "low";
    let low_52w := series_min low in
    let price_range := (high_52w - low_52w)%F in
    let price_position :=
      if (price_range >? of_Z 0)%F
      then ((current_price - low_52w) / price_range * of_Z 100)%F
      else of_Z 50 in
    volume ← getitem stock_data "volume";
    let avg_volume := series_mean volume in
    volume ← getitem stock_data "volume";
    let current_volume := iloc_last volume in
    let volume_ratio :=
      if (avg_volume >? of_Z 0)%F then (current_volume / avg_volume)%F else of_Z 1 in
    mret (Some {| current_price := current_price;
                  total_return := total_return;
                  volatility := volatility;
                  sharpe_ratio := sharpe;
                  max_drawdown := max_drawdown;
                  high_52w := high_52w;
                  low_52w := low_52w;
                  price_position := price_position;
                  avg_volume := avg_volume;
                  volume_ratio := volume_ratio |}).

(** [calculate_metrics]: [None] for fewer than two bars and from the
    handler of the [try]. *)
Definition calculate_metrics (stock_data : frame) : option metrics :=
  try_except (calculate_metrics_body stock_data) None.

(** An entry of [comparison_data], as [fetch_comparison_data] builds it. *)
Record asset : Type := mkAsset {
  data : frame;
  technical : frame;
  summary : summary_dict;
  market : string
}.

(** The entry [fetch_comparison_data] stores for a symbol whose price
    history was fetched. *)
Definition comparison_entry (stock_data : frame) (market_code : string) : asset :=
  let technical_data := TechnicalAnalyzer.calculate_all_indicators stock_data in
  let tech_summary := TechnicalAnalyzer.get_technical_summary technical_data in
  {| data := stock_data;
     technical := technical_data;
     summary := tech_summary;
     market := market_code |}.

(** The scoring of an asset whose metrics were computed: the statements of
    the first loop of [_generate_fallback_comparison] from [summary =
    data['summary']] to the value stored in [scores]. *)
Definition score_of_metrics (metrics : metrics) (summary : summary_dict) (score : Z) : Z :=
  let score :=
    if (total_return metrics >? of_Z 30)%F then (score + 25)%Z
    else if (total_return metrics >? of_Z 20)%F then (score + 20)%Z
    else if (total_return metrics >? of_Z 10)%F then (score + 15)%Z
    else if (total_return metrics >? of_Z 0)%F then (score + 10)%Z
    else if (total_return metrics >? of_Z (-10))%F then (score + 5)%Z
    else (score - 5)%Z in
  let score :=
    if (sharpe_ratio metrics >? of_Z 2)%F then (score + 20)%Z
    else if (sharpe_ratio metrics >? Fin (3 # 2))%F then (score + 15)%Z
    else if (sharpe_ratio metrics >? of_Z 1)%F then (score + 10)%Z
    else if (sharpe_ratio metrics >? Fin (1 # 2))%F then (score + 5)%Z
    else score in
  let rsi := get_or (rsi_current summary) (of_Z 50) in
  let score :=
    if (of_Z 45 <? rsi)%F && (rsi <? of_Z 55)%F then (score + 10)%Z
    else if (of_Z 40 <? rsi)%F && (rsi <? of_Z 60)%F then (score + 7)%Z
    else if (of_Z 30 <? rsi)%F && (rsi <? of_Z 70)%F then (score + 3)%Z
    else score in
  let trend_signal := get_or (trend_signal summary) "" in
  let score :=
    if contains "Strong Uptrend" trend_signal then (score + 5)%Z
    else if contains "Uptrend" trend_signal then (score + 3)%Z
    else if contains "Downtrend" trend_signal then (score - 3)%Z
    else score in
  let score :=
    if (volatility metrics <? of_Z 15)%F then (score + 15)%Z
    else if (volatility metrics <? of_Z 20)%F then (score + 10)%Z
    else if (volatility metrics <? of_Z 30)%F then (score + 5)%Z
    else if (volatility metrics <? of_Z 40)%F then (score + 2)%Z
    else score in
  let score :=
    if (max_drawdown metrics >? of_Z (-10))%F then (score + 10)%Z
    else if (max_drawdown metrics >? of_Z (-15))%F then (score + 7)%Z
    else if (max_drawdown metrics >? of_Z (-20))%F then (score + 5)%Z
    else if (max_drawdown metrics >? of_Z (-30))%F then (score + 2)%Z
    else score in
  let score :=
    if bool_decide (macd_signal summary = Some "Bullish") then (score + 5)%Z
    else if bool_decide (macd_signal summary = Some "Bearish") then (score - 2)%Z
    else score in
  Z.max 0 (Z.min 100 score).

(** The value the first loop stores in [scores] for an asset that has an
    entry in [comparison_data]. *)
Definition score_asset (entry : asset) : Z :=
  let score := 50%Z in
  match calculate_metrics (data entry) with
  | None => 50%Z
  | Some metrics => score_of_metrics metrics (summary entry) score
  end.

(** [scores]: a Python dictionary keeps its keys in insertion order, and an
    assignment to an existing key keeps the key's position. *)
Abbreviation scores_dict := (list (string * Z)).

Fixpoint dict_set (d : scores_dict) (key : string) (v : Z) : scores_dict :=
  match d with
  | [] => [(key, v)]
  | (k, v') :: r => if String.eqb k key then (k, v) :: r else (k, v') :: dict_set r key v
  end.

Fixpoint dict_get (d : scores_dict) (key : string) : except Z :=
  match d with
  | [] => Raise (KeyError key)
  | (k, v) :: r => if String.eqb k key then Ok v else dict_get r key
  end.

(** [comparison_data[symbol]]. *)
Definition lookup_asset (comparison_data : gmap string asset) (symbol : string)
  : except asset :=
  match comparison_data !! symbol with
  | Some entry => Ok entry
  | None => Raise (KeyError symbol)
  end.

(** The first loop: symbols without data are skipped. *)
Definition compute_scores (symbols : list string) (comparison_data : gmap string asset)
  : scores_dict :=
  fold_left
    (λ scores symbol,
       match comparison_data !! symbol with
       | None => scores
       | Some entry => dict_set scores symbol (score_asset entry)
       end)
    symbols [].

(** [sorted(items, key=lambda x: x[1], reverse=True)]: Python's sort is
    stable, also with [reverse=True]: an item moves behind the items that
    come before it only when its score is strictly lower. *)
Fixpoint insert_desc (x : string * Z) (l : scores_dict) : scores_dict :=
  match l with
  | [] => [x]
  | y :: r => if (x.2 <? y.2)%Z then y :: insert_desc x r else x :: y :: r
  end.

Definition sorted_desc (items : scores_dict) : scores_dict :=
  fold_right insert_desc [] items.

(** The texts of the result are kept as the template chosen and the values
    formatted into it. *)
Inductive rationale : Type :=
| OverallScore (score : Z) (total_return volatility sharpe : fval) (trend : string)
| LimitedData (score : Z)
| InsufficientData.

Record ranking : Type := mkRanking {
  symbol : string;
  rank : nat;
  score : Z;
  rationale_text : rationale
}.

Inductive reason : Type :=
| HighestScore (score : Z)
| SuperiorReturn (total_return : fval)
| BestRiskAdjusted (sharpe : fval)
| ExcellentRiskReward (sharpe max_drawdown : fval)
| FavorableTechnical (trend : string) (rsi : fval)
| Outperforms (second_symbol : string) (margin : fval)
| LowerVolatility (volatility : fval) (second_symbol : string) (second_volatility : fval)
| InsufficientAnalysis
| TryDifferentSymbols
| EnsureValidSymbols.

(** A reason that compares the best asset with the second one. *)
Definition comparative (r : reason) : bool :=
  match r with
  | Outperforms _ _ | LowerVolatility _ _ _ => true
  | _ => false
  end.

(** [return_comparison] names the best asset and its return and, when a
    second asset is ranked, that asset and its return.  The other four
    narrative strings format values already bound ([best_choice],
    [best_metrics], [best_summary], [ranked[1][0]], [len(symbols)]) and
    cannot raise; they are not kept. *)
Inductive return_text : Type :=
| StrongestPerformance (best : string) (total_return : fval)
    (second : option (string * fval))
| UnableToCompare.

Record analysis : Type := mkAnalysis {
  best_choice : string;
  best_choice_reasons : list reason;
  rankings : list ranking;
  return_comparison : return_text
}.

Definition _get_default_analysis (symbols : list string) : analysis :=
  {| best_choice := match symbols with s :: _ => s | [] => "N/A" end;
     best_choice_reasons :=
       [InsufficientAnalysis; TryDifferentSymbols; EnsureValidSymbols];
     rankings := imap (λ i s, mkRanking s (i + 1) 50 InsufficientData) symbols;
     return_comparison := UnableToCompare |}.

(** One turn of the loop that builds [rankings]. *)
Definition ranking_entry (comparison_data : gmap string asset)
    (i : nat) (item : string * Z) : except ranking :=
  let '(symbol, score) := item in
  data ← lookup_asset comparison_data symbol;
  let metrics := calculate_metrics (StockComparison.data data) in
  let summary := summary data in
  let rationale :=
    match metrics with
    | Some metrics =>
        OverallScore score (total_return metrics) (volatility metrics)
          (sharpe_ratio metrics) (get_or (trend_signal summary) "Neutral")
    | None => LimitedData score
    end in
  mret (mkRanking symbol (i + 1) score rationale).

(** The loop over [enumerate(ranked)], from position [i] on. *)
Fixpoint build_rankings (comparison_data : gmap string asset)
    (i : nat) (ranked : scores_dict) : except (list ranking) :=
  match ranked with
  | [] => mret []
  | item :: rest =>
      entry ← ranking_entry comparison_data i item;
      entries ← build_rankings comparison_data (S i) rest;
      mret (entry :: entries)
  end.

(** The comparison with the second-ranked asset, appended to [reasons]. *)
Definition second_best_reasons (comparison_data : gmap string asset)
    (ranked : scores_dict) (best_metrics : metrics) (reasons : list reason)
  : except (list reason) :=
  match ranked with
  | _ :: (second_symbol, _) :: _ =>
      second_data ← lookup_asset comparison_data second_symbol;
      match calculate_metrics (data second_data) with
      | Some second_metrics =>
          if (total_return best_metrics >? total_return second_metrics)%F then
            mret (reasons ++
                  [Outperforms second_symbol
                     (total_return best_metrics - total_return second_metrics)%F])
          else if (volatility best_metrics <? volatility second_metrics)%F then
            mret (reasons ++
                  [LowerVolatility (volatility best_metrics) second_symbol
                     (volatility second_metrics)])
          else mret reasons
      | None => mret reasons
      end
  | _ => mret reasons
  end.

(** The [return_comparison] entry of the returned dictionary: with a second
    asset ranked, its metrics are computed again and subscripted at once. *)
Definition return_comparison_text (comparison_data : gmap string asset)
    (ranked : scores_dict) (best_choice : string) (best_metrics : metrics)
  : except return_text :=
  match ranked with
  | _ :: (second_symbol, _) :: _ =>
      second_data ← lookup_asset comparison_data second_symbol;
      match calculate_metrics (data second_data) with
      | Some second_metrics =>
          mret (StrongestPerformance best_choice (total_return best_metrics)
                  (Some (second_symbol, total_return second_metrics)))
      | None => Raise TypeError
      end
  | _ => mret (StrongestPerformance best_choice (total_return best_metrics) None)
  end.

Definition _generate_fallback_comparison
    (symbols : list string) (comparison_data : gmap string asset) : except analysis :=
  let scores := compute_scores symbols comparison_data in
  let ranked := sorted_desc scores in
  match ranked with
  | [] => mret (_get_default_analysis symbols)
  | (best_choice, _) :: _ =>
      rankings ← build_rankings comparison_data 0 ranked;
      best_data ← lookup_asset comparison_data best_choice;
      let best_metrics := calculate_metrics (data best_data) in
      let best_summary := summary best_data in
      match best_metrics with
      | None => mret (_get_default_analysis symbols)
      | Some best_metrics =>
          let reasons := [] in
          best_score ← dict_get scores best_choice;
          let reasons := reasons ++ [HighestScore best_score] in
          let reasons :=
            if (total_return best_metrics >? of_Z 0)%F
            then reasons ++ [SuperiorReturn (total_return best_metrics)]
            else reasons ++ [BestRiskAdjusted (sharpe_ratio best_metrics)] in
          let reasons :=
            if (sharpe_ratio best_metrics >? Fin (1 # 2))%F
            then reasons ++ [ExcellentRiskReward (sharpe_ratio best_metrics)
                               (max_drawdown best_metrics)]
            else reasons ++ [FavorableTechnical
                               (get_or (trend_signal best_summary) "stable trend")
                               (get_or (rsi_current best_summary) (of_Z 50))] in
          reasons ← second_best_reasons comparison_data ranked best_metrics reasons;
          return_comparison ← return_comparison_text comparison_data ranked
                                best_choice best_metrics;
          mret {| best_choice := best_choice;
                  best_choice_reasons := firstn 4 reasons;
                  rankings := rankings;
                  return_comparison := return_comparison |}
      end
  end.

End StockComparison.

Export TechnicalAnalyzer.
Export StockComparison.

(* ===================================================================== *)
(** ** The specification's wording of the properties *)
(* ===================================================================== *)

(** The additive adjustments of section 4.4 of the specification, one table
    per criterion, written from the specification's words. *)
Module ScoreSpec.

Definition clamp (lo hi x : Z) : Z := Z.max lo (Z.min hi x).

Definition return_adjustment (total_return : fval) : Z :=
  if (total_return >? of_Z 30)%F then 25
  else if (total_return >? of_Z 20)%F then 20
  else if (total_return >? of_Z 10)%F then 15
  else if (total_return >? of_Z 0)%F then 10
  else if (total_return >? of_Z (-10))%F then 5
  else -5.

Definition sharpe_adjustment (sharpe : fval) : Z :=
  if (sharpe >? of_Z 2)%F then 20
  else if (sharpe >? Fin (3 # 2))%F then 15
  else if (sharpe >? of_Z 1)%F then 10
  else if (sharpe >? Fin (1 # 2))%F then 5
  else 0.

Definition within (lo hi : Z) (x : fval) : bool :=
  (of_Z lo <? x)%F && (x <? of_Z hi)%F.

Definition rsi_adjustment (rsi : fval) : Z :=
  if within 45 55 rsi then 10
  else if within 40 60 rsi then 7
  else if within 30 70 rsi then 3
  else 0.

Definition trend_adjustment (trend : string) : Z :=
  if contains "Strong Uptrend" trend then 5
  else if contains "Uptrend" trend then 3
  else if contains "Downtrend" trend then -3
  else 0.

Definition volatility_adjustment (volatility : fval) : Z :=
  if (volatility <? of_Z 15)%F then 15
  else if (volatility <? of_Z 20)%F then 10
  else if (volatility <? of_Z 30)%F then 5
  else if (volatility <? of_Z 40)%F then 2
  else 0.

Definition drawdown_adjustment (max_drawdown : fval) : Z :=
  if (max_drawdown >? of_Z (-10))%F then 10
  else if (max_drawdown >? of_Z (-15))%F then 7
  else if (max_drawdown >? of_Z (-20))%F then 5
  else if (max_drawdown >? of_Z (-30))%F then 2
  else 0.

Definition macd_adjustment (macd : option string) : Z :=
  match macd with
  | Some "Bullish" => 5
  | Some "Bearish" => -2
  | _ => 0
  end.


End ScoreSpec.

(** Position of the first occurrence of a symbol in the input list (the
    length of the list when it does not occur). *)
Fixpoint index_of (x : string) (l : list string) : nat :=
  match l with
  | [] => 0
  | y :: r => if String.eqb y x then 0 else S (index_of x r)
  end.

(** [x] stands before [y] in [l]. *)
Definition precedes {A : Type} (l : list A) (x y : A) : Prop :=
  ∃ i j, i < j ∧ l !! i = Some x ∧ l !! j = Some y.

(** Descending order of the scores of a list of items. *)
Definition descending (l : scores_dict) : Prop :=
  StronglySorted (λ x y, (y.2 ≤ x.2)%Z) l.

(** The metrics of the asset stored under a symbol, if any. *)
Definition asset_metrics (comparison_data : gmap string asset) (symbol : string)
  : option metrics :=
  match comparison_data !! symbol with
  | Some entry => calculate_metrics (data entry)
  | None => None
  end.

(** The list [ranked] of [_generate_fallback_comparison]. *)
Definition ranked_items (symbols : list string) (comparison_data : gmap string asset)
  : scores_dict :=
  sorted_desc (compute_scores symbols comparison_data).

(** The asset ranked first has usable metrics. *)
Definition top_usable (symbols : list string) (comparison_data : gmap string asset)
  : bool :=
  match ranked_items symbols comparison_data with
  | (best, _) :: _ => bool_decide (is_Some (asset_metrics comparison_data best))
  | [] => false
  end.

(** The asset ranked second, if there is one, has usable metrics. *)
Definition second_usable (comparison_data : gmap string asset) (rest : scores_dict)
  : Prop :=
  match rest with
  | (second, _) :: _ => is_Some (asset_metrics comparison_data second)
  | [] => True
  end.

(** The comparative reason the best asset earns against the second one:
    the margin in total return when it is ahead, else the lower volatility
    when it has it, else none. *)
Definition comparative_reason (best_metrics : metrics) (second : string)
    (second_metrics : metrics) : option reason :=
  if (total_return best_metrics >? total_return second_metrics)%F then
    Some (Outperforms second
            (total_return best_metrics - total_return second_metrics)%F)
  else if (volatility best_metrics <? volatility second_metrics)%F then
    Some (LowerVolatility (volatility best_metrics) second
            (volatility second_metrics))
  else None.

Definition second_comparison (comparison_data : gmap string asset)
    (best_metrics : metrics) (rest : scores_dict) : list reason :=
  match rest with
  | (second, _) :: _ =>
      match asset_metrics comparison_data second with
      | Some second_metrics =>
          option_list (comparative_reason best_metrics second second_metrics)
      | None => []
      end
  | [] => []
  end.


(** The requested symbols whose metrics could be computed. *)
Definition usable_symbols (symbols : list string)
    (comparison_data : gmap string asset) : list string :=
  filter (λ s, is_Some (asset_metrics comparison_data s)) (remove_dups symbols).

(* ===================================================================== *)
(** ** Concrete inputs *)
(* ===================================================================== *)

Module Examples.

(** A price history with the four columns the code reads. *)
Definition bars (close high low volume : list Z) : frame :=
  {| nrows := length close;
     columns := <["close" := map of_Z close]>
                  (<["high" := map of_Z high]>
                     (<["low" := map of_Z low]>
                        (<["volume" := map of_Z volume]> ∅))) |}.

(** Two bars, the close rising from 100 to 110. *)
Definition rising : frame := bars [100; 110]%Z [101; 111]%Z [99; 109]%Z [1000; 1200]%Z.

(** Two bars, the close falling from 100 to 95. *)
Definition falling : frame := bars [100; 95]%Z [101; 96]%Z [99; 94]%Z [1000; 900]%Z.

(** A single bar: too short for metrics. *)
Definition single : frame := bars [100]%Z [101]%Z [99]%Z [1000]%Z.

(** Three assets, the third without usable metrics. *)
Definition three_assets : gmap string asset :=
  <["AAA" := comparison_entry rising "US"]>
    (<["BBB" := comparison_entry falling "US"]>
       (<["CCC" := comparison_entry single "US"]> ∅)).



(** Two assets with the same price history. *)
Definition twins : gmap string asset :=
  <["AAA" := comparison_entry rising "US"]>
    (<["BBB" := comparison_entry rising "US"]> ∅).

(** Adversarial metrics: a total return of a million percent, no
    volatility. *)
Definition extreme_metrics : metrics :=
  {| current_price := of_Z 1000000;
     total_return := of_Z 1000000;
     volatility := of_Z 0;
     sharpe_ratio := of_Z 1000;
     max_drawdown := of_Z 0;
     high_52w := of_Z 1000000;
     low_52w := of_Z 1;
     price_position := of_Z 100;
     avg_volume := of_Z 1;
     volume_ratio := of_Z 1 |}.

Definition bullish_summary : summary_dict :=
  {| rsi_current := Some (of_Z 50);
     rsi_signal := Some "Neutral";
     macd_signal := Some "Bullish";
     trend_signal := Some "Strong Uptrend";
     volume_signal := Some "Normal Volume";
     bollinger_position := Some "Within Bands";
     momentum_signal := Some "Neutral";
     overall_signal := Some "Bullish - Consider buying on dips" |}.

End Examples.

(** A value that is NaN or an infinity. *)
Definition special (x : fval) : bool := is_nan x || is_inf x.

(** Inputs for the indicator library. *)
Module IndicatorExamples.

(** Fifteen bars at the same price. *)
Definition flat : series := repeat (of_Z 5) 15.

(** A frame that lacks the [high] and [low] columns. *)
Definition close_only : frame :=
  {| nrows := 3;
     columns := <["close" := map of_Z [10; 11; 12]%Z]>
                  (<["volume" := map of_Z [100; 100; 100]%Z]> ∅) |}.

(** The frame without rows and columns. *)
Definition no_data : frame := {| nrows := 0; columns := ∅ |}.

(** Two bars with the same high and low and no volume. *)
Definition flat_bars : frame :=
  Examples.bars [7; 7]%Z [7; 7]%Z [7; 7]%Z [0; 0]%Z.

End IndicatorExamples.

(** The exponential moving average in the words of the specification:
    the first value is the first sample, every later value is
    [alpha * x + (1 - alpha) * previous] with [alpha = 2 / (w + 1)]. *)
Module EmaSpec.

Fixpoint ema_recursive_from (alpha prev : Q) (xs : list Q) : list Q :=
  match xs with
  | [] => []
  | x :: r =>
      let e := (alpha * x + (1 - alpha) * prev)%Q in
      e :: ema_recursive_from alpha e r
  end.

Definition ema_recursive (xs : list Q) (w : nat) : list Q :=
  match xs with
  | [] => []
  | x :: r => x :: ema_recursive_from (span_alpha w) x r
  end.

Fixpoint Qpow (b : Q) (n : nat) : Q :=
  match n with
  | 0 => 1
  | S n' => b * Qpow b n'
  end.

(** [1 + b + b^2 + ... + b^i]: the sum of the weights of the observations
    up to row [i]. *)
Fixpoint geometric_sum (b : Q) (i : nat) : Q :=
  match i with
  | 0 => 1
  | S i' => geometric_sum b i' + Qpow b (S i')
  end.

End EmaSpec.

(** The sum of weights [i] rows after a row where it was [d]. *)
Fixpoint weights_from (b d : Q) (i : nat) : Q :=
  match i with
  | 0 => b * d + 1
  | S i' => weights_from b (b * d + 1) i'
  end.

(** The columns [calculate_all_indicators] adds to a frame. *)
Definition indicator_columns : list string :=
  ["sma_20"; "sma_50"; "ema_12"; "ema_26"; "rsi";
   "macd"; "macd_signal"; "macd_histogram";
   "bb_upper"; "bb_middle"; "bb_lower";
   "stoch_k"; "stoch_d"; "williams_r"; "adx";
   "support"; "resistance"].

(** The computation of one of the indicators raises on the frame. *)
Definition some_indicator_fails (data : frame) : Prop :=
  raises (sma_of data 20) ∨ raises (sma_of data 50) ∨
  raises (ema_of data 12) ∨ raises (ema_of data 26) ∨
  raises (rsi_of data) ∨ raises (macd_of data) ∨
  raises (bollinger_of data) ∨ raises (stochastic_of data) ∨
  raises (williams_of data) ∨ raises (adx_of data) ∨
  raises (calculate_support_resistance data 20).

(** The labels [trend_signal] can take. *)
Definition trend_labels : list string :=
  ["Strong Uptrend"; "Uptrend"; "Strong Downtrend"; "Downtrend"; "Sideways"].

(* ===================================================================== *)
(** ** Further notions for the indicator library *)
(* ===================================================================== *)

(** The sum of a list of rationals. *)
Definition Qsum (l : list Q) : Q := fold_right Qplus 0%Q l.

(** A finite value. *)
Definition finite (v : fval) : Prop := ∃ q, v = Fin q.

(** A finite value that is not negative. *)
Definition nonneg (v : fval) : Prop := ∃ q, v = Fin q ∧ (0 <= q)%Q.

(** A missing value or a finite value within the given bounds. *)
Definition nan_or_within (lo hi : Q) (v : fval) : Prop :=
  v = NaN ∨ ∃ q, v = Fin q ∧ (lo <= q)%Q ∧ (q <= hi)%Q.

(** [a <= b] on values that are not NaN. *)
Definition fle (a b : fval) : Prop := flt b a = false.


(* ===================================================================== *)
(** ** The currency helper (src/utils/currency_helper.py) *)
(* ===================================================================== *)

Module CurrencyHelper.

(** A row of [MARKET_CURRENCIES]: the keys "symbol", "code" and "name". *)
Record currency : Type := mkCurrency {
  symbol : string;
  code : string;
  name : string
}.

Definition MARKET_CURRENCIES : gmap string currency :=
  list_to_map
    [("US", mkCurrency "$" "USD" "US Dollar");
     ("IN", mkCurrency "₹" "INR" "Indian Rupee");
     ("CN", mkCurrency "¥" "CNY" "Chinese Yuan");
     ("EU", mkCurrency "€" "EUR" "Euro");
     ("HK", mkCurrency "HK$" "HKD" "Hong Kong Dollar");
     ("JP", mkCurrency "¥" "JPY" "Japanese Yen");
     ("CA", mkCurrency "C$" "CAD" "Canadian Dollar");
     ("AU", mkCurrency "A$" "AUD" "Australian Dollar")].

(** [MARKET_CURRENCIES.get(market_code, {}).get(key, default)]. *)
Definition get_currency_symbol (market_code : string) : string :=
  match MARKET_CURRENCIES !! market_code with
  | Some row => symbol row
  | None => "$"
  end.

Definition get_currency_code (market_code : string) : string :=
  match MARKET_CURRENCIES !! market_code with
  | Some row => code row
  | None => "USD"
  end.

Definition get_currency_name (market_code : string) : string :=
  match MARKET_CURRENCIES !! market_code with
  | Some row => name row
  | None => "US Dollar"
  end.

(** A formatted price is kept as the pieces of the f-string: the text
    before the number, the number with the count of decimals it is printed
    with (always with thousands separators), and the text after it. *)
Record price_text : Type := mkPriceText {
  before : string;
  amount : fval;
  places : nat;
  after : string
}.

Definition format_price (price : fval) (market_code : string) (decimals : nat)
  : price_text :=
  let symbol := get_currency_symbol market_code in
  if String.eqb market_code "JP" then mkPriceText symbol price 0 ""
  else mkPriceText symbol price decimals "".

Definition format_with_code (price : fval) (market_code : string) (decimals : nat)
  : price_text :=
  let code := get_currency_code market_code in
  if String.eqb market_code "JP" then mkPriceText "" price 0 (" " ++ code)
  else mkPriceText "" price decimals (" " ++ code).

End CurrencyHelper.

(* ===================================================================== *)
(** ** Python strings by code point, and the cleaning of a model response *)
(* ===================================================================== *)

Module PyStr.

(** A [str] as the list of its code points. *)
Abbreviation pystr := (list N).

(** The code points of an ASCII literal. *)
Definition literal (s : string) : pystr :=
  map (λ a, N.of_nat (Ascii.nat_of_ascii a)) (list_ascii_of_string s).

(** [str.isspace] on one character, which is also what [str.strip()]
    removes. *)
Definition isspace (c : N) : bool :=
  ((9 <=? c) && (c <=? 13) || (28 <=? c) && (c <=? 32)
   || (c =? 133) || (c =? 160) || (c =? 5760)
   || (8192 <=? c) && (c <=? 8202)
   || (c =? 8232) || (c =? 8233) || (c =? 8239) || (c =? 8287)
   || (c =? 12288))%N.

Fixpoint lstrip (s : pystr) : pystr :=
  match s with
  | [] => []
  | c :: r => if isspace c then lstrip r else s
  end.

Definition rstrip (s : pystr) : pystr := rev (lstrip (rev s)).

Definition strip (s : pystr) : pystr := rstrip (lstrip s).

Fixpoint startswith (s prefix : pystr) : bool :=
  match prefix, s with
  | [], _ => true
  | p :: prefix, c :: s => (c =? p)%N && startswith s prefix
  | _ :: _, [] => false
  end.

Definition endswith (s suffix : pystr) : bool :=
  startswith (rev s) (rev suffix).

End PyStr.

Module Advisor.

Import PyStr.

(** The lines of the prompt about one stock. *)
Record stock_brief : Type := mkBrief {
  brief_symbol : string;
  brief_price : fval;
  brief_return : fval;
  brief_volatility : fval;
  brief_sharpe : fval;
  brief_drawdown : fval;
  brief_rsi : fval;
  brief_trend : string;
  brief_macd : string
}.

(** The prompt: the number of symbols of its first line and the briefs of
    the stocks; the rest of the text is constant. *)
Record prompt : Type := mkPrompt {
  symbol_count : nat;
  briefs : list stock_brief
}.

(** The loop that builds [analysis_text]: symbols without data and
    symbols without metrics are left out. *)
Definition analysis_text (symbols : list string)
    (comparison_data : gmap string asset) : prompt :=
  {| symbol_count := length symbols;
     briefs :=
       flat_map
         (λ symbol,
            match comparison_data !! symbol with
            | Some data =>
                match calculate_metrics (StockComparison.data data) with
                | None => []
                | Some metrics =>
                    let summary := summary data in
                    [mkBrief symbol (current_price metrics) (total_return metrics)
                       (volatility metrics) (sharpe_ratio metrics)
                       (max_drawdown metrics)
                       (get_or (rsi_current summary) (of_Z 50))
                       (get_or (trend_signal summary) "Neutral")
                       (get_or (macd_signal summary) "Neutral")]
                end
            | None => []
            end)
         symbols |}.

(** The statements between [clean_text = response_text.strip()] and
    [json.loads(clean_text)]. *)
Definition clean_response (response_text : pystr) : pystr :=
  let clean_text := strip response_text in
  let clean_text :=
    if startswith clean_text (literal "```json") then drop 7 clean_text
    else clean_text in
  let clean_text :=
    if startswith clean_text (literal "```") then drop 3 clean_text
    else clean_text in
  let clean_text :=
    if endswith clean_text (literal "```")
    then take (length clean_text - 3) clean_text
    else clean_text in
  strip clean_text.

(** What [generate_comparison_analysis] returns: the object parsed from
    the model's answer, or the result of the fallback ranker. *)
Inductive comparison_analysis (J : Type) : Type :=
| FromModel (parsed : J)
| Fallback (result : analysis).

Arguments FromModel {J} parsed.
Arguments Fallback {J} result.

(** What a call made inside the [try] does: it raises (the handler does
    not look at the exception) or returns a value. *)
Inductive outcome (A : Type) : Type :=
| Raised
| Returned (value : A).

Arguments Raised {A}.
Arguments Returned {A} value.

Section Generate.

(** The state of the world the model is called in, and the values
    [json.loads] returns. *)
Variables W J : Type.

(** [self.ai_advisor]: its flag [available], and what the import of the
    client library followed by [_call_model_with_retry(prompt, ...)] does:
    it returns a text or [None], or raises. *)
Record ai_advisor : Type := mkAdvisor {
  available : bool;
  _call_model_with_retry : prompt → W → outcome (option pystr) * W
}.

Variable json_loads : pystr → outcome J.

Definition generate_comparison_analysis (advisor : ai_advisor)
    (symbols : list string) (comparison_data : gmap string asset) (w : W)
  : except (comparison_analysis J) * W :=
  let fallback : except (comparison_analysis J) :=
    result ← _generate_fallback_comparison symbols comparison_data;
    mret (Fallback result) in
  if negb (available advisor) then (fallback, w)
  else
    let prompt := analysis_text symbols comparison_data in
    let '(response, w) := _call_model_with_retry advisor prompt w in
    let body : outcome (comparison_analysis J) :=
      match response with
      | Raised => Raised
      | Returned (Some (c :: text)) =>
          match json_loads (clean_response (c :: text)) with
          | Raised => Raised
          | Returned analysis => Returned (FromModel analysis)
          end
      | Returned (Some []) | Returned None =>
          match fallback with
          | Ok analysis => Returned analysis
          | Raise _ => Raised
          end
      end in
    match body with
    | Returned analysis => (Ok analysis, w)
    | Raised => (fallback, w)
    end.

(** The advisor the application passes: the class [AIAdvisor] of
    utils/ai_advisor.py sets [available] but defines no method
    [_call_model_with_retry], so that the call raises [AttributeError]
    before any request is made. *)
Definition AIAdvisor (available : bool) : ai_advisor :=
  mkAdvisor available (λ _ w, (Raised, w)).

End Generate.

End Advisor.

(* ===================================================================== *)
(** ** The callers of the ranker: fetching and the rankings of the page *)
(* ===================================================================== *)

Module ComparisonPage.

(** [comparison_data] as [fetch_comparison_data] builds it: a dictionary
    in insertion order. *)
Abbreviation comparison_dict := (list (string * asset)).

(** [comparison_data[symbol] = entry]. *)
Fixpoint store (d : comparison_dict) (key : string) (entry : asset) : comparison_dict :=
  match d with
  | [] => [(key, entry)]
  | (k, e) :: r =>
      if String.eqb k key then (k, entry) :: r else (k, e) :: store r key entry
  end.

(** [list(comparison_data.keys())]. *)
Definition keys (d : comparison_dict) : list string := d.*1.

(** The dictionary as the ranker reads it. *)
Definition as_map (d : comparison_dict) : gmap string asset := list_to_map d.

(** What the loop of [fetch_comparison_data] keeps true of the dictionary:
    distinct keys, and under each key an entry built from a non-empty
    history for one of the (symbol, market) pairs. *)
Definition fetched_from (pairs : list (string * string)) (d : comparison_dict) : Prop :=
  NoDup d.*1 ∧
  ∀ k e, (k, e) ∈ d →
    (k, market e) ∈ pairs ∧ empty (data e) = false ∧
    e = comparison_entry (data e) (market e).

Section Fetch.

(** [self.data_fetcher.get_stock_data]: a call in a state of the world
    returns a frame or [None], or raises. *)
Variable W : Type.
Variable get_stock_data : string → string → Z → W → except (option frame) * W.

(** The loop of [fetch_comparison_data] over [zip(symbols, market_codes)]. *)
Fixpoint fetch_loop (pairs : list (string * string)) (days : Z)
    (comparison_data : comparison_dict) (w : W) : comparison_dict * W :=
  match pairs with
  | [] => (comparison_data, w)
  | (symbol, market_code) :: pairs =>
      let '(fetched, w) := get_stock_data symbol market_code days w in
      match fetched with
      | Ok (Some stock_data) =>
          if empty stock_data then fetch_loop pairs days comparison_data w
          else
            fetch_loop pairs days
              (store comparison_data symbol (comparison_entry stock_data market_code)) w
      | Ok None | Raise _ => fetch_loop pairs days comparison_data w
      end
  end.

Definition fetch_comparison_data (symbols market_codes : list string) (days : Z)
    (w : W) : comparison_dict * W :=
  fetch_loop (zip symbols market_codes) days [] w.

End Fetch.

(** A card of the rankings section of [render_comparison]. *)
Record card : Type := mkCard {
  card_color : string;
  card_medal : string;
  card_rank : nat;
  card_symbol : string;
  card_price : CurrencyHelper.price_text;
  card_currency_code : string;
  card_rationale : rationale;
  card_score : Z
}.

(** One turn of the loop over [comparison_analysis['rankings']]. *)
Definition ranking_card (comparison_data : gmap string asset) (rank_data : ranking)
  : except card :=
  let symbol := symbol rank_data in
  let rank := rank rank_data in
  let score := score rank_data in
  entry ← lookup_asset comparison_data symbol;
  let market := market entry in
  let currency_code := CurrencyHelper.get_currency_code market in
  entry ← lookup_asset comparison_data symbol;
  match calculate_metrics (data entry) with
  | None => Raise TypeError
  | Some metrics =>
      let current_price := current_price metrics in
      let '(color, medal) :=
        if (rank =? 1)%nat then ("#2ed573", "🥇")
        else if (rank =? 2)%nat then ("#ffa502", "🥈")
        else ("#ff4757", "🥉") in
      mret {| card_color := color;
              card_medal := medal;
              card_rank := rank;
              card_symbol := symbol;
              card_price := CurrencyHelper.format_price current_price market 2;
              card_currency_code := currency_code;
              card_rationale := rationale_text rank_data;
              card_score := score |}
  end.

(** The rankings loop inside the [try] of [render_comparison]: the cards
    written to the page, in order, and the exception that ended the loop,
    if any (the handler reports it and nothing below the rankings is
    rendered). *)
Fixpoint render_rankings (comparison_data : gmap string asset)
    (rankings : list ranking) : list card * option exn :=
  match rankings with
  | [] => ([], None)
  | rank_data :: rankings =>
      match ranking_card comparison_data rank_data with
      | Raise e => ([], Some e)
      | Ok c =>
          let '(cards, failure) := render_rankings comparison_data rankings in
          (c :: cards, failure)
      end
  end.

(** The comparison tab of app.py once the data is fetched, with the
    advisor unavailable: [generate_comparison_analysis] is then the
    fallback ranker, whose exception is not caught, and its result goes to
    [render_comparison]. *)
Definition compare_without_advisor (symbols : list string)
    (comparison_data : gmap string asset) : except (list card * option exn) :=
  comparison_analysis ← _generate_fallback_comparison symbols comparison_data;
  mret (render_rankings comparison_data (rankings comparison_analysis)).

End ComparisonPage.

(* ===================================================================== *)
(** ** The composite score *)
(* ===================================================================== *)

Section Scoring.

Import ScoreSpec.

Lemma score_of_metrics_sum (m : metrics) (s : summary_dict) (base : Z) :
  score_of_metrics m s base =
  clamp 0 100
    (base + (return_adjustment (total_return m)
             + sharpe_adjustment (sharpe_ratio m)
             + rsi_adjustment (get_or (rsi_current s) (of_Z 50))
             + trend_adjustment (get_or (trend_signal s) "")
             + volatility_adjustment (volatility m)
             + drawdown_adjustment (max_drawdown m)
             + macd_adjustment (macd_signal s)))%Z.
Proof.
  unfold score_of_metrics, clamp. cbv zeta. do 2 f_equal.
  assert (Hmacd : ∀ x : Z,
    (if bool_decide (macd_signal s = Some "Bullish") then (x + 5)%Z
     else if bool_decide (macd_signal s = Some "Bearish") then (x - 2)%Z else x)
    = (x + macd_adjustment (macd_signal s))%Z).
  { intros x. unfold macd_adjustment.
    repeat case_bool_decide; destruct (macd_signal s) as [t|]; simplify_eq; try lia.
    repeat case_match; simplify_eq; lia. }
  rewrite Hmacd.
  assert (Hdd : ∀ x : Z,
    (if (max_drawdown m >? of_Z (-10))%F then (x + 10)%Z
     else if (max_drawdown m >? of_Z (-15))%F then (x + 7)%Z
     else if (max_drawdown m >? of_Z (-20))%F then (x + 5)%Z
     else if (max_drawdown m >? of_Z (-30))%F then (x + 2)%Z else x)
    = (x + drawdown_adjustment (max_drawdown m))%Z).
  { intros x. unfold drawdown_adjustment. repeat case_match; lia. }
  rewrite Hdd.
  assert (Hvol : ∀ x : Z,
    (if (volatility m <? of_Z 15)%F then (x + 15)%Z
     else if (volatility m <? of_Z 20)%F then (x + 10)%Z
     else if (volatility m <? of_Z 30)%F then (x + 5)%Z
     else if (volatility m <? of_Z 40)%F then (x + 2)%Z else x)
    = (x + volatility_adjustment (volatility m))%Z).
  { intros x. unfold volatility_adjustment. repeat case_match; lia. }
  rewrite Hvol.
  assert (Htrend : ∀ (t : string) (x : Z),
    (if contains "Strong Uptrend" t then (x + 5)%Z
     else if contains "Uptrend" t then (x + 3)%Z
     else if contains "Downtrend" t then (x - 3)%Z else x)
    = (x + trend_adjustment t)%Z).
  { intros t x. unfold trend_adjustment. repeat case_match; lia. }
  rewrite Htrend.
  assert (Hrsi : ∀ (r : fval) (x : Z),
    (if (of_Z 45 <? r)%F && (r <? of_Z 55)%F then (x + 10)%Z
     else if (of_Z 40 <? r)%F && (r <? of_Z 60)%F then (x + 7)%Z
     else if (of_Z 30 <? r)%F && (r <? of_Z 70)%F then (x + 3)%Z else x)
    = (x + rsi_adjustment r)%Z).
  { intros r x. unfold rsi_adjustment, within. repeat case_match; lia. }
  rewrite Hrsi.
  assert (Hsharpe : ∀ x : Z,
    (if (sharpe_ratio m >? of_Z 2)%F then (x + 20)%Z
     else if (sharpe_ratio m >? Fin (3 # 2))%F then (x + 15)%Z
     else if (sharpe_ratio m >? of_Z 1)%F then (x + 10)%Z
     else if (sharpe_ratio m >? Fin (1 # 2))%F then (x + 5)%Z else x)
    = (x + sharpe_adjustment (sharpe_ratio m))%Z).
  { intros x. unfold sharpe_adjustment. repeat case_match; lia. }
  rewrite Hsharpe.
  unfold return_adjustment. repeat case_match; lia.
Qed.

Lemma clamp_range (x : Z) : (0 ≤ clamp 0 100 x ≤ 100)%Z.
Proof. unfold clamp. lia. Qed.

Lemma score_asset_range (entry : asset) : (0 ≤ score_asset entry ≤ 100)%Z.
Proof.
  unfold score_asset. destruct (calculate_metrics (data entry)) as [m|]; [|lia].
  rewrite score_of_metrics_sum. apply clamp_range.
Qed.

End Scoring.

(* ===================================================================== *)
(** ** The scores dictionary *)
(* ===================================================================== *)

Section ScoresDict.

Lemma index_of_app_in (x : string) (l r : list string) :
  x ∈ l → index_of x (l ++ r) = index_of x l.
Proof.
  induction l as [|y l IH]; intros Hin; [by apply elem_of_nil in Hin|].
  simpl. destruct (String.eqb y x) eqn:E; [done|].
  apply String.eqb_neq in E. apply elem_of_cons in Hin as [->|Hin]; [done|].
  by rewrite IH.
Qed.

Lemma index_of_lt (x : string) (l : list string) :
  x ∈ l → index_of x l < length l.
Proof.
  induction l as [|y l IH]; intros Hin; [by apply elem_of_nil in Hin|].
  simpl. destruct (String.eqb y x) eqn:E; [lia|].
  apply String.eqb_neq in E. apply elem_of_cons in Hin as [->|Hin]; [done|].
  specialize (IH Hin). lia.
Qed.

Lemma index_of_fresh (x : string) (l : list string) :
  x ∉ l → index_of x (l ++ [x]) = length l.
Proof.
  induction l as [|y l IH]; intros Hnin; simpl.
  - by rewrite String.eqb_refl.
  - apply not_elem_of_cons in Hnin as [Hne Hnin].
    destruct (String.eqb y x) eqn:E.
    + apply String.eqb_eq in E. congruence.
    + by rewrite IH.
Qed.

Lemma dict_set_fresh (d : scores_dict) (k : string) (v : Z) :
  k ∉ d.*1 → dict_set d k v = d ++ [(k, v)].
Proof.
  induction d as [|[k' v'] d IH]; intros Hnin; [done|].
  simpl in *. apply not_elem_of_cons in Hnin as [Hne Hnin].
  destruct (String.eqb k' k) eqn:E.
  - apply String.eqb_eq in E. congruence.
  - by rewrite IH.
Qed.

Lemma dict_set_same (d : scores_dict) (k : string) (v : Z) :
  k ∈ d.*1 → (∀ v', (k, v') ∈ d → v' = v) → dict_set d k v = d.
Proof.
  induction d as [|[k' v'] d IH]; intros Hin Hval; [by apply elem_of_nil in Hin|].
  simpl in *. destruct (String.eqb k' k) eqn:E.
  - apply String.eqb_eq in E. subst k'.
    rewrite (Hval v'); [done|]. apply elem_of_cons; by left.
  - apply String.eqb_neq in E. apply elem_of_cons in Hin as [->|Hin]; [done|].
    rewrite IH; [done|done|]. intros v'' Hv''. apply Hval. apply elem_of_cons; by right.
Qed.

Lemma compute_scores_snoc (l : list string) (s : string) (cd : gmap string asset) :
  compute_scores (l ++ [s]) cd =
  match cd !! s with
  | None => compute_scores l cd
  | Some entry => dict_set (compute_scores l cd) s (score_asset entry)
  end.
Proof. unfold compute_scores. by rewrite fold_left_app. Qed.

(** What the first loop leaves in [scores]: the symbols that have data, each
    once, in the order of their first occurrence, with their scores. *)
Lemma compute_scores_inv (l : list string) (cd : gmap string asset) :
  let d := compute_scores l cd in
  (∀ k, k ∈ d.*1 ↔ k ∈ l ∧ is_Some (cd !! k)) ∧
  (∀ i j ki kj, i < j → d.*1 !! i = Some ki → d.*1 !! j = Some kj →
                index_of ki l < index_of kj l) ∧
  (∀ k v, (k, v) ∈ d → ∃ entry, cd !! k = Some entry ∧ v = score_asset entry).
Proof.
  induction l as [|s l IH] using rev_ind; cbv zeta.
  - unfold compute_scores. cbn. split_and!.
    + intros k. split; [intros H; by apply elem_of_nil in H|].
      intros [H _]. by apply elem_of_nil in H.
    + intros i j ki kj _ H. by rewrite lookup_nil in H.
    + intros k v H. by apply elem_of_nil in H.
  - cbv zeta in IH. destruct IH as (Hkeys & Hord & Hval).
    rewrite compute_scores_snoc.
    assert (Hkeep :
      (∀ k, k ∈ (compute_scores l cd).*1 ↔ k ∈ l ∧ is_Some (cd !! k)) →
      (s ∈ (compute_scores l cd).*1 ∨ cd !! s = None) →
      (∀ k, k ∈ (compute_scores l cd).*1 ↔ k ∈ l ++ [s] ∧ is_Some (cd !! k)) ∧
      (∀ i j ki kj, i < j → (compute_scores l cd).*1 !! i = Some ki →
                    (compute_scores l cd).*1 !! j = Some kj →
                    index_of ki (l ++ [s]) < index_of kj (l ++ [s]))).
    { intros _ Hs. split.
      - intros k. rewrite Hkeys, elem_of_app, list_elem_of_singleton.
        split; [intros [H1 H2]; split; [by left|done]|].
        intros [[H1| ->] H2]; [done|]. destruct Hs as [Hs|Hs].
        + by apply Hkeys in Hs.
        + rewrite Hs in H2. by destruct H2.
      - intros i j ki kj Hij Hi Hj.
        assert (ki ∈ l) by (apply (Hkeys ki), list_elem_of_lookup; eauto).
        assert (kj ∈ l) by (apply (Hkeys kj), list_elem_of_lookup; eauto).
        rewrite !index_of_app_in by done. eauto. }
    destruct (cd !! s) as [entry|] eqn:Hs.
    + destruct (decide (s ∈ (compute_scores l cd).*1)) as [Hin|Hnin].
      * rewrite dict_set_same; [|done|].
        -- destruct (Hkeep Hkeys (or_introl Hin)) as [H1 H2]. split_and!; [done|done|done].
        -- intros v' Hv'. apply Hval in Hv' as (e' & He' & ->). congruence.
      * rewrite dict_set_fresh by done.
        assert (Hsl : s ∉ l).
        { intros Hsl. apply Hnin, Hkeys. split; [done|]. rewrite Hs. eauto. }
        split_and!.
        -- intros k. rewrite fmap_app, !elem_of_app, Hkeys. cbn.
           rewrite !list_elem_of_singleton. split.
           ++ intros [[H1 H2]| ->]; [split; [by left|done]|].
              split; [by right|]. rewrite Hs. eauto.
           ++ intros [[H1| ->] H2]; [left; done|by right].
        -- intros i j ki kj Hij Hi Hj. rewrite fmap_app in Hi, Hj. cbn in Hi, Hj.
           assert (Hlen : length (compute_scores l cd).*1 = length (compute_scores l cd))
             by apply length_fmap.
           destruct (decide (j < length (compute_scores l cd))) as [Hjl|Hjl].
           ++ rewrite lookup_app_l in Hi by lia. rewrite lookup_app_l in Hj by lia.
              assert (ki ∈ l) by (apply (Hkeys ki), list_elem_of_lookup; eauto).
              assert (kj ∈ l) by (apply (Hkeys kj), list_elem_of_lookup; eauto).
              rewrite !index_of_app_in by done. eauto.
           ++ rewrite lookup_app_r in Hj by lia.
              apply list_lookup_singleton_Some in Hj as [Hj0 <-].
              rewrite lookup_app_l in Hi by lia.
              assert (ki ∈ l) by (apply (Hkeys ki), list_elem_of_lookup; eauto).
              rewrite index_of_app_in by done. rewrite index_of_fresh by done.
              by apply index_of_lt.
        -- intros k v Hkv. apply elem_of_app in Hkv as [Hkv|Hkv]; [by apply Hval|].
           apply list_elem_of_singleton in Hkv. simplify_eq. eauto.
    + destruct (Hkeep Hkeys (or_intror eq_refl)) as [H1 H2]. split_and!; [done|done|done].
Qed.

End ScoresDict.

(* ===================================================================== *)
(** ** The stable descending sort *)
(* ===================================================================== *)

Section StableSort.

Lemma insert_desc_perm (a : string * Z) (s : scores_dict) :
  insert_desc a s ≡ₚ a :: s.
Proof.
  induction s as [|b s IH]; [done|]. simpl.
  destruct (a.2 <? b.2)%Z; [|done].
  rewrite IH. apply Permutation_swap.
Qed.

Lemma sorted_desc_perm (l : scores_dict) : sorted_desc l ≡ₚ l.
Proof.
  induction l as [|a l IH]; [done|]. simpl.
  rewrite insert_desc_perm. by rewrite IH.
Qed.

Lemma insert_desc_descending (a : string * Z) (s : scores_dict) :
  descending s → descending (insert_desc a s).
Proof.
  unfold descending. induction s as [|b s IH]; intros Hs; simpl.
  - constructor; [constructor|constructor].
  - apply StronglySorted_inv in Hs as [Hs Hb].
    destruct (a.2 <? b.2)%Z eqn:E.
    + apply Z.ltb_lt in E. constructor; [by apply IH|].
      rewrite insert_desc_perm. constructor; [lia|done].
    + apply Z.ltb_ge in E. constructor; [by constructor|].
      constructor; [done|].
      eapply Forall_impl; [exact Hb|]. intros y Hy. cbn in *. lia.
Qed.

Lemma sorted_desc_descending (l : scores_dict) : descending (sorted_desc l).
Proof.
  induction l as [|a l IH]; simpl; [constructor|].
  by apply insert_desc_descending.
Qed.

Lemma precedes_cons_inv {A : Type} (a x y : A) (l : list A) :
  precedes (a :: l) x y → (x = a ∧ y ∈ l) ∨ precedes l x y.
Proof.
  intros (i & j & Hij & Hi & Hj). destruct j as [|j]; [lia|]. cbn in Hj.
  destruct i as [|i].
  - left. cbn in Hi. split; [congruence|]. apply list_elem_of_lookup. eauto.
  - right. exists i, j. split_and!; [lia|done|done].
Qed.



Lemma precedes_lookup {A : Type} (l : list A) (i j : nat) (x y : A) :
  i < j → l !! i = Some x → l !! j = Some y → precedes l x y.
Proof. intros. exists i, j. done. Qed.

Lemma descending_precedes (l : scores_dict) (x y : string * Z) :
  descending l → precedes l x y → (y.2 ≤ x.2)%Z.
Proof.
  unfold descending. induction l as [|a l IH]; intros Hl Hp.
  - destruct Hp as (i & j & _ & Hi & _). by rewrite lookup_nil in Hi.
  - apply StronglySorted_inv in Hl as [Hl Ha].
    apply precedes_cons_inv in Hp as [[-> Hy]|Hp]; [|by apply IH].
    rewrite Forall_forall in Ha. by apply Ha.
Qed.



End StableSort.

(* ===================================================================== *)
(** ** The paths of [_generate_fallback_comparison] *)
(* ===================================================================== *)

Section FallbackPaths.

Context (symbols : list string) (comparison_data : gmap string asset).

Lemma ranked_items_elem (k : string) (v : Z) :
  (k, v) ∈ ranked_items symbols comparison_data →
  k ∈ symbols ∧ ∃ entry, comparison_data !! k = Some entry ∧ v = score_asset entry.
Proof.
  unfold ranked_items. rewrite sorted_desc_perm. intros Hin.
  destruct (compute_scores_inv symbols comparison_data) as (Hkeys & _ & Hval).
  split; [|by apply Hval].
  apply (Hkeys k). apply list_elem_of_fmap. by exists (k, v).
Qed.

Lemma dict_get_ok (d : scores_dict) (k : string) :
  k ∈ d.*1 → ∃ v, dict_get d k = Ok v.
Proof.
  induction d as [|[k' v'] d IH]; intros Hin; [by apply elem_of_nil in Hin|].
  simpl in *. destruct (String.eqb k' k) eqn:E; [eauto|].
  apply String.eqb_neq in E. apply elem_of_cons in Hin as [->|Hin]; [done|]. eauto.
Qed.

Lemma build_rankings_ok (ranked : scores_dict) (i : nat) :
  (∀ k v, (k, v) ∈ ranked → is_Some (comparison_data !! k)) →
  ∃ rs, build_rankings comparison_data i ranked = Ok rs ∧
        length rs = length ranked ∧
        ∀ n k v, ranked !! n = Some (k, v) →
                 ∃ r, rs !! n = Some r ∧ symbol r = k ∧ score r = v ∧ rank r = i + n + 1.
Proof.
  revert i. induction ranked as [|[k0 v0] ranked IH]; intros i Hpres.
  - exists []. split_and!; [done|done|]. intros n k v H. by rewrite lookup_nil in H.
  - destruct (Hpres k0 v0) as [e He]; [apply elem_of_cons; by left|].
    destruct (IH (S i)) as (rs & Hrs & Hlen & Hent).
    { intros k v Hkv. apply (Hpres k v). apply elem_of_cons; by right. }
    cbn. unfold lookup_asset. rewrite He. cbn. rewrite Hrs. cbn.
    eexists. split_and!; [done|cbn; by rewrite Hlen|].
    intros [|n] k v Hn; cbn in Hn.
    + simplify_eq. eexists. split_and!; [done|done|done|cbn; lia].
    + destruct (Hent n k v Hn) as (r & Hr & ? & ? & ?).
      exists r. split_and!; [done|done|done|lia].
Qed.

Lemma fallback_nothing_scored :
  ranked_items symbols comparison_data = [] →
  _generate_fallback_comparison symbols comparison_data
  = Ok (_get_default_analysis symbols).
Proof.
  unfold _generate_fallback_comparison, ranked_items. cbv zeta. by intros ->.
Qed.

Lemma fallback_best_unusable (best : string) (sb : Z) (rest : scores_dict) :
  ranked_items symbols comparison_data = (best, sb) :: rest →
  asset_metrics comparison_data best = None →
  _generate_fallback_comparison symbols comparison_data
  = Ok (_get_default_analysis symbols).
Proof.
  intros Hr Hm. unfold _generate_fallback_comparison. cbv zeta.
  unfold ranked_items in Hr. rewrite Hr.
  destruct (build_rankings_ok ((best, sb) :: rest) 0) as (rs & Hrs & _).
  { intros k v Hkv. rewrite <- Hr in Hkv.
    apply ranked_items_elem in Hkv as (_ & e & -> & _). eauto. }
  rewrite Hrs. cbn. unfold lookup_asset, asset_metrics in *.
  destruct (comparison_data !! best) as [e|] eqn:He.
  - cbn. by rewrite Hm.
  - exfalso. assert (Hin : (best, sb) ∈ ranked_items symbols comparison_data).
    { unfold ranked_items. rewrite Hr. apply elem_of_cons; by left. }
    apply ranked_items_elem in Hin as (_ & e & He' & _). congruence.
Qed.

Lemma fallback_second_unusable (best second : string) (sb ss : Z)
    (rest : scores_dict) :
  ranked_items symbols comparison_data = (best, sb) :: (second, ss) :: rest →
  is_Some (asset_metrics comparison_data best) →
  asset_metrics comparison_data second = None →
  _generate_fallback_comparison symbols comparison_data = Raise TypeError.
Proof.
  intros Hr [m1 Hm1] Hm2. unfold _generate_fallback_comparison. cbv zeta.
  unfold ranked_items in Hr. rewrite Hr.
  assert (Hel : ∀ k v, (k, v) ∈ (best, sb) :: (second, ss) :: rest →
                       k ∈ symbols ∧ is_Some (comparison_data !! k)).
  { intros k v Hkv. rewrite <- Hr in Hkv.
    apply ranked_items_elem in Hkv as (? & e & -> & _). eauto. }
  destruct (build_rankings_ok ((best, sb) :: (second, ss) :: rest) 0) as (rs & Hrs & _).
  { intros k v Hkv. by apply (Hel k v). }
  rewrite Hrs. cbn. unfold lookup_asset, asset_metrics in *.
  destruct (comparison_data !! best) as [e1|] eqn:He1; [|done].
  destruct (Hel second ss) as [_ [e2 He2]]; [apply elem_of_cons; right; apply elem_of_cons; by left|].
  rewrite He2 in Hm2. cbn. rewrite Hm1.
  destruct (dict_get_ok (compute_scores symbols comparison_data) best) as [v Hv].
  { destruct (compute_scores_inv symbols comparison_data) as (Hkeys & _ & _).
    apply Hkeys. apply (Hel best sb). apply elem_of_cons; by left. }
  rewrite Hv. cbn. rewrite He2. cbn. rewrite Hm2.
  repeat case_match; simplify_eq; done.
Qed.

Lemma fallback_main_path (best : string) (sb : Z) (rest : scores_dict) (m1 : metrics) :
  ranked_items symbols comparison_data = (best, sb) :: rest →
  asset_metrics comparison_data best = Some m1 →
  second_usable comparison_data rest →
  ∃ res rs,
    _generate_fallback_comparison symbols comparison_data = Ok res ∧
    build_rankings comparison_data 0 ((best, sb) :: rest) = Ok rs ∧
    rankings res = rs ∧
    best_choice res = best ∧
    filter (λ r, comparative r = true) (best_choice_reasons res)
    = second_comparison comparison_data m1 rest.
Proof.
  intros Hr Hm1 Hsec. unfold _generate_fallback_comparison. cbv zeta.
  unfold ranked_items in Hr. rewrite Hr.
  assert (Hel : ∀ k v, (k, v) ∈ (best, sb) :: rest →
                       k ∈ symbols ∧ is_Some (comparison_data !! k)).
  { intros k v Hkv. rewrite <- Hr in Hkv.
    apply ranked_items_elem in Hkv as (? & e & -> & _). eauto. }
  destruct (build_rankings_ok ((best, sb) :: rest) 0) as (rs & Hrs & _).
  { intros k v Hkv. by apply (Hel k v). }
  rewrite Hrs. cbn. unfold lookup_asset, asset_metrics in Hm1 |- *.
  destruct (comparison_data !! best) as [e1|] eqn:He1; [|done].
  cbn. rewrite Hm1.
  destruct (dict_get_ok (compute_scores symbols comparison_data) best) as [v Hv].
  { destruct (compute_scores_inv symbols comparison_data) as (Hkeys & _ & _).
    apply Hkeys. apply (Hel best sb). apply elem_of_cons; by left. }
  rewrite Hv. cbn.
  destruct rest as [|[second ss] rest]; cbn.
  - eexists _, rs. split_and!; [done|done|done|done|].
    repeat case_match; done.
  - cbn in Hsec. destruct Hsec as [m2 Hm2]. unfold asset_metrics in *.
    destruct (comparison_data !! second) as [e2|] eqn:He2; [|done].
    cbn. rewrite Hm2. unfold comparative_reason.
    destruct (sharpe_ratio m1 >? Fin (1 # 2))%F, (total_return m1 >? of_Z 0)%F,
      (total_return m1 >? total_return m2)%F, (volatility m1 <? volatility m2)%F;
      cbn; (eexists _, rs; split_and!; [done|done|done|done|done]).
Qed.

Lemma build_rankings_spec (ranked : scores_dict) (i : nat) (rs : list ranking) :
  build_rankings comparison_data i ranked = Ok rs →
  length rs = length ranked ∧
  ∀ n r, rs !! n = Some r →
         ranked !! n = Some (symbol r, score r) ∧ rank r = i + n + 1.
Proof.
  revert i rs. induction ranked as [|[k0 v0] ranked IH]; intros i rs Hb.
  - cbn in Hb. injection Hb as <-. split; [done|].
    intros n r H. by rewrite lookup_nil in H.
  - cbn in Hb. unfold lookup_asset in Hb.
    destruct (comparison_data !! k0) as [e|]; [|done]. cbn in Hb.
    destruct (build_rankings comparison_data (S i) ranked) as [rs'|] eqn:Hrs'; [|done].
    cbn in Hb. injection Hb as <-.
    destruct (IH _ _ Hrs') as [Hlen Hent]. split; [cbn; by rewrite Hlen|].
    intros [|n] r Hn; cbn in Hn.
    + injection Hn as <-. cbn. split; [done|lia].
    + destruct (Hent n r Hn) as [? ?]. split; [done|lia].
Qed.

Lemma compute_scores_NoDup : NoDup (compute_scores symbols comparison_data).*1.
Proof.
  destruct (compute_scores_inv symbols comparison_data) as (_ & Hord & _).
  apply NoDup_alt. intros i j x Hi Hj.
  destruct (Nat.lt_trichotomy i j) as [Hlt|[Heq|Hgt]]; [|done|].
  - specialize (Hord i j x x Hlt Hi Hj). lia.
  - specialize (Hord j i x x Hgt Hj Hi). lia.
Qed.

(** One score per distinct requested symbol that has data. *)
Lemma compute_scores_length :
  length (compute_scores symbols comparison_data)
  = size (list_to_set symbols ∩ dom comparison_data : gset string).
Proof.
  destruct (compute_scores_inv symbols comparison_data) as (Hkeys & _ & _).
  rewrite <- (length_fmap fst).
  rewrite <- (size_list_to_set (C:=gset string)) by apply compute_scores_NoDup.
  f_equal. apply set_eq. intros k.
  rewrite elem_of_list_to_set, Hkeys, elem_of_intersection, elem_of_list_to_set,
    elem_of_dom. done.
Qed.

End FallbackPaths.

(* ===================================================================== *)
(** ** Properties of the fallback scorer and ranker *)
(* ===================================================================== *)


(** The adversarial metrics of the specification: the unclamped sum is 140,
    the score is 100. *)
Example extreme_metrics_score :
  score_of_metrics Examples.extreme_metrics Examples.bullish_summary 50 = 100%Z.
Proof. vm_compute. reflexivity. Qed.




(** C7, as stated, fails: of three requested assets two have usable metrics
    and the third, a single bar, has none; the rankings hold three entries,
    the third asset among them. *)
Lemma C7_rankings_length_counterexample :
  ∃ res,
    _generate_fallback_comparison ["AAA"; "BBB"; "CCC"] Examples.three_assets = Ok res ∧
    usable_symbols ["AAA"; "BBB"; "CCC"] Examples.three_assets = ["AAA"; "BBB"] ∧
    asset_metrics Examples.three_assets "CCC" = None ∧
    map symbol (rankings res) = ["AAA"; "BBB"; "CCC"] ∧
    length (rankings res)
    ≠ length (usable_symbols ["AAA"; "BBB"; "CCC"] Examples.three_assets).
Proof.
  eexists. split; [vm_compute; reflexivity|].
  split_and!; [by vm_compute|by vm_compute|by vm_compute|].
  vm_compute. lia.
Qed.

(** C7, amended.  Whenever the fallback ranker returns a result: if the
    asset ranked first has usable metrics, the rankings hold exactly one
    entry per distinct requested symbol that has an entry in the comparison
    data, whether or not its metrics could be computed; otherwise (nothing
    was scored, or the asset ranked first has no usable metrics) the result
    is the degraded one, which lists every requested symbol. *)
Theorem C7_rankings_length
    (symbols : list string) (comparison_data : gmap string asset) (res : analysis) :
  _generate_fallback_comparison symbols comparison_data = Ok res →
  if top_usable symbols comparison_data then
    length (rankings res)
    = size (list_to_set symbols ∩ dom comparison_data : gset string) ∧
    ∀ k, k ∈ symbols → is_Some (comparison_data !! k) →
         ∃ r, r ∈ rankings res ∧ symbol r = k
  else
    res = _get_default_analysis symbols ∧
    length (rankings res) = length symbols.
Proof.
  intros Hres. unfold top_usable.
  destruct (ranked_items symbols comparison_data) as [|[best sb] rest] eqn:Hr.
  - rewrite fallback_nothing_scored in Hres by done. injection Hres as <-.
    split; [done|]. cbn. by rewrite length_imap.
  - case_bool_decide as Hm.
    + destruct Hm as [m1 Hm1].
      assert (Hsec : second_usable comparison_data rest).
      { destruct rest as [|[second ss] rest]; [done|]. cbn.
        destruct (asset_metrics comparison_data second) eqn:Hm2; [eauto|].
        rewrite (fallback_second_unusable symbols comparison_data
                   best second sb ss rest) in Hres; [done|done|eauto|done]. }
      destruct (fallback_main_path symbols comparison_data best sb rest m1 Hr Hm1 Hsec)
        as (res' & rs & Hres' & Hrs & Hrank & _).
      rewrite Hres in Hres'. injection Hres' as <-.
      destruct (build_rankings_spec comparison_data _ _ _ Hrs) as [Hrl Hent].
      rewrite Hrank. split.
      * rewrite Hrl, <- Hr. unfold ranked_items. rewrite sorted_desc_perm.
        apply compute_scores_length.
      * intros k Hk Hpres.
        destruct (compute_scores_inv symbols comparison_data) as (Hkeys & _ & _).
        assert (Hin : k ∈ (ranked_items symbols comparison_data).*1).
        { unfold ranked_items. rewrite sorted_desc_perm. by apply Hkeys. }
        rewrite Hr in Hin. apply list_elem_of_fmap in Hin as ([k' v] & -> & Hin).
        destruct (build_rankings_ok comparison_data ((best, sb) :: rest) 0)
          as (rs' & Hrs' & _ & Hent').
        { intros k0 v0 Hkv. rewrite <- Hr in Hkv.
          apply ranked_items_elem in Hkv as (_ & e & -> & _). eauto. }
        rewrite Hrs in Hrs'. injection Hrs' as <-.
        apply list_elem_of_lookup in Hin as [n Hn].
        destruct (Hent' n k' v Hn) as (r & Hrn & Hsym & _).
        exists r. split; [|done]. apply list_elem_of_lookup. eauto.
    + assert (Hnone : asset_metrics comparison_data best = None).
      { destruct (asset_metrics comparison_data best) eqn:E; [|done].
        exfalso. apply Hm. eauto. }
      rewrite (fallback_best_unusable symbols comparison_data best sb rest Hr Hnone)
        in Hres.
      injection Hres as <-. split; [done|]. cbn. by rewrite length_imap.
Qed.

(** The request of the counterexample meets the hypothesis of the amended
    C7: three entries for three requested symbols with data. *)
Lemma C7_rankings_length_witness :
  ∃ res,
    _generate_fallback_comparison ["AAA"; "BBB"; "CCC"] Examples.three_assets = Ok res ∧
    if top_usable ["AAA"; "BBB"; "CCC"] Examples.three_assets then
      length (rankings res)
      = size (list_to_set ["AAA"; "BBB"; "CCC"] ∩ dom Examples.three_assets
              : gset string) ∧
      ∀ k, k ∈ ["AAA"; "BBB"; "CCC"] → is_Some (Examples.three_assets !! k) →
           ∃ r, r ∈ rankings res ∧ symbol r = k
    else
      res = _get_default_analysis ["AAA"; "BBB"; "CCC"] ∧
      length (rankings res) = length ["AAA"; "BBB"; "CCC"].
Proof.
  eexists. split; [vm_compute; reflexivity|].
  apply (C7_rankings_length ["AAA"; "BBB"; "CCC"] Examples.three_assets).
  vm_compute. reflexivity.
Defined.

(** C8, as stated, fails: two assets with the same price history both have
    usable metrics; the best one neither outperforms the second in total
    return nor has the lower volatility, and the reasons hold no comparative
    reason. *)
Lemma C8_comparative_reason_counterexample :
  ∃ res,
    _generate_fallback_comparison ["AAA"; "BBB"] Examples.twins = Ok res ∧
    usable_symbols ["AAA"; "BBB"] Examples.twins = ["AAA"; "BBB"] ∧
    length (best_choice_reasons res) = 3 ∧
    existsb comparative (best_choice_reasons res) = false.
Proof.
  eexists. split; [vm_compute; reflexivity|].
  split_and!; by vm_compute.
Qed.

(** C8, amended.  When the two assets ranked first both have usable
    metrics, the reasons hold a comparative reason against the rank-2 asset
    exactly when the best asset's total return is greater than the rank-2
    asset's or its volatility is lower: the margin in total return in the
    first case, the lower volatility otherwise; when neither holds there is
    no comparative reason. *)
Theorem C8_comparative_reason
    (symbols : list string) (comparison_data : gmap string asset)
    (best second : string) (sb ss : Z) (rest : scores_dict) (m1 m2 : metrics) :
  ranked_items symbols comparison_data = (best, sb) :: (second, ss) :: rest →
  asset_metrics comparison_data best = Some m1 →
  asset_metrics comparison_data second = Some m2 →
  ∃ res,
    _generate_fallback_comparison symbols comparison_data = Ok res ∧
    filter (λ r, comparative r = true) (best_choice_reasons res)
    = option_list (comparative_reason m1 second m2) ∧
    existsb comparative (best_choice_reasons res)
    = (total_return m1 >? total_return m2)%F
      || (volatility m1 <? volatility m2)%F.
Proof.
  intros Hr Hm1 Hm2.
  destruct (fallback_main_path symbols comparison_data best sb
              ((second, ss) :: rest) m1 Hr Hm1)
    as (res & rs & Hres & _ & _ & _ & Hcmp).
  { cbn. rewrite Hm2. eauto. }
  cbn in Hcmp. rewrite Hm2 in Hcmp.
  exists res. split_and!; [done|done|].
  assert (Hex : ∀ l : list reason,
            existsb comparative l
            = bool_decide (filter (λ r, comparative r = true) l ≠ [])).
  { induction l as [|r l IH]; [done|]. rewrite filter_cons. cbn [existsb].
    destruct (decide (comparative r = true)) as [E|E].
    - rewrite E. symmetry. by apply bool_decide_eq_true_2.
    - apply not_true_is_false in E. rewrite E. apply IH. }
  rewrite Hex, Hcmp. unfold comparative_reason.
  destruct (total_return m1 >? total_return m2)%F,
    (volatility m1 <? volatility m2)%F; done.
Qed.

(** Two assets that meet the hypotheses of the amended C8, the first ahead
    in total return. *)
Lemma C8_comparative_reason_witness :
  ∃ res,
    _generate_fallback_comparison ["AAA"; "BBB"] Examples.three_assets = Ok res ∧
    length (filter (λ r, comparative r = true) (best_choice_reasons res)) = 1 ∧
    existsb comparative (best_choice_reasons res) = true.
Proof.
  destruct (C8_comparative_reason ["AAA"; "BBB"] Examples.three_assets
              "AAA" "BBB" 90 78 []
              (default Examples.extreme_metrics
                 (asset_metrics Examples.three_assets "AAA"))
              (default Examples.extreme_metrics
                 (asset_metrics Examples.three_assets "BBB")))
    as (res & Hres & Hf & He).
  - vm_compute. reflexivity.
  - vm_compute. reflexivity.
  - vm_compute. reflexivity.
  - exists res. split; [exact Hres|]. split.
    + rewrite Hf. vm_compute. reflexivity.
    + rewrite He. vm_compute. reflexivity.
Defined.

(* ===================================================================== *)
(** ** Degenerate inputs: zero ranges and zero averages *)
(* ===================================================================== *)

Section FloatFacts.

Lemma Qltb_lt (p q : Q) : Qltb p q = true ↔ (p < q)%Q.
Proof.
  unfold Qltb. rewrite negb_true_iff. split.
  - intros H. apply Qnot_le_lt. intros Hle. apply Qle_bool_iff in Hle. congruence.
  - intros H. destruct (Qle_bool q p) eqn:E; [|done].
    apply Qle_bool_iff in E. exfalso. by apply (Qlt_not_le p q).
Qed.

Lemma feqb_sub_not_pos (a b : fval) :
  (a ==? b)%F = true → (a - b >? of_Z 0)%F = false.
Proof.
  destruct a as [| |p|], b as [| |q|]; try done.
  unfold feqb, fgt, flt, fsub, fadd, fneg, of_Z. intros H.
  apply Qeq_bool_iff in H. apply negb_false_iff, Qle_bool_iff.
  rewrite H. unfold inject_Z. ring_simplify (q + - q)%Q. apply Qle_refl.
Qed.

Lemma feqb_zero_not_pos (a : fval) :
  (a ==? of_Z 0)%F = true → (a >? of_Z 0)%F = false.
Proof.
  destruct a as [| |p|]; try done.
  unfold feqb, fgt, flt, of_Z. intros H.
  apply Qeq_bool_iff in H. apply negb_false_iff, Qle_bool_iff.
  rewrite H. apply Qle_refl.
Qed.

Lemma inf_signed_special (s : Z) : special (inf_signed s) = true.
Proof. by destruct s. Qed.

(** The difference of two equal values is NaN or a zero. *)
Lemma zero_range (a b : fval) :
  (a ==? b)%F = true →
  (a - b)%F = NaN ∨ ∃ z, (a - b)%F = Fin z ∧ Qeq_bool z 0 = true.
Proof.
  destruct a as [| |p|], b as [| |q|]; try done; try (by left).
  unfold feqb. intros H. right. eexists. split; [reflexivity|].
  apply Qeq_bool_iff in H. apply Qeq_bool_iff. rewrite H. ring.
Qed.

(** Dividing by such a difference never gives a finite value. *)
Lemma fdiv_zero_range (n d : fval) :
  (d = NaN ∨ ∃ z, d = Fin z ∧ Qeq_bool z 0 = true) →
  special (n / d)%F = true.
Proof.
  intros [->|(z & -> & Hz)]; [by destruct n|].
  destruct n as [| |p|]; unfold fdiv; rewrite ?Hz; try done.
  apply inf_signed_special.
Qed.

Lemma fmul_special (a x : fval) : special x = true → special (a * x)%F = true.
Proof.
  destruct x as [| |q|]; try done; destruct a as [| |p|]; try done;
    intros _; unfold fmul; apply inf_signed_special.
Qed.

(** Zero over zero. *)
Lemma fdiv_zero_zero (n d : fval) :
  (n = NaN ∨ ∃ z, n = Fin z ∧ Qeq_bool z 0 = true) →
  (d = NaN ∨ ∃ z, d = Fin z ∧ Qeq_bool z 0 = true) →
  (n / d)%F = NaN.
Proof.
  intros [->|(y & -> & Hy)] [->|(z & -> & Hz)]; try done.
  unfold fdiv. rewrite Hz. apply Qeq_bool_iff in Hy.
  unfold sgn. unfold Qeq in Hy. cbn in Hy.
  replace (Qnum y) with 0%Z by lia. done.
Qed.

Lemma feqb_trans_l (a b c : fval) :
  (a ==? b)%F = true → (c ==? b)%F = true → (a ==? c)%F = true.
Proof.
  destruct a as [| |p|], b as [| |q|], c as [| |r|]; try done.
  unfold feqb. rewrite !Qeq_bool_iff. intros -> ->. reflexivity.
Qed.

Lemma special_not_finite (x : fval) (z : Z) :
  special x = true → ¬ (x ≈ of_Z z)%F.
Proof. destruct x; try done; intros _ []. Qed.

End FloatFacts.

(** C5, as stated, fails: on a flat series the window has zero range and
    both oscillators are NaN at the first full window; no neutral value is
    substituted. *)
Lemma C5_zero_range_counterexample :
  rolling_max 14 IndicatorExamples.flat !! 13 = Some (of_Z 5) ∧
  rolling_min 14 IndicatorExamples.flat !! 13 = Some (of_Z 5) ∧
  (calculate_stochastic IndicatorExamples.flat IndicatorExamples.flat
     IndicatorExamples.flat 14 3).1 !! 13 = Some NaN ∧
  calculate_williams_r IndicatorExamples.flat IndicatorExamples.flat
    IndicatorExamples.flat 14 !! 13 = Some NaN ∧
  ¬ (NaN ≈ of_Z 50)%F ∧ ¬ (NaN ≈ of_Z (-50))%F.
Proof. split_and!; [by vm_compute..|intros []|intros []]. Qed.

(** C5, amended.  At a position whose trailing window has zero range
    (highest high equal to lowest low), the division by zero propagates:
    Stochastic %K and Williams %R are NaN or an infinity, never a neutral
    50 or -50, and they are NaN when the close lies on that level, as it
    does for a bar whose close is between its low and its high; nothing is
    raised. *)
Theorem C5_zero_range_propagates
    (high low close : series) (window d_window i : nat) (hh ll c : fval) :
  rolling_max window high !! i = Some hh →
  rolling_min window low !! i = Some ll →
  close !! i = Some c →
  (hh ==? ll)%F = true →
  ∃ k r,
    (calculate_stochastic high low close window d_window).1 !! i = Some k ∧
    calculate_williams_r high low close window !! i = Some r ∧
    special k = true ∧ special r = true ∧
    ¬ (k ≈ of_Z 50)%F ∧ ¬ (r ≈ of_Z (-50))%F ∧
    ((c ==? ll)%F = true → k = NaN ∧ r = NaN).
Proof.
  intros Hhh Hll Hc Heq.
  exists (stochastic_k ll hh c), (williams hh ll c).
  assert (Hk : special (stochastic_k ll hh c) = true).
  { unfold stochastic_k. by apply fmul_special, fdiv_zero_range, zero_range. }
  assert (Hr : special (williams hh ll c) = true).
  { unfold williams. by apply fmul_special, fdiv_zero_range, zero_range. }
  split_and!.
  - unfold calculate_stochastic. cbn [fst].
    apply lookup_zip_with_Some. exists c, (ll, hh).
    split_and!; [done|done|]. by apply lookup_zip_Some.
  - unfold calculate_williams_r.
    apply lookup_zip_with_Some. exists c, (hh, ll).
    split_and!; [done|done|]. by apply lookup_zip_Some.
  - done.
  - done.
  - by apply special_not_finite.
  - by apply special_not_finite.
  - intros Hcl. split.
    + unfold stochastic_k.
      rewrite (fdiv_zero_zero (c - ll) (hh - ll)); [done| |]; by apply zero_range.
    + unfold williams.
      rewrite (fdiv_zero_zero (hh - c) (hh - ll)); [done| |]; apply zero_range;
        [|done]. by apply (feqb_trans_l hh ll c).
Qed.

(** The flat series meets the hypotheses of the amended C5. *)
Lemma C5_zero_range_propagates_witness :
  ∃ k r,
    (calculate_stochastic IndicatorExamples.flat IndicatorExamples.flat
       IndicatorExamples.flat 14 3).1 !! 13 = Some k ∧
    calculate_williams_r IndicatorExamples.flat IndicatorExamples.flat
      IndicatorExamples.flat 14 !! 13 = Some r ∧
    special k = true ∧ special r = true ∧
    ¬ (k ≈ of_Z 50)%F ∧ ¬ (r ≈ of_Z (-50))%F ∧
    ((of_Z 5 ==? of_Z 5)%F = true → k = NaN ∧ r = NaN).
Proof.
  apply (C5_zero_range_propagates IndicatorExamples.flat IndicatorExamples.flat
           IndicatorExamples.flat 14 3 13 (of_Z 5) (of_Z 5) (of_Z 5)).
  - vm_compute. reflexivity.
  - vm_compute. reflexivity.
  - vm_compute. reflexivity.
  - vm_compute. reflexivity.
Defined.

(** C6, as stated, fails: on a flat series the averages of gains and of
    losses are both 0 and the RSI is NaN, not 100. *)
Lemma C6_rsi_zero_loss_counterexample :
  rsi_loss IndicatorExamples.flat 14 !! 14 = Some (Fin (0 # 14)) ∧
  rsi_gain IndicatorExamples.flat 14 !! 14 = Some (Fin (0 # 14)) ∧
  calculate_rsi IndicatorExamples.flat 14 !! 14 = Some NaN ∧
  ¬ (NaN ≈ of_Z 100)%F.
Proof. split_and!; [by vm_compute..|intros []]. Qed.

(** C6, amended.  At a position where the trailing average of losses is 0,
    the RSI is 100 when the trailing average of gains is positive; when
    the average of gains is 0 as well, the quotient is zero over zero and
    the RSI is NaN. *)
Theorem C6_rsi_zero_loss
    (data : series) (window i : nat) (g l : fval) :
  rsi_gain data window !! i = Some g →
  rsi_loss data window !! i = Some l →
  (l ==? of_Z 0)%F = true →
  ∃ r,
    calculate_rsi data window !! i = Some r ∧
    ((g >? of_Z 0)%F = true → (r ≈ of_Z 100)%F) ∧
    ((g ==? of_Z 0)%F = true → r = NaN).
Proof.
  intros Hg Hl Hz. exists (rsi_of_rs (g / l)%F). split_and!.
  - unfold calculate_rsi. cbv zeta.
    rewrite list_lookup_fmap.
    assert (Hq : zip_with fdiv (rsi_gain data window) (rsi_loss data window) !! i
                 = Some (g / l)%F).
    { apply lookup_zip_with_Some. exists g, l. done. }
    by rewrite Hq.
  - intros Hpos. destruct l as [| |z|]; try done.
    unfold feqb, of_Z in Hz. change (inject_Z 0) with 0%Q in Hz.
    assert (Hinf : (g / Fin z)%F = PInf).
    { destruct g as [| |p|]; try done.
      - unfold fdiv. rewrite Hz. unfold sgn.
        unfold fgt, flt, of_Z in Hpos. apply Qltb_lt in Hpos.
        unfold Qlt in Hpos. cbn in Hpos.
        destruct (Qnum p); try lia. done.
      - unfold fdiv. by rewrite Hz. }
    rewrite Hinf. by vm_compute.
  - intros Hg0. unfold rsi_of_rs.
    rewrite (fdiv_zero_zero g l); [done| |].
    + destruct g as [| |p|]; try done. right. eauto.
    + destruct l as [| |z|]; try done. right. eauto.
Qed.

(** A rising series meets the hypotheses of the amended C6: no loss in the
    window, a positive average gain, RSI 100. *)
Lemma C6_rsi_zero_loss_witness :
  ∃ r,
    calculate_rsi (map of_Z [5; 6; 7; 8]%Z) 3 !! 3 = Some r ∧
    ((Fin (3 # 3) >? of_Z 0)%F = true → (r ≈ of_Z 100)%F) ∧
    ((Fin (3 # 3) ==? of_Z 0)%F = true → r = NaN).
Proof.
  apply (C6_rsi_zero_loss (map of_Z [5; 6; 7; 8]%Z) 3 3 (Fin (3 # 3)) (Fin (0 # 3))).
  - vm_compute. reflexivity.
  - vm_compute. reflexivity.
  - vm_compute. reflexivity.
Defined.

(** C10.  For a price history of at least two bars with its four columns,
    [calculate_metrics] returns metrics; when the highest high equals the
    lowest low the price position is 50, and when the average volume is 0
    the volume ratio is 1. *)
Theorem C10_metrics_neutral_fallbacks
    (stock_data : frame) (close high low volume : series) :
  2 ≤ nrows stock_data →
  columns stock_data !! "close" = Some close →
  columns stock_data !! "high" = Some high →
  columns stock_data !! "low" = Some low →
  columns stock_data !! "volume" = Some volume →
  ∃ m,
    calculate_metrics stock_data = Some m ∧
    ((series_max high ==? series_min low)%F = true → price_position m = of_Z 50) ∧
    ((series_mean volume ==? of_Z 0)%F = true → volume_ratio m = of_Z 1).
Proof.
  intros Hn Hclose Hhigh Hlow Hvolume.
  unfold calculate_metrics, calculate_metrics_body.
  assert (Hempty : empty stock_data = false).
  { unfold empty. apply orb_false_iff. split.
    - apply Nat.eqb_neq. lia.
    - apply bool_decide_eq_false. intros Heq. rewrite Heq in Hclose.
      by rewrite lookup_empty in Hclose. }
  rewrite Hempty. cbn [orb].
  destruct (nrows stock_data <? 2)%nat eqn:E; [apply Nat.ltb_lt in E; lia|].
  unfold getitem. rewrite Hclose, Hhigh, Hlow, Hvolume.
  cbn [mbind except_bind mret except_ret].
  destruct (length (dropna (pct_change close)) <? 2)%nat;
    (eexists; split; [reflexivity|]; cbn [price_position volume_ratio];
     split; intros H).
  - by rewrite feqb_sub_not_pos.
  - by rewrite feqb_zero_not_pos.
  - by rewrite feqb_sub_not_pos.
  - by rewrite feqb_zero_not_pos.
Qed.

(** Two flat bars without volume meet the hypotheses of C10. *)
Lemma C10_metrics_neutral_fallbacks_witness :
  ∃ m,
    calculate_metrics IndicatorExamples.flat_bars = Some m ∧
    ((series_max (map of_Z [7; 7]%Z) ==? series_min (map of_Z [7; 7]%Z))%F = true →
     price_position m = of_Z 50) ∧
    ((series_mean (map of_Z [0; 0]%Z) ==? of_Z 0)%F = true →
     volume_ratio m = of_Z 1).
Proof.
  apply (C10_metrics_neutral_fallbacks IndicatorExamples.flat_bars
           (map of_Z [7; 7]%Z) (map of_Z [7; 7]%Z) (map of_Z [7; 7]%Z)
           (map of_Z [0; 0]%Z)).
  - vm_compute. lia.
  - vm_compute. reflexivity.
  - vm_compute. reflexivity.
  - vm_compute. reflexivity.
  - vm_compute. reflexivity.
Defined.

(* ===================================================================== *)
(** ** The exponential moving average *)
(* ===================================================================== *)

Section Ema.

Import EmaSpec.

Lemma fdiv_fin (p q : Q) : ¬ (q == 0)%Q → (Fin p / Fin q)%F = Fin (p / q).
Proof.
  intros Hq. unfold fdiv. destruct (Qeq_bool q 0) eqn:E; [|done].
  apply Qeq_bool_iff in E. done.
Qed.

Lemma ewm_from_cons_fin (alpha n d : Q) (seen : bool) (x : Q) (s : series) :
  ewm_from alpha (Fin n) d seen (Fin x :: s)
  = (Fin ((1 - alpha) * n + x) / Fin ((1 - alpha) * d + 1))%F
    :: ewm_from alpha (Fin ((1 - alpha) * n + x)) ((1 - alpha) * d + 1) true s.
Proof. reflexivity. Qed.

Lemma span_alpha_le_1 (w : nat) : 1 ≤ w → (0 <= 1 - span_alpha w)%Q.
Proof.
  intros Hw. unfold span_alpha, Qle, Qminus, Qplus, Qopp. cbn.
  assert (H : (2 ≤ Z.pos (Pos.of_nat (w + 1)))%Z).
  { replace (w + 1) with (S w) by lia.
    rewrite <- Pos.of_nat_succ, Zpos_P_of_succ_nat. lia. }
  lia.
Qed.

Lemma weights_from_succ (b d : Q) (i : nat) :
  (weights_from b d (S i) == b * weights_from b d i + 1)%Q.
Proof.
  revert d. induction i as [|i IH]; intros d; [reflexivity|].
  change (weights_from b d (S (S i))) with (weights_from b (b * d + 1) (S i)).
  rewrite IH. reflexivity.
Qed.

Lemma geometric_sum_succ (b : Q) (i : nat) :
  (geometric_sum b (S i) == b * geometric_sum b i + 1)%Q.
Proof.
  induction i as [|i IH]; [cbn; ring|].
  change (geometric_sum b (S (S i)))
    with (geometric_sum b (S i) + b * Qpow b (S i))%Q.
  rewrite IH at 1.
  change (geometric_sum b (S i)) with (geometric_sum b i + Qpow b (S i))%Q.
  ring.
Qed.

(** From the start of the series the sum of weights is the geometric sum. *)
Lemma weights_from_geometric (b : Q) (i : nat) :
  (weights_from b 0 i == geometric_sum b i)%Q.
Proof.
  induction i as [|i IH]; [cbn; ring|].
  rewrite weights_from_succ, geometric_sum_succ, IH. reflexivity.
Qed.

Lemma weights_from_pos (b d : Q) (i : nat) :
  (0 <= b)%Q → (0 <= d)%Q → (0 < weights_from b d i)%Q.
Proof.
  intros Hb. revert d. induction i as [|i IH]; intros d Hd; cbn.
  - apply Qlt_le_trans with (y := 1%Q); [done|].
    rewrite <- (Qplus_0_l 1) at 1. apply Qplus_le_compat; [|apply Qle_refl].
    by apply Qmult_le_0_compat.
  - apply IH. apply Qle_trans with (y := 1%Q); [done|].
    rewrite <- (Qplus_0_l 1) at 1. apply Qplus_le_compat; [|apply Qle_refl].
    by apply Qmult_le_0_compat.
Qed.

(** One step of the weighted mean: the weight of the new sample is the
    inverse of the sum of weights. *)
Lemma ewm_from_step (alpha : Q) (xs : list Q) :
  (0 <= 1 - alpha)%Q →
  ∀ (n d : Q) (seen : bool) (i : nat) (x e_prev : Q),
    (0 <= d)%Q →
    ewm_from alpha (Fin n) d seen (map Fin xs) !! i = Some (Fin e_prev) →
    xs !! S i = Some x →
    ∃ e, ewm_from alpha (Fin n) d seen (map Fin xs) !! S i = Some (Fin e) ∧
         (e == / weights_from (1 - alpha) d (S i) * x
               + (1 - / weights_from (1 - alpha) d (S i)) * e_prev)%Q.
Proof.
  intros Hb. induction xs as [|x0 xs IH]; intros n d seen i x e_prev Hd Hi Hx;
    [done|].
  cbn [map] in *. rewrite ewm_from_cons_fin in *.
  pose proof (weights_from_pos (1 - alpha) d 0 Hb Hd) as Hq. cbn in Hq.
  assert (Hq0 : ¬ ((1 - alpha) * d + 1 == 0)%Q).
  { intros E. rewrite E in Hq. by apply Qlt_irrefl in Hq. }
  destruct i as [|i].
  - cbn in Hi. rewrite fdiv_fin in Hi by done. injection Hi as <-.
    destruct xs as [|x1 xs]; [done|]. cbn in Hx. injection Hx as ->.
    cbn [map]. rewrite ewm_from_cons_fin. cbn [lookup list_lookup].
    pose proof (weights_from_pos (1 - alpha) ((1 - alpha) * d + 1) 0 Hb
                  (Qlt_le_weak _ _ Hq)) as Hq'. cbn in Hq'.
    assert (Hq0' : ¬ ((1 - alpha) * ((1 - alpha) * d + 1) + 1 == 0)%Q).
    { intros E. rewrite E in Hq'. by apply Qlt_irrefl in Hq'. }
    rewrite fdiv_fin by done. eexists. split; [done|].
    cbn [weights_from]. field. split; done.
  - cbn [lookup list_lookup] in Hi |- *. cbn in Hx.
    apply (IH _ _ true i x e_prev); [by apply Qlt_le_weak|done|done].
Qed.

(** C9, as stated, fails: for the series 1, 2 and window 3 the recursion
    of the claim gives 3/2 at the second position, the code gives 5/3. *)
Lemma C9_ema_recursion_counterexample :
  ∃ e r,
    calculate_ema (map Fin [1; 2]%Q) 3 !! 1 = Some (Fin e) ∧
    ema_recursive [1; 2]%Q 3 !! 1 = Some r ∧
    (e == 5 # 3)%Q ∧ (r == 3 # 2)%Q ∧ ¬ (e == r)%Q.
Proof.
  eexists _, _. split_and!; [vm_compute; reflexivity|vm_compute; reflexivity|..];
    by vm_compute.
Qed.

(** C9, amended.  For a series of finite values and a window of at least
    1, the EMA is the weighted mean of all samples so far with weights
    [(1 - alpha)^k], [alpha = 2 / (w + 1)]: its first value is the first
    sample, and each later value is [a * x + (1 - a) * previous] where the
    weight [a] of the new sample is not [alpha] but the inverse of the sum
    of weights [1 + (1 - alpha) + ... + (1 - alpha)^i]. *)
Theorem C9_ema_weighted_mean (xs : list Q) (w : nat) :
  1 ≤ w →
  (∀ x0, xs !! 0 = Some x0 →
     ∃ e0, calculate_ema (map Fin xs) w !! 0 = Some (Fin e0) ∧ (e0 == x0)%Q) ∧
  (∀ i x e_prev,
     calculate_ema (map Fin xs) w !! i = Some (Fin e_prev) →
     xs !! S i = Some x →
     ∃ e, calculate_ema (map Fin xs) w !! S i = Some (Fin e) ∧
          (e == / geometric_sum (1 - span_alpha w) (S i) * x
                + (1 - / geometric_sum (1 - span_alpha w) (S i)) * e_prev)%Q).
Proof.
  intros Hw. pose proof (span_alpha_le_1 w Hw) as Hb. split.
  - intros x0 Hx0. destruct xs as [|x xs]; [done|]. cbn in Hx0. injection Hx0 as ->.
    unfold calculate_ema, ewm_mean. cbn [map]. rewrite ewm_from_cons_fin.
    cbn [lookup list_lookup].
    assert (Hq0 : ¬ ((1 - span_alpha w) * 0 + 1 == 0)%Q).
    { intros E. ring_simplify in E. done. }
    rewrite fdiv_fin by done. eexists. split; [done|]. field.
  - intros i x e_prev Hi Hx. unfold calculate_ema, ewm_mean in *.
    destruct (ewm_from_step (span_alpha w) xs Hb 0 0 false i x e_prev)
      as (e & He & Heq); [done|done|done|].
    exists e. split; [done|].
    rewrite Heq, weights_from_geometric. reflexivity.
Qed.

(** The series of the counterexample meets the hypothesis of the amended
    C9. *)
Lemma C9_ema_weighted_mean_witness :
  (∀ x0, [1; 2]%Q !! 0 = Some x0 →
     ∃ e0, calculate_ema (map Fin [1; 2]%Q) 3 !! 0 = Some (Fin e0) ∧ (e0 == x0)%Q) ∧
  (∀ i x e_prev,
     calculate_ema (map Fin [1; 2]%Q) 3 !! i = Some (Fin e_prev) →
     [1; 2]%Q !! S i = Some x →
     ∃ e, calculate_ema (map Fin [1; 2]%Q) 3 !! S i = Some (Fin e) ∧
          (e == / geometric_sum (1 - span_alpha 3) (S i) * x
                + (1 - / geometric_sum (1 - span_alpha 3) (S i)) * e_prev)%Q).
Proof.
  apply (C9_ema_weighted_mean [1; 2]%Q 3). lia.
Defined.

End Ema.

(* ===================================================================== *)
(** ** The indicator panel and its summary *)
(* ===================================================================== *)

Section Panel.

(** C3, as stated, fails: on a frame without [high] and [low] columns the
    stochastic oscillator cannot be computed while the moving average can;
    the returned panel is the input frame and has no [sma_20] column. *)
Lemma C3_failure_isolation_counterexample :
  raises (stochastic_of IndicatorExamples.close_only) ∧
  returns (sma_of IndicatorExamples.close_only 20) ∧
  calculate_all_indicators IndicatorExamples.close_only = IndicatorExamples.close_only ∧
  columns (calculate_all_indicators IndicatorExamples.close_only) !! "sma_20" = None.
Proof. split_and!; by vm_compute. Qed.

Lemma all_indicators_body_ok (data : frame) (close high low : series) :
  columns data !! "close" = Some close →
  columns data !! "high" = Some high →
  columns data !! "low" = Some low →
  ∃ result,
    all_indicators_body data = Ok result ∧
    nrows result = nrows data ∧
    (∀ k, k ∈ indicator_columns → is_Some (columns result !! k)) ∧
    (∀ k, k ∉ indicator_columns → columns result !! k = columns data !! k).
Proof.
  intros Hc Hh Hl.
  unfold all_indicators_body, sma_of, ema_of, rsi_of, macd_of, bollinger_of,
    stochastic_of, williams_of, adx_of, calculate_support_resistance, getitem.
  rewrite Hc, Hh, Hl.
  unfold calculate_macd, calculate_bollinger_bands, calculate_stochastic.
  cbn [mbind except_bind mret except_ret].
  eexists. split; [reflexivity|]. split; [reflexivity|]. split.
  - intros k Hk. unfold indicator_columns in Hk. unfold setitem. cbn [columns].
    repeat (apply elem_of_cons in Hk as [->|Hk];
            [repeat (rewrite lookup_insert_ne by done);
             rewrite lookup_insert_eq; eauto|]).
    by apply elem_of_nil in Hk.
  - intros k Hk. unfold indicator_columns in Hk. unfold setitem. cbn [columns].
    repeat (apply not_elem_of_cons in Hk as [? Hk]).
    repeat (rewrite lookup_insert_ne by congruence). done.
Qed.

(** C3, amended.  [calculate_all_indicators] never raises and guards the
    whole panel with one handler: when the computation of any indicator
    fails, the input frame is returned unchanged, without any indicator
    column; the seventeen indicator columns are added, the other columns
    kept, only when every indicator can be computed. *)
Theorem C3_all_or_nothing (data : frame) :
  (some_indicator_fails data → calculate_all_indicators data = data) ∧
  (¬ some_indicator_fails data →
   nrows (calculate_all_indicators data) = nrows data ∧
   (∀ k, k ∈ indicator_columns →
         is_Some (columns (calculate_all_indicators data) !! k)) ∧
   (∀ k, k ∉ indicator_columns →
         columns (calculate_all_indicators data) !! k = columns data !! k)).
Proof.
  unfold calculate_all_indicators.
  destruct (columns data !! "close") as [close|] eqn:Hc;
    [destruct (columns data !! "high") as [high|] eqn:Hh;
       [destruct (columns data !! "low") as [low|] eqn:Hl|]|].
  - destruct (all_indicators_body_ok data close high low Hc Hh Hl)
      as (result & Hres & Hn & Hin & Hout).
    rewrite Hres. cbn [try_except]. split; [|done].
    intros Hfail. exfalso. revert Hfail.
    unfold some_indicator_fails, sma_of, ema_of, rsi_of, macd_of, bollinger_of,
      stochastic_of, williams_of, adx_of, calculate_support_resistance, getitem.
    rewrite Hc, Hh, Hl. cbn. tauto.
  - assert (Hbody : all_indicators_body data = Raise (KeyError "low")).
    { unfold all_indicators_body, sma_of, ema_of, rsi_of, macd_of, bollinger_of,
        stochastic_of, getitem.
      rewrite Hc, Hh, Hl.
      unfold calculate_macd, calculate_bollinger_bands. reflexivity. }
    rewrite Hbody. cbn [try_except]. split; [done|].
    intros Hnf. exfalso. apply Hnf.
    unfold some_indicator_fails, stochastic_of, getitem. rewrite Hh, Hl.
    do 7 right. left. exact I.
  - assert (Hbody : all_indicators_body data = Raise (KeyError "high")).
    { unfold all_indicators_body, sma_of, ema_of, rsi_of, macd_of, bollinger_of,
        stochastic_of, getitem.
      rewrite Hc, Hh.
      unfold calculate_macd, calculate_bollinger_bands. reflexivity. }
    rewrite Hbody. cbn [try_except]. split; [done|].
    intros Hnf. exfalso. apply Hnf.
    unfold some_indicator_fails, stochastic_of, getitem. rewrite Hh.
    do 7 right. left. exact I.
  - assert (Hbody : all_indicators_body data = Raise (KeyError "close")).
    { unfold all_indicators_body, sma_of, getitem. rewrite Hc. reflexivity. }
    rewrite Hbody. cbn [try_except]. split; [done|].
    intros Hnf. exfalso. apply Hnf.
    unfold some_indicator_fails, sma_of, getitem. rewrite Hc. left. exact I.
Qed.

(** C4, as stated, fails: for the empty panel the summary is the empty
    dictionary; it has no [rsi_current] and no [overall_signal]. *)
Lemma C4_empty_panel_counterexample :
  empty IndicatorExamples.no_data = true ∧
  get_technical_summary IndicatorExamples.no_data = empty_summary ∧
  rsi_current (get_technical_summary IndicatorExamples.no_data) ≠ Some (of_Z 50) ∧
  overall_signal (get_technical_summary IndicatorExamples.no_data)
  ≠ Some "Neutral - Wait for clearer signals".
Proof. split_and!; by vm_compute. Qed.

(** C4, amended.  For an empty panel [get_technical_summary] returns the
    empty dictionary, without raising.  For a non-empty panel with a
    [volume] column (or with a single row) it returns all eight entries:
    with the [rsi] column absent, [rsi_current] is 50 and [rsi_signal] is
    Neutral; with the [macd] and [macd_signal] columns absent,
    [macd_signal] is Neutral; [trend_signal] is one of the five trend
    labels, never Neutral, and is Sideways when the moving averages are
    absent and the close is 0 or absent.  A panel of several rows without a
    [volume] column also yields the empty dictionary. *)
Theorem C4_summary_defaults (technical_data : frame) :
  (empty technical_data = true →
   get_technical_summary technical_data = empty_summary) ∧
  (empty technical_data = false →
   nrows technical_data ≤ 1 ∨ is_Some (columns technical_data !! "volume") →
   ∃ rsi rs ms ts vs bp os,
     get_technical_summary technical_data
     = mkSummary (Some rsi) (Some rs) (Some ms) (Some ts) (Some vs) (Some bp)
         (Some rs) (Some os) ∧
     (columns technical_data !! "rsi" = None → rsi = of_Z 50 ∧ rs = "Neutral") ∧
     (columns technical_data !! "macd" = None →
      columns technical_data !! "macd_signal" = None → ms = "Neutral") ∧
     ts ∈ trend_labels ∧
     (columns technical_data !! "close" = None →
      columns technical_data !! "sma_20" = None → ts = "Sideways")) ∧
  (empty technical_data = false →
   1 < nrows technical_data → columns technical_data !! "volume" = None →
   get_technical_summary technical_data = empty_summary).
Proof.
  unfold get_technical_summary, technical_summary_body. split_and!.
  - intros ->. reflexivity.
  - intros -> Hvol.
    assert (Hv : ∃ vs,
      (if (1 <? nrows technical_data)%nat
       then volume ← getitem technical_data "volume";
            mret (if (latest_get technical_data "volume" (of_Z 0)
                      >? iloc_last (rolling_mean 20 volume) * Fin (3 # 2))%F
                  then "High Volume"
                  else if (latest_get technical_data "volume" (of_Z 0)
                           <? iloc_last (rolling_mean 20 volume) * Fin (1 # 2))%F
                       then "Low Volume" else "Normal Volume")
       else mret "Normal Volume") = Ok vs).
    { destruct (1 <? nrows technical_data)%nat eqn:E; [|eauto].
      destruct Hvol as [Hn|[v Hv]]; [apply Nat.ltb_lt in E; lia|].
      unfold getitem. rewrite Hv. eauto. }
    destruct Hv as [vs Hv]. cbv zeta. rewrite Hv.
    cbn [mbind except_bind mret except_ret try_except].
    eexists _, _, _, _, _, _, _. split; [reflexivity|]. split_and!.
    + intros Hrsi. unfold latest_get. rewrite Hrsi. split; [done|by vm_compute].
    + intros Hm Hs. unfold latest_get. rewrite Hm, Hs. by vm_compute.
    + unfold trend_labels. repeat case_match; rewrite !elem_of_cons; eauto 10.
    + intros Hc Hs. unfold latest_get. rewrite Hc, Hs. by vm_compute.
  - intros -> Hn Hvol. apply Nat.ltb_lt in Hn. rewrite Hn.
    unfold getitem. rewrite Hvol. reflexivity.
Qed.

(** A single bar without indicator columns meets the hypotheses of the
    second part of the amended C4. *)
Lemma C4_summary_defaults_witness :
  ∃ rsi rs ms ts vs bp os,
    get_technical_summary Examples.single
    = mkSummary (Some rsi) (Some rs) (Some ms) (Some ts) (Some vs) (Some bp)
        (Some rs) (Some os) ∧
    (columns Examples.single !! "rsi" = None → rsi = of_Z 50 ∧ rs = "Neutral") ∧
    (columns Examples.single !! "macd" = None →
     columns Examples.single !! "macd_signal" = None → ms = "Neutral") ∧
    ts ∈ trend_labels ∧
    (columns Examples.single !! "close" = None →
     columns Examples.single !! "sma_20" = None → ts = "Sideways").
Proof.
  destruct (C4_summary_defaults Examples.single) as (_ & H & _).
  apply H.
  - vm_compute. reflexivity.
  - left. vm_compute. lia.
Defined.

End Panel.

(* ===================================================================== *)
(** ** Shape of the series operations *)
(* ===================================================================== *)

Section SeriesShape.

Lemma length_rolling (w : nat) (agg : list fval → fval) (s : series) :
  length (rolling w agg s) = length s.
Proof. unfold rolling. by rewrite length_map, length_seq. Qed.

Lemma rolling_lookup (w : nat) (agg : list fval → fval) (s : series) (i : nat) :
  i < length s →
  rolling w agg s !! i
  = Some (if (w <=? S i)%nat && forallb is_finite (window_at w i s)
          then agg (window_at w i s) else NaN).
Proof.
  intros Hi. unfold rolling. rewrite list_lookup_fmap.
  rewrite lookup_seq_lt by done. reflexivity.
Qed.

Lemma forallb_finite_obs (l : list fval) :
  forallb is_finite l = true → forallb is_obs l = true.
Proof.
  induction l as [|x l IH]; cbn; [done|]. intros H.
  apply andb_prop in H as [Hx Hl]. rewrite IH by done. by destruct x.
Qed.

Lemma rolling_warm_up (w : nat) (agg : list fval → fval) (s : series) (i : nat) :
  i < length s → S i < w → rolling w agg s !! i = Some NaN.
Proof.
  intros Hi Hw. rewrite rolling_lookup by done.
  destruct (w <=? S i)%nat eqn:E; [apply Nat.leb_le in E; lia|done].
Qed.

Lemma length_shift (s : series) : length (shift s) = length s.
Proof.
  destruct s as [|x s]; [done|]. unfold shift.
  cbn [length]. rewrite removelast_firstn_len, length_take. cbn [length]. lia.
Qed.

Lemma length_diff (s : series) : length (diff s) = length s.
Proof. unfold diff. rewrite length_zip_with, length_shift. lia. Qed.

Lemma length_ewm_from (alpha : Q) (num : fval) (den : Q) (seen : bool) (s : series) :
  length (ewm_from alpha num den seen s) = length s.
Proof.
  revert num den seen. induction s as [|x s IH]; intros num den seen; [done|].
  cbn [ewm_from]. destruct (is_nan x); cbn [length]; by rewrite IH.
Qed.

Ltac series_length :=
  repeat first
    [ rewrite length_zip_with | rewrite length_rolling | rewrite length_map
    | rewrite length_shift | rewrite length_diff | rewrite length_ewm_from ].

Lemma length_calculate_sma (data : series) (w : nat) :
  length (calculate_sma data w) = length data.
Proof. apply length_rolling. Qed.

Lemma length_calculate_ema (data : series) (w : nat) :
  length (calculate_ema data w) = length data.
Proof. apply length_ewm_from. Qed.

Lemma length_calculate_rsi (data : series) (w : nat) :
  length (calculate_rsi data w) = length data.
Proof.
  unfold calculate_rsi, rsi_gain, rsi_loss, rolling_mean, where_. cbv zeta.
  series_length. lia.
Qed.

Lemma length_calculate_macd (data : series) (fast slow signal : nat) :
  let '(macd, macd_signal, macd_histogram) := calculate_macd data fast slow signal in
  length macd = length data ∧ length macd_signal = length data ∧
  length macd_histogram = length data.
Proof.
  unfold calculate_macd, calculate_ema, ewm_mean. cbv zeta.
  series_length. lia.
Qed.

Lemma length_calculate_bollinger_bands (data : series) (w : nat) (k : fval) :
  let '(upper, middle, lower) := calculate_bollinger_bands data w k in
  length upper = length data ∧ length middle = length data ∧
  length lower = length data.
Proof.
  unfold calculate_bollinger_bands, calculate_sma, rolling_mean, rolling_std.
  cbv zeta. series_length. lia.
Qed.

Lemma length_calculate_stochastic (high low close : series) (kw dw : nat) :
  length high = length close → length low = length close →
  let '(k_percent, d_percent) := calculate_stochastic high low close kw dw in
  length k_percent = length close ∧ length d_percent = length close.
Proof.
  intros Hh Hl. unfold calculate_stochastic, rolling_mean, rolling_min, rolling_max.
  cbv zeta. series_length. lia.
Qed.

Lemma length_calculate_williams_r (high low close : series) (w : nat) :
  length high = length close → length low = length close →
  length (calculate_williams_r high low close w) = length close.
Proof.
  intros Hh Hl. unfold calculate_williams_r, rolling_min, rolling_max.
  series_length. lia.
Qed.

Lemma length_calculate_adx (high low close : series) (w : nat) :
  length high = length close → length low = length close →
  length (calculate_adx high low close w) = length close.
Proof.
  intros Hh Hl. unfold calculate_adx, rolling_mean, row_max3. cbv zeta.
  series_length. lia.
Qed.

Lemma frame_wf_setitem (f : frame) (k : string) (s : series) :
  frame_wf f → length s = nrows f → frame_wf (setitem f k s).
Proof.
  intros Hwf Hs k' s'. unfold setitem. cbn.
  rewrite lookup_insert. case_decide.
  - intros [= <-]. done.
  - apply Hwf.
Qed.

End SeriesShape.

Ltac series_length :=
  repeat first
    [ rewrite length_zip_with | rewrite length_rolling | rewrite length_map
    | rewrite length_shift | rewrite length_diff | rewrite length_ewm_from ].

(* ===================================================================== *)
(** ** Further properties of the indicator library *)
(* ===================================================================== *)

Section IndicatorFacts.

Lemma frame_wf_bars (close high low volume : list Z) :
  length high = length close → length low = length close →
  length volume = length close →
  frame_wf (Examples.bars close high low volume).
Proof.
  intros Hh Hl Hv k s. unfold Examples.bars. cbn.
  rewrite !lookup_insert. repeat case_decide; rewrite ?lookup_empty;
    intros [= <-]; rewrite length_map; done.
Qed.

(** X1.  [calculate_all_indicators] keeps a frame aligned: when every
    column of the input has one value per row, so has every column of the
    returned panel, the added indicator columns included. *)
Theorem X1_all_indicators_aligned (data : frame) :
  frame_wf data → frame_wf (calculate_all_indicators data).
Proof.
  intros Hwf. unfold calculate_all_indicators.
  destruct (columns data !! "close") as [close|] eqn:Hc;
    [destruct (columns data !! "high") as [high|] eqn:Hh;
       [destruct (columns data !! "low") as [low|] eqn:Hl|]|].
  - pose proof (Hwf _ _ Hc) as Lc. pose proof (Hwf _ _ Hh) as Lh.
    pose proof (Hwf _ _ Hl) as Ll.
    unfold all_indicators_body, sma_of, ema_of, rsi_of, macd_of, bollinger_of,
      stochastic_of, williams_of, adx_of, calculate_support_resistance, getitem.
    rewrite Hc, Hh, Hl. cbn [mbind except_bind mret except_ret].
    pose proof (length_calculate_macd close 12 26 9) as Lm.
    pose proof (length_calculate_bollinger_bands close 20 (of_Z 2)) as Lb.
    pose proof (length_calculate_stochastic high low close 14 3) as Ls.
    destruct (calculate_macd close 12 26 9) as [[macd sig] hist].
    destruct (calculate_bollinger_bands close 20 (of_Z 2)) as [[up mid] lo].
    destruct (calculate_stochastic high low close 14 3) as [sk sd].
    destruct Lm as (? & ? & ?). destruct Lb as (? & ? & ?).
    destruct Ls as (? & ?); [lia|lia|].
    cbn [mbind except_bind mret except_ret try_except].
    repeat match goal with
           | |- frame_wf (setitem _ _ _) => apply frame_wf_setitem
           end;
      try done; cbn [nrows setitem]; unfold rolling_min, rolling_max;
      rewrite ?length_calculate_sma, ?length_calculate_ema, ?length_calculate_rsi,
        ?length_calculate_williams_r, ?length_calculate_adx, ?length_rolling by lia;
      lia.
  - assert (Hbody : all_indicators_body data = Raise (KeyError "low")).
    { unfold all_indicators_body, sma_of, ema_of, rsi_of, macd_of, bollinger_of,
        stochastic_of, getitem.
      rewrite Hc, Hh, Hl.
      unfold calculate_macd, calculate_bollinger_bands. reflexivity. }
    by rewrite Hbody.
  - assert (Hbody : all_indicators_body data = Raise (KeyError "high")).
    { unfold all_indicators_body, sma_of, ema_of, rsi_of, macd_of, bollinger_of,
        stochastic_of, getitem.
      rewrite Hc, Hh.
      unfold calculate_macd, calculate_bollinger_bands. reflexivity. }
    by rewrite Hbody.
  - assert (Hbody : all_indicators_body data = Raise (KeyError "close")).
    { unfold all_indicators_body, sma_of, getitem. rewrite Hc. reflexivity. }
    by rewrite Hbody.
Qed.

Lemma X1_all_indicators_aligned_witness :
  frame_wf (calculate_all_indicators Examples.rising).
Proof.
  apply (X1_all_indicators_aligned Examples.rising).
  apply frame_wf_bars; reflexivity.
Defined.

Lemma bollinger_warm_up (data : series) (window i : nat) (num_std : fval) :
  i < length data → S i < window →
  (calculate_bollinger_bands data window num_std).1.1 !! i = Some NaN ∧
  (calculate_bollinger_bands data window num_std).2 !! i = Some NaN.
Proof.
  intros Hi Hw.
  assert (Hsma : calculate_sma data window !! i = Some NaN)
    by (by apply rolling_warm_up).
  assert (Hstd : rolling_std window data !! i = Some NaN)
    by (by apply rolling_warm_up).
  unfold calculate_bollinger_bands. cbv zeta. cbn [fst snd].
  split; apply lookup_zip_with_Some; exists NaN, NaN; done.
Qed.

(** X2.  Warm-up of the windowed averages: on the rows before the window
    is full ([i + 1 < window]) the simple moving average is missing, and so
    are the three Bollinger bands. *)
Theorem X2_windowed_warm_up (data : series) (window i : nat) (num_std : fval) :
  i < length data → S i < window →
  calculate_sma data window !! i = Some NaN ∧
  (calculate_bollinger_bands data window num_std).1.1 !! i = Some NaN ∧
  (calculate_bollinger_bands data window num_std).1.2 !! i = Some NaN ∧
  (calculate_bollinger_bands data window num_std).2 !! i = Some NaN.
Proof.
  intros Hi Hw.
  assert (Hsma : calculate_sma data window !! i = Some NaN)
    by (by apply rolling_warm_up).
  assert (Hstd : rolling_std window data !! i = Some NaN)
    by (by apply rolling_warm_up).
  unfold calculate_bollinger_bands. cbv zeta. cbn [fst snd].
  split_and!; [done| |done|]; apply lookup_zip_with_Some; exists NaN, NaN; done.
Qed.

Lemma X2_windowed_warm_up_witness :
  calculate_sma IndicatorExamples.flat 20 !! 14 = Some NaN ∧
  (calculate_bollinger_bands IndicatorExamples.flat 20 (of_Z 2)).1.1 !! 14 = Some NaN ∧
  (calculate_bollinger_bands IndicatorExamples.flat 20 (of_Z 2)).1.2 !! 14 = Some NaN ∧
  (calculate_bollinger_bands IndicatorExamples.flat 20 (of_Z 2)).2 !! 14 = Some NaN.
Proof.
  apply (X2_windowed_warm_up IndicatorExamples.flat 20 14 (of_Z 2)).
  - vm_compute. lia.
  - lia.
Defined.

Lemma window_at_fin (w i : nat) (xs : list Q) :
  window_at w i (map Fin xs) = map Fin (take w (drop (S i - w) xs)).
Proof. unfold window_at. by rewrite <- fmap_drop, <- fmap_take. Qed.

Lemma forallb_is_obs_fin (l : list Q) : forallb is_obs (map Fin l) = true.
Proof. induction l as [|x l IH]; [done|]. cbn. exact IH. Qed.

Lemma forallb_is_finite_fin (l : list Q) : forallb is_finite (map Fin l) = true.
Proof. induction l as [|x l IH]; [done|]. cbn. exact IH. Qed.

Lemma fold_fadd_fin (l : list Q) (a : Q) :
  fold_left fadd (map Fin l) (Fin a) = Fin (fold_left Qplus l a).
Proof. revert a. induction l as [|x l IH]; intros a; [done|]. cbn. apply IH. Qed.

Lemma fold_Qplus_Qsum (l : list Q) (a : Q) :
  (fold_left Qplus l a == a + Qsum l)%Q.
Proof.
  unfold Qsum. revert a.
  induction l as [|x l IH]; intros a; cbn [fold_left fold_right]; [ring|].
  rewrite IH. ring.
Qed.

Lemma of_nat_nonzero (n : nat) : 0 < n → Qeq_bool (inject_Z (Z.of_nat n)) 0 = false.
Proof.
  intros Hn. destruct (Qeq_bool (inject_Z (Z.of_nat n)) 0) eqn:E; [|done].
  apply Qeq_bool_iff in E. unfold Qeq in E. cbn in E. lia.
Qed.

Lemma mean_list_fin (l : list Q) :
  l ≠ [] →
  mean_list (map Fin l)
  = Fin (fold_left Qplus l 0%Q / inject_Z (Z.of_nat (length l))).
Proof.
  intros Hl. unfold mean_list, fsum. rewrite fold_fadd_fin, length_map.
  unfold of_nat, of_Z, fdiv. rewrite of_nat_nonzero; [done|].
  destruct l; [done|cbn; lia].
Qed.

(** X3.  Once the window is full, the simple moving average of a series of
    finite values is the arithmetic mean of the last [window] values. *)
Theorem X3_sma_is_window_mean (xs : list Q) (window i : nat) :
  1 ≤ window → window ≤ S i → i < length xs →
  ∃ q, calculate_sma (map Fin xs) window !! i = Some (Fin q) ∧
       (q == Qsum (take window (drop (S i - window) xs))
             / inject_Z (Z.of_nat window))%Q.
Proof.
  intros Hw Hi Hlen. unfold calculate_sma, rolling_mean.
  rewrite rolling_lookup by (by rewrite length_map).
  rewrite window_at_fin, forallb_is_finite_fin.
  assert (Hwl : length (take window (drop (S i - window) xs)) = window).
  { rewrite length_take, length_drop. lia. }
  apply Nat.leb_le in Hi. rewrite Hi. cbn [andb].
  rewrite mean_list_fin.
  - eexists. split; [done|]. rewrite Hwl, fold_Qplus_Qsum. f_equiv. ring.
  - intros E. rewrite E in Hwl. cbn in Hwl. lia.
Qed.

Lemma X3_sma_is_window_mean_witness :
  ∃ q, calculate_sma (map Fin [1; 2; 6]%Q) 2 !! 2 = Some (Fin q) ∧
       (q == Qsum (take 2 (drop (3 - 2) [1; 2; 6]%Q)) / inject_Z (Z.of_nat 2))%Q.
Proof. apply (X3_sma_is_window_mean [1; 2; 6]%Q 2 2); cbn; lia. Defined.

Lemma ewm_from_constant (alpha c : Q) (n : nat) :
  (0 <= 1 - alpha)%Q →
  ∀ (num d : Q) (seen : bool) (i : nat),
    (0 <= d)%Q → (num == c * d)%Q → i < n →
    ∃ e, ewm_from alpha (Fin num) d seen (repeat (Fin c) n) !! i = Some (Fin e) ∧
         (e == c)%Q.
Proof.
  intros Hb. induction n as [|n IH]; intros num d seen i Hd Hnum Hi; [lia|].
  cbn [repeat]. rewrite ewm_from_cons_fin.
  pose proof (weights_from_pos (1 - alpha) d 0 Hb Hd) as Hq. cbn in Hq.
  assert (Hq0 : ¬ ((1 - alpha) * d + 1 == 0)%Q).
  { intros E. rewrite E in Hq. by apply Qlt_irrefl in Hq. }
  destruct i as [|i].
  - cbn [lookup list_lookup]. rewrite fdiv_fin by done.
    eexists. split; [done|]. rewrite Hnum. field. done.
  - cbn [lookup list_lookup]. apply IH; [by apply Qlt_le_weak| |lia].
    rewrite Hnum. ring.
Qed.

(** X4.  The exponential moving average of a constant series is that
    constant at every row, for every window of at least 1: the weights are
    normalised. *)
Theorem X4_ema_of_constant (c : Q) (n window i : nat) :
  1 ≤ window → i < n →
  ∃ e, calculate_ema (repeat (Fin c) n) window !! i = Some (Fin e) ∧ (e == c)%Q.
Proof.
  intros Hw Hi. unfold calculate_ema, ewm_mean.
  apply ewm_from_constant; [by apply span_alpha_le_1|done|ring|done].
Qed.

Lemma X4_ema_of_constant_witness :
  ∃ e, calculate_ema (repeat (Fin 5) 15) 12 !! 14 = Some (Fin e) ∧ (e == 5)%Q.
Proof. apply (X4_ema_of_constant 5 15 12 14); lia. Defined.

End IndicatorFacts.

(* ===================================================================== *)
(** ** The range of the RSI *)
(* ===================================================================== *)

Section RsiRange.

Lemma elem_of_take_1 {A : Type} (n : nat) (l : list A) (x : A) :
  x ∈ take n l → x ∈ l.
Proof.
  intros H. apply elem_of_take in H as (i & Hi & _).
  by apply list_elem_of_lookup_2 in Hi.
Qed.

Lemma elem_of_drop_1 {A : Type} (n : nat) (l : list A) (x : A) :
  x ∈ drop n l → x ∈ l.
Proof.
  intros H. apply list_elem_of_lookup in H as [i Hi].
  rewrite lookup_drop in Hi. by apply list_elem_of_lookup_2 in Hi.
Qed.

Lemma elem_of_shift (s : series) (v : fval) :
  v ∈ shift s → v = NaN ∨ v ∈ s.
Proof.
  destruct s as [|x s]; [intros H; by apply elem_of_nil in H|].
  unfold shift. intros H. apply elem_of_cons in H as [->|H]; [by left|].
  right. rewrite removelast_firstn_len in H. by apply elem_of_take_1 in H.
Qed.

Lemma diff_fin (xs : list Q) (v : fval) :
  v ∈ diff (map Fin xs) → v = NaN ∨ finite v.
Proof.
  unfold diff. intros H.
  apply elem_of_lookup_zip_with in H as (i & x & y & -> & Hx & Hy).
  apply list_elem_of_lookup_2, list_elem_of_fmap in Hx as (a & -> & _).
  apply list_elem_of_lookup_2, elem_of_shift in Hy as [->|Hy]; [by left|].
  apply list_elem_of_fmap in Hy as (b & -> & _). right. by eexists.
Qed.

Lemma gains_nonneg (xs : list Q) (v : fval) :
  v ∈ where_ (λ d, d >? Fin 0)%F (Fin 0) (diff (map Fin xs)) → nonneg v.
Proof.
  unfold where_. intros H. apply list_elem_of_fmap in H as (d & -> & Hd).
  apply diff_fin in Hd as [->|[q ->]].
  - exists 0%Q. done.
  - destruct (Fin q >? Fin 0)%F eqn:E.
    + exists q. split; [done|]. unfold fgt, flt in E.
      apply Qltb_lt in E. by apply Qlt_le_weak.
    + exists 0%Q. done.
Qed.

Lemma losses_nonneg (xs : list Q) (v : fval) :
  v ∈ map fneg (where_ (λ d, d <? Fin 0)%F (Fin 0) (diff (map Fin xs))) → nonneg v.
Proof.
  unfold where_. intros H. apply list_elem_of_fmap in H as (d' & -> & H).
  apply list_elem_of_fmap in H as (d & -> & Hd).
  apply diff_fin in Hd as [->|[q ->]].
  - exists (- 0)%Q. done.
  - destruct (Fin q <? Fin 0)%F eqn:E.
    + exists (- q)%Q. split; [done|]. unfold flt in E.
      apply Qltb_lt in E. lra.
    + exists (- 0)%Q. done.
Qed.

Lemma fold_fadd_nonneg (l : list fval) (a : Q) :
  (∀ v, v ∈ l → nonneg v) → (0 <= a)%Q →
  ∃ s, fold_left fadd l (Fin a) = Fin s ∧ (0 <= s)%Q.
Proof.
  revert a. induction l as [|x l IH]; intros a Hl Ha; [by exists a|].
  destruct (Hl x) as (q & -> & Hq); [apply elem_of_cons; by left|].
  cbn [fold_left]. change (Fin a + Fin q)%F with (Fin (a + q)).
  apply IH; [|lra]. intros v Hv. apply Hl. apply elem_of_cons; by right.
Qed.

Lemma mean_list_nonneg (l : list fval) :
  (∀ v, v ∈ l → nonneg v) → mean_list l = NaN ∨ nonneg (mean_list l).
Proof.
  intros Hl. destruct l as [|x l]; [by left|]. right.
  unfold mean_list, fsum.
  destruct (fold_fadd_nonneg (x :: l) 0 Hl) as (s & -> & Hs); [lra|].
  unfold of_nat, of_Z, fdiv. rewrite of_nat_nonzero by (cbn; lia).
  eexists. split; [done|].
  apply Qle_shift_div_l; [|lra].
  unfold Qlt. cbn. lia.
Qed.

Lemma elem_of_window_at (w i : nat) (s : series) (v : fval) :
  v ∈ window_at w i s → v ∈ s.
Proof.
  unfold window_at. intros H. apply elem_of_take_1 in H. by apply elem_of_drop_1 in H.
Qed.

Lemma rolling_mean_nonneg (w : nat) (s : series) (r : fval) :
  (∀ v, v ∈ s → nonneg v) → r ∈ rolling_mean w s → r = NaN ∨ nonneg r.
Proof.
  intros Hs Hr. apply list_elem_of_lookup in Hr as [i Hi].
  assert (Hlen : i < length s).
  { apply lookup_lt_Some in Hi. unfold rolling_mean in Hi.
    by rewrite length_rolling in Hi. }
  unfold rolling_mean in Hi. rewrite rolling_lookup in Hi by done.
  injection Hi as <-.
  destruct ((w <=? S i)%nat && forallb is_finite (window_at w i s)); [|by left].
  apply mean_list_nonneg. intros v Hv. by apply Hs, (elem_of_window_at w i).
Qed.

Lemma rsi_of_rs_range (g l : fval) :
  g = NaN ∨ nonneg g → l = NaN ∨ nonneg l →
  nan_or_within 0 100 (rsi_of_rs (g / l)%F).
Proof.
  intros [->|(p & -> & Hp)] [->|(q & -> & Hq)]; try (by left).
  unfold fdiv. destruct (Qeq_bool q 0) eqn:E.
  - unfold sgn, inf_signed.
    destruct (Z.sgn (Qnum p)) eqn:Es; [by left| |].
    + right. exists (inject_Z 100 + - 0)%Q. split; [done|].
      unfold inject_Z. split; by vm_compute.
    + exfalso. unfold Qle in Hp. cbn in Hp. destruct (Qnum p); cbn in Es; lia.
  - assert (Hq0 : ¬ (q == 0)%Q).
    { intros H. apply Qeq_bool_iff in H. congruence. }
    assert (Hrs : (0 <= p / q)%Q) by (apply Qle_shift_div_l; lra).
    unfold rsi_of_rs, of_Z.
    change (Fin (inject_Z 1) + Fin (p / q))%F with (Fin (inject_Z 1 + p / q)).
    assert (H1 : (0 < inject_Z 1 + p / q)%Q).
    { change (inject_Z 1) with 1%Q. lra. }
    rewrite fdiv_fin by lra.
    right. eexists. split; [reflexivity|].
    change (inject_Z 100) with 100%Q. change (inject_Z 1) with 1%Q in *.
    assert (H2 : (0 <= 100 / (1 + p / q))%Q) by (apply Qle_shift_div_l; lra).
    assert (H3 : (100 / (1 + p / q) <= 100)%Q) by (apply Qle_shift_div_r; lra).
    split; lra.
Qed.

(** X5.  On a series of finite values every RSI value is either missing
    or lies between 0 and 100, for every window. *)
Theorem X5_rsi_between_0_and_100 (xs : list Q) (window i : nat) (r : fval) :
  calculate_rsi (map Fin xs) window !! i = Some r →
  nan_or_within 0 100 r.
Proof.
  unfold calculate_rsi. cbv zeta. rewrite list_lookup_fmap.
  destruct (zip_with fdiv (rsi_gain (map Fin xs) window)
              (rsi_loss (map Fin xs) window) !! i) as [rs|] eqn:Hrs; [|done].
  intros [= <-].
  apply lookup_zip_with_Some in Hrs as (g & l & -> & Hg & Hl).
  apply rsi_of_rs_range.
  - apply (rolling_mean_nonneg window _ g (gains_nonneg xs)).
    apply list_elem_of_lookup. eauto.
  - apply (rolling_mean_nonneg window _ l (losses_nonneg xs)).
    apply list_elem_of_lookup. eauto.
Qed.

Lemma X5_rsi_between_0_and_100_witness :
  nan_or_within 0 100 (Fin (600 # 12)).
Proof.
  apply (X5_rsi_between_0_and_100 [5; 6; 4; 5]%Q 3 3).
  vm_compute. reflexivity.
Defined.

End RsiRange.

(* ===================================================================== *)
(** ** Bollinger bands *)
(* ===================================================================== *)

Section Bands.

Lemma Qsqrt_nonneg (q : Q) : (0 <= Qsqrt q)%Q.
Proof.
  unfold Qsqrt, Qle. cbn. rewrite Z.mul_1_r. apply Z.sqrt_nonneg.
Qed.

Lemma Qsquare_nonneg (x : Q) : (0 <= x * x)%Q.
Proof.
  destruct (Qlt_le_dec x 0) as [H|H].
  - assert (E : (x * x == (- x) * (- x))%Q) by ring.
    rewrite E. apply Qmult_le_0_compat; lra.
  - by apply Qmult_le_0_compat.
Qed.

Lemma std_list_fin (ys : list Q) :
  std_list (map Fin ys) = NaN ∨ nonneg (std_list (map Fin ys)).
Proof.
  unfold std_list. cbv zeta. rewrite length_map.
  destruct (length ys <? 2)%nat eqn:E; [by left|]. apply Nat.ltb_ge in E.
  right. rewrite mean_list_fin by (intros ->; cbn in E; lia).
  set (m := (fold_left Qplus ys 0 / inject_Z (Z.of_nat (length ys)))%Q).
  unfold fsum.
  destruct (fold_fadd_nonneg
              (map (λ v, ((v - Fin m) * (v - Fin m))%F) (map Fin ys)) 0)
    as (s & -> & Hs); [|lra|].
  { intros v Hv. apply list_elem_of_fmap in Hv as (v' & -> & Hv').
    apply list_elem_of_fmap in Hv' as (y & -> & _).
    exists ((y + - m) * (y + - m))%Q. split; [done|]. apply Qsquare_nonneg. }
  unfold of_nat, of_Z, fdiv. rewrite of_nat_nonzero by lia.
  assert (Hv : (0 <= s / inject_Z (Z.of_nat (length ys - 1)))%Q).
  { apply Qle_shift_div_l; [|lra]. unfold Qlt. cbn. lia. }
  unfold fsqrt. destruct (Qltb (s / inject_Z (Z.of_nat (length ys - 1))) 0) eqn:El.
  - apply Qltb_lt in El. lra.
  - eexists. split; [done|apply Qsqrt_nonneg].
Qed.

(** X6.  On a series of finite values and for a band width that is not
    negative, the Bollinger bands at a row are either missing (upper and
    lower together) or ordered lower <= middle <= upper, the middle band
    half-way between the other two. *)
Theorem X6_bollinger_bands_ordered
    (xs : list Q) (window i : nat) (k : Q) (u m l : fval) :
  (0 <= k)%Q →
  (calculate_bollinger_bands (map Fin xs) window (Fin k)).1.1 !! i = Some u →
  (calculate_bollinger_bands (map Fin xs) window (Fin k)).1.2 !! i = Some m →
  (calculate_bollinger_bands (map Fin xs) window (Fin k)).2 !! i = Some l →
  (u = NaN ∧ l = NaN) ∨
  ∃ qu qm ql, u = Fin qu ∧ m = Fin qm ∧ l = Fin ql ∧
              (ql <= qm)%Q ∧ (qm <= qu)%Q ∧ (qu - qm == qm - ql)%Q.
Proof.
  intros Hk. unfold calculate_bollinger_bands. cbv zeta. cbn [fst snd].
  intros Hu Hm Hl.
  assert (Hi : i < length (map Fin xs)).
  { apply lookup_lt_Some in Hm. unfold calculate_sma, rolling_mean in Hm.
    by rewrite length_rolling in Hm. }
  apply lookup_zip_with_Some in Hu as (m1 & sd1 & -> & Hm1 & Hsd1).
  apply lookup_zip_with_Some in Hl as (m2 & sd2 & -> & Hm2 & Hsd2).
  rewrite Hm in Hm1, Hm2. injection Hm1 as <-. injection Hm2 as <-.
  rewrite Hsd1 in Hsd2. injection Hsd2 as <-.
  unfold calculate_sma, rolling_mean in Hm. unfold rolling_std in Hsd1.
  rewrite rolling_lookup in Hm, Hsd1 by done.
  injection Hm as <-. injection Hsd1 as <-.
  rewrite window_at_fin.
  destruct ((window <=? S i)%nat
            && forallb is_finite (map Fin (take window (drop (S i - window) xs))));
    [|by left].
  set (ys := take window (drop (S i - window) xs)).
  destruct (std_list_fin ys) as [->|(sd & -> & Hsd)].
  { left. by destruct (mean_list (map Fin ys)). }
  destruct ys as [|y ys'] eqn:Eys.
  { left. done. }
  rewrite mean_list_fin by done. right.
  eexists _, _, _. split_and!; [reflexivity..| | |]; nra.
Qed.

Lemma X6_bollinger_bands_ordered_witness :
  ∃ u m l,
    (calculate_bollinger_bands (map Fin [1; 2; 6]%Q) 2 (Fin 2)).1.1 !! 2 = Some u ∧
    (calculate_bollinger_bands (map Fin [1; 2; 6]%Q) 2 (Fin 2)).1.2 !! 2 = Some m ∧
    (calculate_bollinger_bands (map Fin [1; 2; 6]%Q) 2 (Fin 2)).2 !! 2 = Some l ∧
    ((u = NaN ∧ l = NaN) ∨
     ∃ qu qm ql, u = Fin qu ∧ m = Fin qm ∧ l = Fin ql ∧
                 (ql <= qm)%Q ∧ (qm <= qu)%Q ∧ (qu - qm == qm - ql)%Q).
Proof.
  eexists _, _, _. split_and!; [vm_compute; reflexivity..|].
  eapply (X6_bollinger_bands_ordered [1; 2; 6]%Q 2 2 2).
  - by vm_compute.
  - vm_compute. reflexivity.
  - vm_compute. reflexivity.
  - vm_compute. reflexivity.
Defined.

End Bands.

(* ===================================================================== *)
(** ** Trailing minima and maxima *)
(* ===================================================================== *)

Section Extremes.

Lemma Qltb_ge (p q : Q) : Qltb p q = false ↔ (q <= p)%Q.
Proof.
  unfold Qltb. rewrite negb_false_iff. apply Qle_bool_iff.
Qed.

Lemma fle_refl (a : fval) : fle a a.
Proof.
  unfold fle, flt. destruct a as [| |q|]; try done. apply Qltb_ge, Qle_refl.
Qed.

Lemma fle_trans (a b c : fval) :
  is_obs b = true → fle a b → fle b c → fle a c.
Proof.
  unfold fle, flt.
  destruct a as [| |p|], b as [| |q|], c as [| |r|]; try done.
  rewrite !Qltb_ge. intros _ H1 H2. by apply Qle_trans with (y := q).
Qed.

Lemma flt_fle (a b : fval) : flt a b = true → fle a b.
Proof.
  unfold fle, flt. destruct a as [| |p|], b as [| |q|]; try done.
  rewrite Qltb_lt, Qltb_ge. apply Qlt_le_weak.
Qed.

Lemma fold_min_spec (r : list fval) (acc : fval) :
  let m := fold_left (λ acc v, if (v <? acc)%F then v else acc) r acc in
  is_obs acc = true → forallb is_obs r = true →
  is_obs m = true ∧ m ∈ acc :: r ∧ fle m acc ∧ ∀ v, v ∈ r → fle m v.
Proof.
  revert acc. induction r as [|x r IH]; intros acc; cbv zeta; intros Hacc Hr.
  - cbn. split_and!; [done|apply elem_of_cons; by left|apply fle_refl|].
    intros v Hv. by apply elem_of_nil in Hv.
  - cbn [forallb] in Hr. apply andb_true_iff in Hr as [Hx Hr].
    cbn [fold_left].
    set (acc' := if (x <? acc)%F then x else acc).
    assert (Hacc' : is_obs acc' = true) by (unfold acc'; by destruct (x <? acc)%F).
    assert (Hle : fle acc' acc ∧ fle acc' x).
    { unfold acc'. destruct (x <? acc)%F eqn:E.
      - split; [by apply flt_fle|apply fle_refl].
      - split; [apply fle_refl|exact E]. }
    destruct (IH acc' Hacc' Hr) as (Hm & Hin & Hma & Hall).
    split_and!.
    + done.
    + apply elem_of_cons in Hin as [Hin|Hin].
      * rewrite Hin. unfold acc'. destruct (x <? acc)%F.
        -- apply elem_of_cons; right. apply elem_of_cons; by left.
        -- apply elem_of_cons; by left.
      * apply elem_of_cons; right. apply elem_of_cons; by right.
    + apply (fle_trans _ acc'); [done|done|apply Hle].
    + intros v Hv. apply elem_of_cons in Hv as [->|Hv]; [|by apply Hall].
      apply (fle_trans _ acc'); [done|done|apply Hle].
Qed.

Lemma fold_max_spec (r : list fval) (acc : fval) :
  let m := fold_left (λ acc v, if (v >? acc)%F then v else acc) r acc in
  is_obs acc = true → forallb is_obs r = true →
  is_obs m = true ∧ m ∈ acc :: r ∧ fle acc m ∧ ∀ v, v ∈ r → fle v m.
Proof.
  revert acc. induction r as [|x r IH]; intros acc; cbv zeta; intros Hacc Hr.
  - cbn. split_and!; [done|apply elem_of_cons; by left|apply fle_refl|].
    intros v Hv. by apply elem_of_nil in Hv.
  - cbn [forallb] in Hr. apply andb_true_iff in Hr as [Hx Hr].
    cbn [fold_left].
    set (acc' := if (x >? acc)%F then x else acc).
    assert (Hacc' : is_obs acc' = true) by (unfold acc'; by destruct (x >? acc)%F).
    assert (Hle : fle acc acc' ∧ fle x acc').
    { unfold acc'. destruct (x >? acc)%F eqn:E.
      - split; [by apply flt_fle|apply fle_refl].
      - split; [apply fle_refl|exact E]. }
    destruct (IH acc' Hacc' Hr) as (Hm & Hin & Hma & Hall).
    split_and!.
    + done.
    + apply elem_of_cons in Hin as [Hin|Hin].
      * rewrite Hin. unfold acc'. destruct (x >? acc)%F.
        -- apply elem_of_cons; right. apply elem_of_cons; by left.
        -- apply elem_of_cons; by left.
      * apply elem_of_cons; right. apply elem_of_cons; by right.
    + apply (fle_trans _ acc'); [done|apply Hle|done].
    + intros v Hv. apply elem_of_cons in Hv as [->|Hv]; [|by apply Hall].
      apply (fle_trans _ acc'); [done|apply Hle|done].
Qed.

Lemma min_list_spec (l : list fval) :
  l ≠ [] → forallb is_obs l = true →
  min_list l ∈ l ∧ ∀ v, v ∈ l → fle (min_list l) v.
Proof.
  destruct l as [|x r]; [done|]. intros _ Hl. cbn [forallb] in Hl.
  apply andb_true_iff in Hl as [Hx Hr].
  destruct (fold_min_spec r x Hx Hr) as (_ & Hin & Hmx & Hall).
  split; [exact Hin|]. intros v Hv.
  apply elem_of_cons in Hv as [->|Hv]; [exact Hmx|by apply Hall].
Qed.

Lemma max_list_spec (l : list fval) :
  l ≠ [] → forallb is_obs l = true →
  max_list l ∈ l ∧ ∀ v, v ∈ l → fle v (max_list l).
Proof.
  destruct l as [|x r]; [done|]. intros _ Hl. cbn [forallb] in Hl.
  apply andb_true_iff in Hl as [Hx Hr].
  destruct (fold_max_spec r x Hx Hr) as (_ & Hin & Hmx & Hall).
  split; [exact Hin|]. intros v Hv.
  apply elem_of_cons in Hv as [->|Hv]; [exact Hmx|by apply Hall].
Qed.

(** The row itself is the last value of its window. *)
Lemma window_at_current (w i : nat) (s : series) (x : fval) :
  1 ≤ w → w ≤ S i → s !! i = Some x → x ∈ window_at w i s.
Proof.
  intros Hw Hi Hx. unfold window_at. apply elem_of_take.
  exists (w - 1). split; [|lia]. rewrite lookup_drop.
  replace (S i - w + (w - 1)) with i by lia. done.
Qed.

(** A trailing extreme that is present is a value of the series and bounds
    the value of its row. *)
Lemma rolling_min_spec (w i : nat) (s : series) (m x : fval) :
  rolling_min w s !! i = Some m → m ≠ NaN → s !! i = Some x →
  m ∈ s ∧ fle m x.
Proof.
  intros Hm Hobs Hx. unfold rolling_min in Hm.
  rewrite rolling_lookup in Hm by (by apply lookup_lt_Some in Hx).
  injection Hm as <-.
  destruct (w <=? S i)%nat eqn:Hw; [|done]. apply Nat.leb_le in Hw.
  destruct (forallb is_finite (window_at w i s)) eqn:Hf; [|done]. cbn [andb] in *.
  apply forallb_finite_obs in Hf.
  destruct (decide (w = 0)) as [->|Hw0]; [done|].
  assert (Hin : x ∈ window_at w i s) by (apply window_at_current; [lia|done|done]).
  destruct (min_list_spec (window_at w i s)) as [Hmin Hall].
  { intros E. rewrite E in Hin. by apply elem_of_nil in Hin. }
  { done. }
  split; [by apply (elem_of_window_at w i)|by apply Hall].
Qed.

Lemma rolling_max_spec (w i : nat) (s : series) (m x : fval) :
  rolling_max w s !! i = Some m → m ≠ NaN → s !! i = Some x →
  m ∈ s ∧ fle x m.
Proof.
  intros Hm Hobs Hx. unfold rolling_max in Hm.
  rewrite rolling_lookup in Hm by (by apply lookup_lt_Some in Hx).
  injection Hm as <-.
  destruct (w <=? S i)%nat eqn:Hw; [|done]. apply Nat.leb_le in Hw.
  destruct (forallb is_finite (window_at w i s)) eqn:Hf; [|done]. cbn [andb] in *.
  apply forallb_finite_obs in Hf.
  destruct (decide (w = 0)) as [->|Hw0]; [done|].
  assert (Hin : x ∈ window_at w i s) by (apply window_at_current; [lia|done|done]).
  destruct (max_list_spec (window_at w i s)) as [Hmax Hall].
  { intros E. rewrite E in Hin. by apply elem_of_nil in Hin. }
  { done. }
  split; [by apply (elem_of_window_at w i)|by apply Hall].
Qed.

End Extremes.

(* ===================================================================== *)
(** ** Oscillators, support and resistance, ADX *)
(* ===================================================================== *)

Section Oscillators.

Lemma fle_fin (a b : Q) : fle (Fin a) (Fin b) → (a <= b)%Q.
Proof. unfold fle, flt. by rewrite Qltb_ge. Qed.

Lemma lookup_fin_lt (xs : list Q) (i : nat) :
  i < length (map Fin xs) → ∃ x, xs !! i = Some x ∧ map Fin xs !! i = Some (Fin x).
Proof.
  rewrite length_map. intros Hi. apply lookup_lt_is_Some_2 in Hi as [x Hx].
  exists x. split; [done|]. by rewrite list_lookup_fmap, Hx.
Qed.

Lemma oscillators_at (a b c : Q) :
  (a <= c)%Q → (c <= b)%Q →
  (stochastic_k (Fin a) (Fin b) (Fin c) = NaN ∧ williams (Fin b) (Fin a) (Fin c) = NaN) ∨
  ∃ qk qr, stochastic_k (Fin a) (Fin b) (Fin c) = Fin qk ∧
           williams (Fin b) (Fin a) (Fin c) = Fin qr ∧
           (0 <= qk)%Q ∧ (qk <= 100)%Q ∧ (qr == qk - 100)%Q.
Proof.
  intros Hac Hcb. unfold stochastic_k, williams.
  change (Fin c - Fin a)%F with (Fin (c + - a)).
  change (Fin b - Fin a)%F with (Fin (b + - a)).
  change (Fin b - Fin c)%F with (Fin (b + - c)).
  destruct (Qeq_bool (b + - a) 0) eqn:E.
  - left. apply Qeq_bool_iff in E.
    rewrite !fdiv_zero_zero; [done|right|right|right|right]; eexists;
      (split; [reflexivity|]); apply Qeq_bool_iff; lra.
  - right. assert (Hne : ¬ (b + - a == 0)%Q).
    { intros H. apply Qeq_bool_iff in H. congruence. }
    rewrite !fdiv_fin by done. unfold of_Z.
    eexists _, _. split_and!; [reflexivity|reflexivity|..].
    + change (inject_Z 100) with 100%Q.
      apply Qmult_le_0_compat; [lra|]. apply Qle_shift_div_l; lra.
    + change (inject_Z 100) with 100%Q.
      assert (H1 : ((c + - a) / (b + - a) <= 1)%Q) by (apply Qle_shift_div_r; lra).
      nra.
    + change (inject_Z 100) with 100%Q. change (inject_Z (-100)) with (-100)%Q.
      field. done.
Qed.

(** X7.  For bars of finite prices whose close lies between the low and
    the high, Stochastic %K and Williams %R at a row are either both
    missing or %K lies between 0 and 100 and %R is %K minus 100 (hence
    between -100 and 0). *)
Theorem X7_oscillators_in_range
    (hs ls cs : list Q) (window d_window i : nat) (k r : fval) :
  (∀ j l c h, ls !! j = Some l → cs !! j = Some c → hs !! j = Some h →
              (l <= c)%Q ∧ (c <= h)%Q) →
  (calculate_stochastic (map Fin hs) (map Fin ls) (map Fin cs) window d_window).1 !! i
  = Some k →
  calculate_williams_r (map Fin hs) (map Fin ls) (map Fin cs) window !! i = Some r →
  (k = NaN ∧ r = NaN) ∨
  ∃ qk qr, k = Fin qk ∧ r = Fin qr ∧
           (0 <= qk)%Q ∧ (qk <= 100)%Q ∧ (qr == qk - 100)%Q.
Proof.
  intros Hbars Hk Hr. unfold calculate_stochastic in Hk. cbn [fst] in Hk.
  unfold calculate_williams_r in Hr.
  apply lookup_zip_with_Some in Hk as (c & [ll hh] & -> & Hc & Hlh).
  apply lookup_zip_Some in Hlh as [Hll Hhh].
  apply lookup_zip_with_Some in Hr as (c' & [hh' ll'] & -> & Hc' & Hhl).
  apply lookup_zip_Some in Hhl as [Hhh' Hll'].
  rewrite Hc in Hc'. injection Hc' as <-.
  rewrite Hhh in Hhh'. injection Hhh' as <-.
  rewrite Hll in Hll'. injection Hll' as <-. cbn [fst snd].
  destruct (lookup_fin_lt ls i) as (l & Hl & Hlf).
  { apply lookup_lt_Some in Hll. unfold rolling_min in Hll.
    by rewrite length_rolling in Hll. }
  destruct (lookup_fin_lt hs i) as (h & Hh & Hhf).
  { apply lookup_lt_Some in Hhh. unfold rolling_max in Hhh.
    by rewrite length_rolling in Hhh. }
  rewrite list_lookup_fmap in Hc.
  destruct (cs !! i) as [cq|] eqn:Hcq; [|done]. injection Hc as <-.
  destruct (Hbars i l cq h Hl Hcq Hh) as [Hlc Hch].
  assert (Hlo : ll = NaN ∨ ll ≠ NaN) by (destruct ll; eauto).
  destruct Hlo as [->|Hlo].
  { left. unfold stochastic_k, williams. split; [done|by destruct hh]. }
  assert (Hho : hh = NaN ∨ hh ≠ NaN) by (destruct hh; eauto).
  destruct Hho as [->|Hho].
  { left. unfold stochastic_k, williams. split; [by destruct ll|done]. }
  destruct (rolling_min_spec _ _ _ _ _ Hll Hlo Hlf) as [Hin Hle].
  destruct (rolling_max_spec _ _ _ _ _ Hhh Hho Hhf) as [Hin' Hle'].
  apply list_elem_of_fmap in Hin as (a & -> & _).
  apply list_elem_of_fmap in Hin' as (b & -> & _).
  apply fle_fin in Hle, Hle'.
  apply oscillators_at; lra.
Qed.

Lemma X7_oscillators_in_range_witness :
  ∃ k r,
    (calculate_stochastic (map Fin [3; 5; 6]%Q) (map Fin [1; 2; 4]%Q)
       (map Fin [2; 4; 5]%Q) 2 3).1 !! 2 = Some k ∧
    calculate_williams_r (map Fin [3; 5; 6]%Q) (map Fin [1; 2; 4]%Q)
      (map Fin [2; 4; 5]%Q) 2 !! 2 = Some r ∧
    ((k = NaN ∧ r = NaN) ∨
     ∃ qk qr, k = Fin qk ∧ r = Fin qr ∧
              (0 <= qk)%Q ∧ (qk <= 100)%Q ∧ (qr == qk - 100)%Q).
Proof.
  eexists _, _. split_and!; [vm_compute; reflexivity..|].
  eapply (X7_oscillators_in_range [3; 5; 6]%Q [1; 2; 4]%Q [2; 4; 5]%Q 2 3 2).
  - intros [|[|[|j]]] l c h Hl Hc Hh; cbn in Hl, Hc, Hh; simplify_eq;
      split; by vm_compute.
  - vm_compute. reflexivity.
  - vm_compute. reflexivity.
Defined.

(** X8.  For bars of finite prices whose low does not exceed the high,
    [calculate_support_resistance] returns levels where, at every row
    where both are present, the support is not above the resistance. *)
Theorem X8_support_below_resistance
    (data : frame) (ls hs : list Q) (window : nat) :
  columns data !! "low" = Some (map Fin ls) →
  columns data !! "high" = Some (map Fin hs) →
  (∀ j l h, ls !! j = Some l → hs !! j = Some h → (l <= h)%Q) →
  ∃ support resistance,
    calculate_support_resistance data window = Ok (support, resistance) ∧
    ∀ i s r, support !! i = Some (Fin s) → resistance !! i = Some (Fin r) →
             (s <= r)%Q.
Proof.
  intros Hlow Hhigh Hbars. unfold calculate_support_resistance, getitem.
  rewrite Hlow, Hhigh. cbn [mbind except_bind mret except_ret].
  eexists _, _. split; [reflexivity|].
  intros i s r Hs Hr.
  destruct (lookup_fin_lt ls i) as (l & Hl & Hlf).
  { apply lookup_lt_Some in Hs. unfold rolling_min in Hs.
    by rewrite length_rolling in Hs. }
  destruct (lookup_fin_lt hs i) as (h & Hh & Hhf).
  { apply lookup_lt_Some in Hr. unfold rolling_max in Hr.
    by rewrite length_rolling in Hr. }
  destruct (rolling_min_spec _ _ _ _ _ Hs ltac:(done) Hlf) as [_ Hle].
  destruct (rolling_max_spec _ _ _ _ _ Hr ltac:(done) Hhf) as [_ Hle'].
  apply fle_fin in Hle, Hle'. specialize (Hbars i l h Hl Hh). lra.
Qed.

Lemma X8_support_below_resistance_witness :
  ∃ support resistance,
    calculate_support_resistance
      {| nrows := 2;
         columns := <["low" := map Fin [1; 2]%Q]> (<["high" := map Fin [3; 5]%Q]> ∅) |}
      2
    = Ok (support, resistance) ∧
    ∀ i s r, support !! i = Some (Fin s) → resistance !! i = Some (Fin r) →
             (s <= r)%Q.
Proof.
  apply (X8_support_below_resistance _ [1; 2]%Q [3; 5]%Q 2).
  - vm_compute. reflexivity.
  - vm_compute. reflexivity.
  - intros [|[|j]] l h Hl Hh; cbn in Hl, Hh; simplify_eq; by vm_compute.
Defined.

Lemma forallb_is_finite_nan (l : list fval) : NaN ∈ l → forallb is_finite l = false.
Proof.
  induction l as [|x l IH]; intros H; [by apply elem_of_nil in H|].
  apply elem_of_cons in H as [<-|H]; [done|].
  cbn. rewrite IH by done. apply andb_false_r.
Qed.

(** A window that reaches back into missing rows gives a missing value. *)
Lemma rolling_over_missing (w i : nat) (agg : list fval → fval) (s : series) :
  i < length s → (∀ j, j < length s → S j < w → s !! j = Some NaN) →
  S (S i) < 2 * w → rolling w agg s !! i = Some NaN.
Proof.
  intros Hi Hnan Hw. rewrite rolling_lookup by done.
  destruct (w <=? S i)%nat eqn:E; [|done]. apply Nat.leb_le in E.
  rewrite forallb_is_finite_nan; [done|].
  unfold window_at. apply elem_of_take. exists 0. split; [|lia].
  rewrite lookup_drop, Nat.add_0_r. apply Hnan; lia.
Qed.

(** X9.  The ADX needs two full windows: on the rows before row
    [2 * window - 2] it is missing. *)
Theorem X9_adx_warm_up (high low close : series) (window i : nat) :
  length high = length close → length low = length close →
  i < length close → S (S i) < 2 * window →
  calculate_adx high low close window !! i = Some NaN.
Proof.
  intros Hh Hl Hi Hw. unfold calculate_adx. cbv zeta.
  set (tr := row_max3 _ _ _).
  set (dm_plus := zip_with (λ p m, if (p >? m)%F && (p >? Fin 0)%F then p else Fin 0) _ _).
  set (dm_minus := zip_with (λ m p, if (m >? p)%F && (m >? Fin 0)%F then m else Fin 0) _ _).
  assert (Ltr : length tr = length close).
  { unfold tr, row_max3. series_length. lia. }
  assert (Lp : length dm_plus = length close).
  { unfold dm_plus. series_length. lia. }
  assert (Lm : length dm_minus = length close).
  { unfold dm_minus, dm_plus. series_length. lia. }
  unfold rolling_mean. apply rolling_over_missing; [|intros j Hj Hjw|done].
  - series_length. lia.
  - assert (Hjc : j < length close) by (revert Hj; series_length; lia).
    apply lookup_zip_with_Some. exists NaN, NaN. split; [done|].
    split; apply lookup_zip_with_Some; exists NaN, NaN;
      (split; [done|]); split; apply rolling_warm_up; lia.
Qed.

Lemma X9_adx_warm_up_witness :
  calculate_adx IndicatorExamples.flat IndicatorExamples.flat IndicatorExamples.flat 14
  !! 14 = Some NaN.
Proof.
  apply (X9_adx_warm_up IndicatorExamples.flat IndicatorExamples.flat
           IndicatorExamples.flat 14 14).
  - reflexivity.
  - reflexivity.
  - vm_compute. lia.
  - lia.
Defined.

End Oscillators.

(* ===================================================================== *)
(** ** The panel and its summary on short histories *)
(* ===================================================================== *)

Section ShortHistory.

Lemma all_indicators_columns (data : frame) (close high low : series) :
  columns data !! "close" = Some close →
  columns data !! "high" = Some high →
  columns data !! "low" = Some low →
  let panel := calculate_all_indicators data in
  nrows panel = nrows data ∧
  columns panel !! "sma_20" = Some (calculate_sma close 20) ∧
  columns panel !! "sma_50" = Some (calculate_sma close 50) ∧
  columns panel !! "rsi" = Some (calculate_rsi close 14) ∧
  columns panel !! "bb_upper"
  = Some (calculate_bollinger_bands close 20 (of_Z 2)).1.1 ∧
  columns panel !! "bb_lower"
  = Some (calculate_bollinger_bands close 20 (of_Z 2)).2 ∧
  (∀ k, k ∉ indicator_columns → columns panel !! k = columns data !! k).
Proof.
  intros Hc Hh Hl. cbv zeta. unfold calculate_all_indicators.
  unfold all_indicators_body, sma_of, ema_of, rsi_of, macd_of, bollinger_of,
    stochastic_of, williams_of, adx_of, calculate_support_resistance, getitem.
  rewrite Hc, Hh, Hl. cbn [mbind except_bind mret except_ret].
  destruct (calculate_macd close 12 26 9) as [[macd sig] hist].
  destruct (calculate_bollinger_bands close 20 (of_Z 2)) as [[up mid] lo].
  destruct (calculate_stochastic high low close 14 3) as [sk sd].
  unfold setitem.
  cbn [try_except mret except_ret mbind except_bind fst snd columns nrows].
  split_and!; [done|..].
  1-5: repeat (rewrite lookup_insert_ne by done); by rewrite lookup_insert_eq.
  intros k Hk. unfold indicator_columns in Hk.
  repeat (apply not_elem_of_cons in Hk as [? Hk]).
  repeat (rewrite lookup_insert_ne by congruence). done.
Qed.

Lemma last_lookup_default (s : series) (d v : fval) :
  s !! (length s - 1) = Some v → List.last s d = v.
Proof.
  induction s as [|x s IH]; [done|]. destruct s as [|y s].
  - cbn. by intros [= ->].
  - intros H. change (List.last (x :: y :: s) d) with (List.last (y :: s) d).
    apply IH. cbn [length] in *. replace (S (S (length s)) - 1) with (S (length s)) in H by lia.
    cbn in H. replace (S (length s) - 1) with (length s) by lia. done.
Qed.

Lemma rolling_last_missing (w : nat) (agg : list fval → fval) (s : series) :
  0 < length s → length s < w → iloc_last (rolling w agg s) = NaN.
Proof.
  intros Hn Hw. unfold iloc_last. apply last_lookup_default.
  rewrite length_rolling. apply rolling_warm_up; lia.
Qed.

Lemma fgt_nan_r (x : fval) : (x >? NaN)%F = false.
Proof. by destruct x. Qed.

Lemma flt_nan_r (x : fval) : (x <? NaN)%F = false.
Proof. by destruct x. Qed.

(** X10.  With fewer than 20 bars the 20-row windows are never full: the
    summary of the computed panel reports the trend as Sideways, the
    Bollinger position as Within Bands and the volume as Normal Volume,
    whatever the prices are; with fewer than 14 bars the RSI is missing
    and its signal Neutral. *)
Theorem X10_short_history_summary
    (data : frame) (close high low volume : series) :
  frame_wf data →
  columns data !! "close" = Some close →
  columns data !! "high" = Some high →
  columns data !! "low" = Some low →
  columns data !! "volume" = Some volume →
  0 < nrows data → nrows data < 20 →
  let s := get_technical_summary (calculate_all_indicators data) in
  trend_signal s = Some "Sideways" ∧
  bollinger_position s = Some "Within Bands" ∧
  volume_signal s = Some "Normal Volume" ∧
  (nrows data < 14 → rsi_current s = Some NaN ∧ rsi_signal s = Some "Neutral").
Proof.
  intros Hwf Hc Hh Hl Hv Hn Hn20. cbv zeta.
  destruct (all_indicators_columns data close high low Hc Hh Hl)
    as (Hrows & Hsma20 & Hsma50 & Hrsi & Hup & Hlo & Hkeep).
  set (panel := calculate_all_indicators data) in *.
  pose proof (Hwf _ _ Hc) as Lc. pose proof (Hwf _ _ Hv) as Lv.
  assert (Hvol : columns panel !! "volume" = Some volume).
  { rewrite Hkeep; [done|]. unfold indicator_columns.
    repeat (apply not_elem_of_cons; split; [done|]). apply not_elem_of_nil. }
  assert (Hempty : empty panel = false).
  { unfold empty. apply orb_false_iff. split.
    - apply Nat.eqb_neq. lia.
    - apply bool_decide_eq_false. intros E. rewrite E in Hvol.
      by rewrite lookup_empty in Hvol. }
  assert (Hs20 : latest_get panel "sma_20" (of_Z 0) = NaN).
  { unfold latest_get. rewrite Hsma20. apply rolling_last_missing; lia. }
  assert (Hbu : latest_get panel "bb_upper" (of_Z 0) = NaN).
  { unfold latest_get. rewrite Hup. unfold iloc_last. apply last_lookup_default.
    pose proof (length_calculate_bollinger_bands close 20 (of_Z 2)) as Lb.
    destruct (bollinger_warm_up close 20 (length close - 1) (of_Z 2))
      as (Hb1 & _); [lia|lia|].
    destruct (calculate_bollinger_bands close 20 (of_Z 2)) as [[up mid] lo].
    destruct Lb as (Lu & _ & _). cbn [fst snd] in *. by rewrite Lu. }
  assert (Hbl : latest_get panel "bb_lower" (of_Z 0) = NaN).
  { unfold latest_get. rewrite Hlo. unfold iloc_last. apply last_lookup_default.
    pose proof (length_calculate_bollinger_bands close 20 (of_Z 2)) as Lb.
    destruct (bollinger_warm_up close 20 (length close - 1) (of_Z 2))
      as (_ & Hb3); [lia|lia|].
    destruct (calculate_bollinger_bands close 20 (of_Z 2)) as [[up mid] lo].
    destruct Lb as (_ & _ & Ll). cbn [fst snd] in *. by rewrite Ll. }
  assert (Havg : iloc_last (rolling_mean 20 volume) = NaN).
  { apply rolling_last_missing; lia. }
  unfold get_technical_summary, technical_summary_body.
  rewrite Hempty. cbv zeta. unfold getitem. rewrite Hvol, Hrows.
  destruct (1 <? nrows data)%nat;
    cbn [mbind except_bind mret except_ret try_except];
    rewrite Hs20, Hbu, Hbl, ?Havg;
    rewrite ?fgt_nan_r, ?flt_nan_r;
    unfold fmul; rewrite ?fgt_nan_r, ?flt_nan_r;
    cbn [mbind except_bind mret except_ret try_except andb
         trend_signal bollinger_position volume_signal rsi_current rsi_signal].
  - split_and!; [done..|]. intros Hn14.
    assert (Hr : latest_get panel "rsi" (of_Z 50) = NaN).
    { unfold latest_get. rewrite Hrsi. unfold iloc_last. apply last_lookup_default.
      rewrite length_calculate_rsi. unfold calculate_rsi. cbv zeta.
      rewrite list_lookup_fmap.
      assert (Hq : zip_with fdiv (rsi_gain close 14) (rsi_loss close 14)
                   !! (length close - 1) = Some (NaN / NaN)%F).
      { apply lookup_zip_with_Some. exists NaN, NaN. split; [done|].
        unfold rsi_gain, rsi_loss, rolling_mean.
        split; apply rolling_warm_up; unfold where_; series_length; lia. }
      by rewrite Hq. }
    rewrite Hr. done.
  - split_and!; [done..|]. intros Hn14.
    assert (Hr : latest_get panel "rsi" (of_Z 50) = NaN).
    { unfold latest_get. rewrite Hrsi. unfold iloc_last. apply last_lookup_default.
      rewrite length_calculate_rsi. unfold calculate_rsi. cbv zeta.
      rewrite list_lookup_fmap.
      assert (Hq : zip_with fdiv (rsi_gain close 14) (rsi_loss close 14)
                   !! (length close - 1) = Some (NaN / NaN)%F).
      { apply lookup_zip_with_Some. exists NaN, NaN. split; [done|].
        unfold rsi_gain, rsi_loss, rolling_mean.
        split; apply rolling_warm_up; unfold where_; series_length; lia. }
      by rewrite Hq. }
    rewrite Hr. done.
Qed.

Lemma X10_short_history_summary_witness :
  let s := get_technical_summary (calculate_all_indicators Examples.rising) in
  trend_signal s = Some "Sideways" ∧
  bollinger_position s = Some "Within Bands" ∧
  volume_signal s = Some "Normal Volume" ∧
  (nrows Examples.rising < 14 → rsi_current s = Some NaN ∧ rsi_signal s = Some "Neutral").
Proof.
  apply (X10_short_history_summary Examples.rising
           (map of_Z [100; 110]%Z) (map of_Z [101; 111]%Z) (map of_Z [99; 109]%Z)
           (map of_Z [1000; 1200]%Z)).
  - apply frame_wf_bars; reflexivity.
  - vm_compute. reflexivity.
  - vm_compute. reflexivity.
  - vm_compute. reflexivity.
  - vm_compute. reflexivity.
  - vm_compute. lia.
  - vm_compute. lia.
Defined.

End ShortHistory.

(* ===================================================================== *)
(** ** The overall signal *)
(* ===================================================================== *)

Section Signals.

(** What [get_technical_summary] returns: the empty dictionary, or all
    eight entries, the last one the tally of the three signals. *)
Lemma summary_shape (technical_data : frame) :
  get_technical_summary technical_data = empty_summary ∨
  ∃ rsi rs ms ts vs bp,
    get_technical_summary technical_data
    = mkSummary (Some rsi) (Some rs) (Some ms) (Some ts) (Some vs) (Some bp)
        (Some rs) (Some (overall_of rs ms ts)) ∧
    rs ∈ ["Overbought"; "Oversold"; "Neutral"] ∧
    ms ∈ ["Bullish"; "Bearish"; "Neutral"] ∧
    ts ∈ trend_labels.
Proof.
  unfold get_technical_summary, technical_summary_body.
  destruct (empty technical_data); [by left|]. cbv zeta.
  match goal with
  | |- context [mbind _ ?v] => destruct v as [vs|e] eqn:Hv
  end; [|by left].
  right. cbn [mbind except_bind mret except_ret try_except].
  eexists _, _, _, _, _, _. split; [reflexivity|].
  unfold trend_labels.
  split_and!; repeat case_match; rewrite !elem_of_cons; eauto 10.
Qed.

(** X11.  In every summary that has entries, two agreeing signals decide
    the overall signal whatever the RSI says: a Bullish MACD with an
    uptrend gives the Bullish overall signal, a Bearish MACD with a
    downtrend the Bearish one; and the momentum signal is the RSI signal. *)
Theorem X11_two_signals_decide (technical_data : frame) :
  let s := get_technical_summary technical_data in
  (macd_signal s = Some "Bullish" →
   trend_signal s = Some "Strong Uptrend" ∨ trend_signal s = Some "Uptrend" →
   overall_signal s = Some "Bullish - Consider buying on dips") ∧
  (macd_signal s = Some "Bearish" →
   trend_signal s = Some "Strong Downtrend" ∨ trend_signal s = Some "Downtrend" →
   overall_signal s = Some "Bearish - Consider selling on rallies") ∧
  momentum_signal s = rsi_signal s.
Proof.
  cbv zeta. destruct (summary_shape technical_data)
    as [->|(rsi & rs & ms & ts & vs & bp & -> & Hrs & Hms & Hts)].
  { split_and!; [done|done|done]. }
  cbn [macd_signal trend_signal overall_signal momentum_signal rsi_signal].
  rewrite !elem_of_cons in Hrs.
  split_and!; [| |done].
  - intros [= ->] Ht.
    destruct Hrs as [->|[->|[->|Hrs]]]; [| | |by apply elem_of_nil in Hrs];
      destruct Ht as [[= ->]|[= ->]]; by vm_compute.
  - intros [= ->] Ht.
    destruct Hrs as [->|[->|[->|Hrs]]]; [| | |by apply elem_of_nil in Hrs];
      destruct Ht as [[= ->]|[= ->]]; by vm_compute.
Qed.

End Signals.

(* ===================================================================== *)
(** ** Further properties of [calculate_metrics] *)
(* ===================================================================== *)

Section Metrics.

(** The fields of the metrics of a history that has its four columns and
    at least two rows. *)
Lemma calculate_metrics_fields
    (stock_data : frame) (close high low volume : series) :
  2 ≤ nrows stock_data →
  columns stock_data !! "close" = Some close →
  columns stock_data !! "high" = Some high →
  columns stock_data !! "low" = Some low →
  columns stock_data !! "volume" = Some volume →
  ∃ m,
    calculate_metrics stock_data = Some m ∧
    current_price m = iloc_last close ∧
    high_52w m = series_max high ∧
    low_52w m = series_min low ∧
    price_position m
    = (if (series_max high - series_min low >? of_Z 0)%F
       then ((iloc_last close - series_min low)
             / (series_max high - series_min low) * of_Z 100)%F
       else of_Z 50) ∧
    ((length (dropna (pct_change close)) <? 2)%nat = true →
     volatility m = of_Z 0 ∧ sharpe_ratio m = of_Z 0) ∧
    max_drawdown m
    = (if (0 <? length (dropna (pct_change close)))%nat then
         let cumulative := cumprod (map (λ r, of_Z 1 + r)%F (dropna (pct_change close))) in
         (series_min (zip_with (λ c m, c / m - of_Z 1)%F cumulative
                        (expanding_max cumulative)) * of_Z 100)%F
       else of_Z 0).
Proof.
  intros Hn Hclose Hhigh Hlow Hvolume.
  unfold calculate_metrics, calculate_metrics_body.
  assert (Hempty : empty stock_data = false).
  { unfold empty. apply orb_false_iff. split.
    - apply Nat.eqb_neq. lia.
    - apply bool_decide_eq_false. intros Heq. rewrite Heq in Hclose.
      by rewrite lookup_empty in Hclose. }
  rewrite Hempty. cbn [orb].
  destruct (nrows stock_data <? 2)%nat eqn:E; [apply Nat.ltb_lt in E; lia|].
  unfold getitem. rewrite Hclose, Hhigh, Hlow, Hvolume.
  cbn [mbind except_bind mret except_ret].
  destruct (length (dropna (pct_change close)) <? 2)%nat;
    (eexists; split; [reflexivity|]; cbn [current_price high_52w low_52w
       price_position volatility sharpe_ratio max_drawdown];
     split_and!; done).
Qed.

(** X12.  [calculate_metrics] returns no metrics exactly when the history
    has fewer than two rows or lacks one of the columns [close], [high],
    [low], [volume]; it never raises. *)
Theorem X12_metrics_none_iff (stock_data : frame) :
  calculate_metrics stock_data = None ↔
  nrows stock_data < 2 ∨
  columns stock_data !! "close" = None ∨ columns stock_data !! "high" = None ∨
  columns stock_data !! "low" = None ∨ columns stock_data !! "volume" = None.
Proof.
  split.
  - intros Hnone.
    destruct (decide (nrows stock_data < 2)) as [|Hn]; [by left|]. right.
    destruct (columns stock_data !! "close") as [close|] eqn:Hc; [|by left].
    destruct (columns stock_data !! "high") as [high|] eqn:Hh; [|by right; left].
    destruct (columns stock_data !! "low") as [low|] eqn:Hl; [|by right; right; left].
    destruct (columns stock_data !! "volume") as [volume|] eqn:Hv;
      [|by right; right; right].
    destruct (calculate_metrics_fields stock_data close high low volume)
      as (m & Hm & _); [lia|done..|]. congruence.
  - unfold calculate_metrics, calculate_metrics_body.
    destruct (empty stock_data || (nrows stock_data <? 2)%nat) eqn:E; [done|].
    apply orb_false_iff in E as [_ E]. apply Nat.ltb_ge in E.
    intros [Hn|Hmiss]; [lia|]. unfold getitem.
    destruct (columns stock_data !! "close") as [close|] eqn:Hc; [|done].
    cbn [mbind except_bind mret except_ret].
    destruct (length (dropna (pct_change close)) <? 2)%nat.
    + destruct (columns stock_data !! "high") as [high|] eqn:Hh; [|done].
      destruct (columns stock_data !! "low") as [low|] eqn:Hl; [|done].
      destruct (columns stock_data !! "volume") as [volume|] eqn:Hv; [|done].
      destruct Hmiss as [|[|[|]]]; done.
    + destruct (columns stock_data !! "high") as [high|] eqn:Hh; [|done].
      destruct (columns stock_data !! "low") as [low|] eqn:Hl; [|done].
      destruct (columns stock_data !! "volume") as [volume|] eqn:Hv; [|done].
      destruct Hmiss as [|[|[|]]]; done.
Qed.

Lemma dropna_nan_cons (s : series) : dropna (NaN :: s) = dropna s.
Proof. unfold dropna. by rewrite filter_cons_False. Qed.

Lemma pct_change_two (a b : fval) :
  (length (dropna (pct_change [a; b])) <? 2)%nat = true.
Proof.
  unfold pct_change, shift. cbn [removelast zip_with].
  replace (a / NaN - Fin 1)%F with NaN by (by destruct a).
  rewrite dropna_nan_cons. apply Nat.ltb_lt.
  unfold dropna. pose proof (length_filter (λ v, is_obs v = true) [(b / a - Fin 1)%F]).
  cbn [length] in *. lia.
Qed.

(** X13.  A history of exactly two bars has a single return: its
    volatility and its Sharpe ratio are reported as 0, and its metrics are
    nevertheless usable. *)
Theorem X13_two_bars_no_volatility
    (stock_data : frame) (close high low volume : series) :
  frame_wf stock_data → nrows stock_data = 2 →
  columns stock_data !! "close" = Some close →
  columns stock_data !! "high" = Some high →
  columns stock_data !! "low" = Some low →
  columns stock_data !! "volume" = Some volume →
  ∃ m, calculate_metrics stock_data = Some m ∧
       volatility m = of_Z 0 ∧ sharpe_ratio m = of_Z 0.
Proof.
  intros Hwf Hn Hc Hh Hl Hv.
  destruct (calculate_metrics_fields stock_data close high low volume)
    as (m & Hm & _ & _ & _ & _ & Hvol & _); [lia|done..|].
  exists m. split; [done|]. apply Hvol.
  pose proof (Hwf _ _ Hc) as Lc. rewrite Hn in Lc.
  destruct close as [|a [|b [|c close]]]; try done.
  apply pct_change_two.
Qed.

Lemma X13_two_bars_no_volatility_witness :
  ∃ m, calculate_metrics Examples.rising = Some m ∧
       volatility m = of_Z 0 ∧ sharpe_ratio m = of_Z 0.
Proof.
  apply (X13_two_bars_no_volatility Examples.rising
           (map of_Z [100; 110]%Z) (map of_Z [101; 111]%Z) (map of_Z [99; 109]%Z)
           (map of_Z [1000; 1200]%Z)).
  - apply frame_wf_bars; reflexivity.
  - reflexivity.
  - vm_compute. reflexivity.
  - vm_compute. reflexivity.
  - vm_compute. reflexivity.
  - vm_compute. reflexivity.
Defined.

Lemma dropna_fin (xs : list Q) : dropna (map Fin xs) = map Fin xs.
Proof.
  unfold dropna. induction xs as [|x xs IH]; [done|].
  cbn [map]. rewrite filter_cons_True by done. by rewrite IH.
Qed.

(** X14.  For a history of at least two bars of finite prices whose close
    lies between the low and the high, the price position is a finite
    value between 0 and 100. *)
Theorem X14_price_position_in_range
    (stock_data : frame) (cs hs ls : list Q) (volume : series) :
  frame_wf stock_data → 2 ≤ nrows stock_data →
  columns stock_data !! "close" = Some (map Fin cs) →
  columns stock_data !! "high" = Some (map Fin hs) →
  columns stock_data !! "low" = Some (map Fin ls) →
  columns stock_data !! "volume" = Some volume →
  (∀ j l c h, ls !! j = Some l → cs !! j = Some c → hs !! j = Some h →
              (l <= c)%Q ∧ (c <= h)%Q) →
  ∃ m q, calculate_metrics stock_data = Some m ∧
         price_position m = Fin q ∧ (0 <= q)%Q ∧ (q <= 100)%Q.
Proof.
  intros Hwf Hn Hc Hh Hl Hv Hbars.
  destruct (calculate_metrics_fields stock_data _ _ _ _ Hn Hc Hh Hl Hv)
    as (m & Hm & _ & _ & _ & Hpp & _).
  pose proof (Hwf _ _ Hc) as Lc. pose proof (Hwf _ _ Hh) as Lh.
  pose proof (Hwf _ _ Hl) as Ll. rewrite length_map in Lc, Lh, Ll.
  set (n := nrows stock_data) in *.
  destruct (lookup_lt_is_Some_2 cs (n - 1)) as [c Hcl]; [lia|].
  destruct (lookup_lt_is_Some_2 hs (n - 1)) as [h Hhl]; [lia|].
  destruct (lookup_lt_is_Some_2 ls (n - 1)) as [l Hll]; [lia|].
  destruct (Hbars _ _ _ _ Hll Hcl Hhl) as [Hlc Hch].
  assert (Hlast : iloc_last (map Fin cs) = Fin c).
  { unfold iloc_last. apply last_lookup_default.
    rewrite length_map, Lc, list_lookup_fmap, Hcl. done. }
  unfold series_max, series_min in Hpp. rewrite !dropna_fin, Hlast in Hpp.
  destruct (max_list_spec (map Fin hs)) as [Hmax Hmaxall].
  { intros E. apply (f_equal length) in E. rewrite length_map in E. cbn in E. lia. }
  { apply forallb_is_obs_fin. }
  destruct (min_list_spec (map Fin ls)) as [Hmin Hminall].
  { intros E. apply (f_equal length) in E. rewrite length_map in E. cbn in E. lia. }
  { apply forallb_is_obs_fin. }
  apply list_elem_of_fmap in Hmax as (b & Hb & _).
  apply list_elem_of_fmap in Hmin as (a & Ha & _).
  rewrite Hb in Hpp, Hmaxall. rewrite Ha in Hpp, Hminall.
  assert (Hhb : (h <= b)%Q).
  { apply fle_fin, Hmaxall, list_elem_of_fmap. exists h. split; [done|].
    by apply list_elem_of_lookup_2 in Hhl. }
  assert (Hal : (a <= l)%Q).
  { apply fle_fin, Hminall, list_elem_of_fmap. exists l. split; [done|].
    by apply list_elem_of_lookup_2 in Hll. }
  change (Fin b - Fin a)%F with (Fin (b + - a)) in Hpp.
  change (Fin c - Fin a)%F with (Fin (c + - a)) in Hpp.
  exists m. destruct (Fin (b + - a) >? of_Z 0)%F eqn:E.
  - unfold fgt, flt, of_Z in E. apply Qltb_lt in E.
    change (inject_Z 0) with 0%Q in E.
    rewrite fdiv_fin in Hpp by lra.
    eexists. split; [done|]. split; [exact Hpp|].
    change (inject_Z 100) with 100%Q.
    assert (H0 : (0 <= (c + - a) / (b + - a))%Q) by (apply Qle_shift_div_l; lra).
    assert (H1 : ((c + - a) / (b + - a) <= 1)%Q) by (apply Qle_shift_div_r; lra).
    split; nra.
  - exists (inject_Z 50). split; [done|]. split; [exact Hpp|].
    split; by vm_compute.
Qed.

Lemma X14_price_position_in_range_witness :
  ∃ m q, calculate_metrics Examples.rising = Some m ∧
         price_position m = Fin q ∧ (0 <= q)%Q ∧ (q <= 100)%Q.
Proof.
  apply (X14_price_position_in_range Examples.rising
           (map inject_Z [100; 110]%Z) (map inject_Z [101; 111]%Z)
           (map inject_Z [99; 109]%Z) (map of_Z [1000; 1200]%Z)).
  - apply frame_wf_bars; reflexivity.
  - vm_compute. lia.
  - vm_compute. reflexivity.
  - vm_compute. reflexivity.
  - vm_compute. reflexivity.
  - vm_compute. reflexivity.
  - intros [|[|j]] l c h Hl Hc Hh; cbn in Hl, Hc, Hh; simplify_eq;
      split; by vm_compute.
Defined.

End Metrics.

(* ===================================================================== *)
(** ** The maximum drawdown *)
(* ===================================================================== *)

Section Drawdown.









End Drawdown.

(* ===================================================================== *)
(** ** Further properties of the fallback ranker *)
(* ===================================================================== *)

Section RankerFacts.

Import ScoreSpec.

(** X16.  The score of an asset is never below 40: the adjustments can
    take at most 10 points off the base of 50, so the lower clamp at 0
    never acts; an asset without usable metrics scores exactly 50. *)
Theorem X16_score_at_least_40 :
  (∀ (m : metrics) (s : summary_dict), (40 ≤ score_of_metrics m s 50 ≤ 100)%Z) ∧
  (∀ entry : asset,
     (40 ≤ score_asset entry ≤ 100)%Z ∧
     (calculate_metrics (data entry) = None → score_asset entry = 50%Z)).
Proof.
  assert (H : ∀ m s, (40 ≤ score_of_metrics m s 50 ≤ 100)%Z).
  { intros m s. rewrite score_of_metrics_sum.
    assert (H1 : (-5 ≤ return_adjustment (total_return m))%Z)
      by (unfold return_adjustment; repeat case_match; lia).
    assert (H2 : (0 ≤ sharpe_adjustment (sharpe_ratio m))%Z)
      by (unfold sharpe_adjustment; repeat case_match; lia).
    assert (H3 : (0 ≤ rsi_adjustment (get_or (rsi_current s) (of_Z 50)))%Z)
      by (unfold rsi_adjustment; repeat case_match; lia).
    assert (H4 : (-3 ≤ trend_adjustment (get_or (trend_signal s) ""))%Z)
      by (unfold trend_adjustment; repeat case_match; lia).
    assert (H5 : (0 ≤ volatility_adjustment (volatility m))%Z)
      by (unfold volatility_adjustment; repeat case_match; lia).
    assert (H6 : (0 ≤ drawdown_adjustment (max_drawdown m))%Z)
      by (unfold drawdown_adjustment; repeat case_match; lia).
    assert (H7 : (-2 ≤ macd_adjustment (macd_signal s))%Z)
      by (unfold macd_adjustment; repeat case_match; lia).
    unfold clamp. lia. }
  split; [exact H|]. intros entry. unfold score_asset.
  destruct (calculate_metrics (data entry)) as [m|]; [|split; [lia|done]].
  split; [apply H|done].
Qed.

(** X17.  [_generate_fallback_comparison] raises in exactly one
    situation: the asset ranked first has usable metrics and an asset is
    ranked second that has none; the exception is then a [TypeError], and
    no other exception is ever raised. *)
Theorem X17_fallback_raises_iff
    (symbols : list string) (comparison_data : gmap string asset) :
  (raises (_generate_fallback_comparison symbols comparison_data) ↔
   ∃ best sb second ss rest,
     ranked_items symbols comparison_data = (best, sb) :: (second, ss) :: rest ∧
     is_Some (asset_metrics comparison_data best) ∧
     asset_metrics comparison_data second = None) ∧
  (∀ e, _generate_fallback_comparison symbols comparison_data = Raise e →
        e = TypeError).
Proof.
  destruct (ranked_items symbols comparison_data) as [|[best sb] rest] eqn:Hr.
  { rewrite fallback_nothing_scored by done. split.
    - split; [done|]. intros (? & ? & ? & ? & ? & ? & _). done.
    - done. }
  destruct (asset_metrics comparison_data best) as [m1|] eqn:Hm1.
  2: { rewrite (fallback_best_unusable symbols comparison_data best sb rest Hr Hm1).
       split.
       - split; [done|]. intros (? & ? & ? & ? & ? & ? & [? ?] & _).
         simplify_eq; try congruence.
       - done. }
  destruct rest as [|[second ss] rest].
  { destruct (fallback_main_path symbols comparison_data best sb [] m1 Hr Hm1)
      as (res & _ & -> & _); [done|].
    split; [|done]. split; [done|]. intros (? & ? & ? & ? & ? & ? & _). done. }
  destruct (asset_metrics comparison_data second) as [m2|] eqn:Hm2.
  - destruct (fallback_main_path symbols comparison_data best sb
                ((second, ss) :: rest) m1 Hr Hm1)
      as (res & _ & -> & _); [cbn; rewrite Hm2; eauto|].
    split; [|done]. split; [done|].
    intros (? & ? & ? & ? & ? & ? & _ & ?). simplify_eq; try congruence.
  - rewrite (fallback_second_unusable symbols comparison_data best second sb ss rest);
      [|done|eauto|done].
    split; [|by intros e [= <-]].
    split; [|done]. intros _. exists best, sb, second, ss, rest.
    split_and!; [done|eauto|done].
Qed.

(** X18.  Every result [_generate_fallback_comparison] returns, on the
    ranking path and on the degraded path alike, is well formed: the
    emitted scores lie in [0,100] and never increase along the rankings,
    the rank of an entry is its 1-based position, every ranked symbol is a
    requested symbol, and [best_choice] is the symbol of the first entry
    (or "N/A" when nothing was requested). *)
Theorem X18_result_well_formed
    (symbols : list string) (comparison_data : gmap string asset) (res : analysis) :
  _generate_fallback_comparison symbols comparison_data = Ok res →
  (∀ i r, rankings res !! i = Some r →
     rank r = i + 1 ∧ (0 ≤ score r ≤ 100)%Z ∧ symbol r ∈ symbols) ∧
  (∀ i j ri rj, i < j → rankings res !! i = Some ri → rankings res !! j = Some rj →
     (score rj ≤ score ri)%Z) ∧
  match rankings res with
  | [] => symbols = [] ∧ best_choice res = "N/A"
  | r1 :: _ => best_choice res = symbol r1
  end.
Proof.
  intros Hres.
  assert (Hdefault : res = _get_default_analysis symbols →
    (∀ i r, rankings res !! i = Some r →
       rank r = i + 1 ∧ (0 ≤ score r ≤ 100)%Z ∧ symbol r ∈ symbols) ∧
    (∀ i j ri rj, i < j → rankings res !! i = Some ri → rankings res !! j = Some rj →
       (score rj ≤ score ri)%Z) ∧
    match rankings res with
    | [] => symbols = [] ∧ best_choice res = "N/A"
    | r1 :: _ => best_choice res = symbol r1
    end).
  { intros ->. cbn [_get_default_analysis rankings best_choice]. split_and!.
    - intros i r Hi. apply list_lookup_imap_Some in Hi as (s & Hs & ->).
      cbn. split_and!; [done|lia|lia|by apply list_elem_of_lookup_2 in Hs].
    - intros i j ri rj _ Hi Hj.
      apply list_lookup_imap_Some in Hi as (s & Hs & ->).
      apply list_lookup_imap_Some in Hj as (s' & Hs' & ->). done.
    - by destruct symbols. }
  destruct (ranked_items symbols comparison_data) as [|[best sb] rest] eqn:Hr.
  { rewrite fallback_nothing_scored in Hres by done. injection Hres as <-.
    by apply Hdefault. }
  destruct (asset_metrics comparison_data best) as [m1|] eqn:Hm1.
  2: { rewrite (fallback_best_unusable symbols comparison_data best sb rest Hr Hm1)
         in Hres.
       injection Hres as <-. by apply Hdefault. }
  assert (Hsec : second_usable comparison_data rest).
  { destruct rest as [|[second ss] rest]; [done|]. cbn.
    destruct (asset_metrics comparison_data second) eqn:Hm2; [eauto|].
    rewrite (fallback_second_unusable symbols comparison_data
               best second sb ss rest) in Hres; [done|done|eauto|done]. }
  destruct (fallback_main_path symbols comparison_data best sb rest m1 Hr Hm1 Hsec)
    as (res' & rs & Hres' & Hrs & Hrank & Hbest & _).
  rewrite Hres in Hres'. injection Hres' as <-.
  destruct (build_rankings_spec comparison_data _ _ _ Hrs) as [Hrl Hent].
  rewrite Hrank. split_and!.
  - intros i r Hi. destruct (Hent i r Hi) as [Hri Hrk]. split; [lia|].
    assert (Hin : (symbol r, score r) ∈ ranked_items symbols comparison_data).
    { rewrite Hr. apply list_elem_of_lookup. eauto. }
    apply ranked_items_elem in Hin as (? & e & ? & ->).
    split; [apply score_asset_range|done].
  - intros i j ri rj Hij Hi Hj.
    destruct (Hent i ri Hi) as [Hri _]. destruct (Hent j rj Hj) as [Hrj _].
    rewrite <- Hr in Hri, Hrj.
    pose proof (precedes_lookup _ _ _ _ _ Hij Hri Hrj) as Hp.
    apply (descending_precedes _ _ _ (sorted_desc_descending _) Hp).
  - destruct rs as [|r1 rs']; [cbn in Hrl; lia|].
    destruct (Hent 0 r1 eq_refl) as [Hr1 _]. cbn in Hr1. congruence.
Qed.

Lemma X18_result_well_formed_witness :
  ∃ res,
    _generate_fallback_comparison ["AAA"; "BBB"; "CCC"] Examples.three_assets = Ok res ∧
    (∀ i r, rankings res !! i = Some r →
       rank r = i + 1 ∧ (0 ≤ score r ≤ 100)%Z ∧ symbol r ∈ ["AAA"; "BBB"; "CCC"]) ∧
    (∀ i j ri rj, i < j → rankings res !! i = Some ri → rankings res !! j = Some rj →
       (score rj ≤ score ri)%Z) ∧
    match rankings res with
    | [] => ["AAA"; "BBB"; "CCC"] = [] ∧ best_choice res = "N/A"
    | r1 :: _ => best_choice res = symbol r1
    end.
Proof.
  eexists. split; [vm_compute; reflexivity|].
  apply (X18_result_well_formed ["AAA"; "BBB"; "CCC"] Examples.three_assets).
  vm_compute. reflexivity.
Defined.

(** X19.  Called as the application calls it, with distinct symbols that
    all have an entry in the comparison data, every result the ranker
    returns ranks each requested symbol exactly once. *)
Theorem X19_every_symbol_ranked_once
    (symbols : list string) (comparison_data : gmap string asset) (res : analysis) :
  NoDup symbols →
  (∀ s, s ∈ symbols → is_Some (comparison_data !! s)) →
  _generate_fallback_comparison symbols comparison_data = Ok res →
  map symbol (rankings res) ≡ₚ symbols.
Proof.
  intros Hnd Hall Hres.
  assert (Hdefault : map symbol (rankings (_get_default_analysis symbols)) = symbols).
  { cbn [_get_default_analysis rankings]. apply list_eq. intros i.
    rewrite list_lookup_fmap, list_lookup_imap.
    by destruct (symbols !! i). }
  destruct (ranked_items symbols comparison_data) as [|[best sb] rest] eqn:Hr.
  { rewrite fallback_nothing_scored in Hres by done. injection Hres as <-.
    by rewrite Hdefault. }
  destruct (asset_metrics comparison_data best) as [m1|] eqn:Hm1.
  2: { rewrite (fallback_best_unusable symbols comparison_data best sb rest Hr Hm1)
         in Hres.
       injection Hres as <-. by rewrite Hdefault. }
  assert (Hsec : second_usable comparison_data rest).
  { destruct rest as [|[second ss] rest]; [done|]. cbn.
    destruct (asset_metrics comparison_data second) eqn:Hm2; [eauto|].
    rewrite (fallback_second_unusable symbols comparison_data
               best second sb ss rest) in Hres; [done|done|eauto|done]. }
  destruct (fallback_main_path symbols comparison_data best sb rest m1 Hr Hm1 Hsec)
    as (res' & rs & Hres' & Hrs & Hrank & _).
  rewrite Hres in Hres'. injection Hres' as <-.
  destruct (build_rankings_spec comparison_data _ _ _ Hrs) as [Hrl Hent].
  rewrite Hrank.
  assert (Hsym : map symbol rs = (ranked_items symbols comparison_data).*1).
  { rewrite Hr. apply list_eq. intros i. rewrite !list_lookup_fmap.
    destruct (rs !! i) as [r|] eqn:Hi.
    - destruct (Hent i r Hi) as [-> _]. done.
    - apply lookup_ge_None in Hi. rewrite Hrl in Hi.
      apply lookup_ge_None in Hi. by rewrite Hi. }
  rewrite Hsym. unfold ranked_items. rewrite sorted_desc_perm.
  destruct (compute_scores_inv symbols comparison_data) as (Hkeys & _ & _).
  apply NoDup_Permutation; [apply compute_scores_NoDup|done|].
  intros k. rewrite Hkeys. split; [by intros [? _]|]. intros Hk. split; [done|].
  by apply Hall.
Qed.

Lemma X19_every_symbol_ranked_once_witness :
  ∃ res,
    _generate_fallback_comparison ["AAA"; "BBB"; "CCC"] Examples.three_assets = Ok res ∧
    map symbol (rankings res) ≡ₚ ["AAA"; "BBB"; "CCC"].
Proof.
  eexists. split; [vm_compute; reflexivity|].
  apply (X19_every_symbol_ranked_once ["AAA"; "BBB"; "CCC"] Examples.three_assets).
  - compute_done.
  - intros s Hs. rewrite !elem_of_cons in Hs.
    destruct Hs as [->|[->|[->|Hs]]];
      [vm_compute; eauto..|by apply elem_of_nil in Hs].
  - vm_compute. reflexivity.
Defined.

End RankerFacts.
(* ===================================================================== *)
(** ** The currency helper *)
(* ===================================================================== *)

Section Currency.

Import CurrencyHelper.

(** What the three getters return for a market code is one row of the
    table: the row of the market, the row of the US when the market is
    not listed. *)
Lemma currency_row (market_code : string) :
  mkCurrency (get_currency_symbol market_code) (get_currency_code market_code)
             (get_currency_name market_code)
  ∈ (map_to_list MARKET_CURRENCIES).*2.
Proof.
  unfold get_currency_symbol, get_currency_code, get_currency_name.
  destruct (MARKET_CURRENCIES !! market_code) as [row|] eqn:E.
  - apply list_elem_of_fmap. exists (market_code, row). split; [by destruct row|].
    by apply elem_of_map_to_list.
  - apply list_elem_of_fmap. exists ("US", mkCurrency "$" "USD" "US Dollar").
    split; [done|]. by apply elem_of_map_to_list.
Qed.

Lemma currency_rows (row : currency) :
  row ∈ (map_to_list MARKET_CURRENCIES).*2 →
  row ∈ [mkCurrency "$" "USD" "US Dollar"; mkCurrency "₹" "INR" "Indian Rupee";
         mkCurrency "¥" "CNY" "Chinese Yuan"; mkCurrency "€" "EUR" "Euro";
         mkCurrency "HK$" "HKD" "Hong Kong Dollar"; mkCurrency "¥" "JPY" "Japanese Yen";
         mkCurrency "C$" "CAD" "Canadian Dollar"; mkCurrency "A$" "AUD" "Australian Dollar"].
Proof.
  intros H. apply list_elem_of_fmap in H as ([k r] & -> & H).
  apply elem_of_map_to_list in H. unfold MARKET_CURRENCIES in H.
  apply elem_of_list_to_map_2 in H. cbn [snd].
  rewrite !elem_of_cons in H. rewrite !elem_of_cons.
  destruct H as [H|[H|[H|[H|[H|[H|[H|[H|H]]]]]]]];
    [injection H as _ ->; eauto 10..|by apply elem_of_nil in H].
Qed.

(** X20.  The currency code shown for a market identifies the currency:
    two market codes, listed or not, that get the same currency code get
    the same symbol and the same name (the converse fails: the yuan and
    the yen share a symbol); a market code that is not listed is treated
    as the US in all three getters; and the formatters put the getters'
    symbol before, or code after, the amount, printed with the requested
    decimals except for "JP", which is printed without decimals. *)
Theorem X20_currency_code_identifies_currency :
  (∀ a b, get_currency_code a = get_currency_code b →
     get_currency_symbol a = get_currency_symbol b ∧
     get_currency_name a = get_currency_name b) ∧
  (∀ a, MARKET_CURRENCIES !! a = None →
     get_currency_symbol a = get_currency_symbol "US" ∧
     get_currency_code a = get_currency_code "US" ∧
     get_currency_name a = get_currency_name "US") ∧
  (get_currency_symbol "CN" = get_currency_symbol "JP" ∧
   get_currency_code "CN" ≠ get_currency_code "JP") ∧
  (∀ price a d,
     before (format_price price a d) = get_currency_symbol a ∧
     after (format_with_code price a d) = (" " ++ get_currency_code a)%string ∧
     amount (format_price price a d) = price ∧
     amount (format_with_code price a d) = price ∧
     places (format_price price a d) = places (format_with_code price a d) ∧
     places (format_price price a d) = (if decide (a = "JP") then 0 else d)).
Proof.
  split; [|split; [|split]].
  - intros a b Hab.
    pose proof (currency_rows _ (currency_row a)) as Ha.
    pose proof (currency_rows _ (currency_row b)) as Hb.
    revert Ha Hb Hab.
    generalize (get_currency_symbol a) (get_currency_code a) (get_currency_name a)
               (get_currency_symbol b) (get_currency_code b) (get_currency_name b).
    intros sa ca na sb cb nb Ha Hb Hab. subst cb.
    rewrite !elem_of_cons in Ha, Hb.
    destruct Ha as [Ha|[Ha|[Ha|[Ha|[Ha|[Ha|[Ha|[Ha|Ha]]]]]]]];
      [idtac..|by apply elem_of_nil in Ha];
      (destruct Hb as [Hb|[Hb|[Hb|[Hb|[Hb|[Hb|[Hb|[Hb|Hb]]]]]]]];
       [idtac..|by apply elem_of_nil in Hb]);
      by simplify_eq.
  - intros a Ha. unfold get_currency_symbol, get_currency_code, get_currency_name.
    rewrite Ha. by vm_compute.
  - split; [by vm_compute|]. vm_compute. discriminate.
  - intros price a d. unfold format_price, format_with_code.
    destruct (String.eqb a "JP") eqn:E.
    + apply String.eqb_eq in E. subst a. rewrite decide_True by done. done.
    + apply String.eqb_neq in E. rewrite decide_False by done. done.
Qed.

End Currency.
(* ===================================================================== *)
(** ** The rankings section of the comparison page *)
(* ===================================================================== *)

Section RankingsSection.

Import ComparisonPage.

Context (comparison_data : gmap string asset).

(** A card is written for a ranking exactly when the ranked symbol has an
    entry whose metrics can be computed. *)
Lemma ranking_card_spec (r : ranking) :
  match ranking_card comparison_data r with
  | Ok c =>
      ∃ e m, comparison_data !! symbol r = Some e ∧
             calculate_metrics (data e) = Some m ∧
             card_symbol c = symbol r ∧ card_rank c = rank r ∧
             card_score c = score r ∧ card_rationale c = rationale_text r ∧
             card_currency_code c = CurrencyHelper.get_currency_code (market e) ∧
             card_price c = CurrencyHelper.format_price (current_price m) (market e) 2 ∧
             (card_medal c = "🥇" ↔ rank r = 1) ∧
             (card_medal c = "🥈" ↔ rank r = 2)
  | Raise ex =>
      asset_metrics comparison_data (symbol r) = None ∧
      ex = match comparison_data !! symbol r with
           | None => KeyError (symbol r)
           | Some _ => TypeError
           end
  end.
Proof.
  unfold ranking_card, asset_metrics, lookup_asset. cbv zeta.
  destruct (comparison_data !! symbol r) as [e|] eqn:He; cbn; [|done].
  destruct (calculate_metrics (data e)) as [m|] eqn:Hm; [|done].
  destruct (rank r =? 1) eqn:E1; [|destruct (rank r =? 2) eqn:E2]; cbn;
    rewrite ?Nat.eqb_eq, ?Nat.eqb_neq in *;
    (exists e, m; split_and!; try done; split; intros; first [done | lia]).
Qed.

(** The loop ends without an exception exactly when every ranked symbol
    has usable metrics. *)
Lemma render_rankings_complete (rs : list ranking) :
  (render_rankings comparison_data rs).2 = None ↔
  ∀ r, r ∈ rs → is_Some (asset_metrics comparison_data (symbol r)).
Proof.
  induction rs as [|r rs IH]; cbn.
  - split; [|done]. intros _ r Hr. by apply elem_of_nil in Hr.
  - pose proof (ranking_card_spec r) as Hc.
    destruct (ranking_card comparison_data r) as [c|ex].
    + destruct Hc as (e & m & He & Hm & _).
      destruct (render_rankings comparison_data rs) as [cards failure]. cbn in *.
      rewrite IH. split.
      * intros H r' Hr'. apply elem_of_cons in Hr' as [->|Hr']; [|by apply H].
        unfold asset_metrics. rewrite He, Hm. eauto.
      * intros H r' Hr'. apply H. apply elem_of_cons. by right.
    + destruct Hc as [Hnone _]. cbn. split; [done|]. intros H.
      destruct (H r) as [m Hm]; [apply elem_of_cons; by left|]. congruence.
Qed.

Lemma render_rankings_length (rs : list ranking) :
  (render_rankings comparison_data rs).2 = None →
  length (render_rankings comparison_data rs).1 = length rs.
Proof.
  induction rs as [|r rs IH]; cbn; [done|].
  destruct (ranking_card comparison_data r) as [c|ex]; [|done].
  destruct (render_rankings comparison_data rs) as [cards failure]. cbn in *.
  intros Hf. by rewrite IH.
Qed.

(** X21.  The rankings section of [render_comparison], for any list of
    rankings (the advisor's or the fallback's): the loop ends without an
    exception exactly when every ranked symbol has an entry with usable
    metrics, and then writes one card per ranking; otherwise it stops at
    the first ranking whose symbol has none, after the cards of the
    rankings before it, with a [KeyError] for a symbol without entry and a
    [TypeError] for an entry without metrics.  The i-th card shows the
    symbol, rank, score and rationale of the i-th ranking, the latest
    close in the currency of the entry's market, and the gold medal
    exactly for rank 1, the silver one exactly for rank 2. *)
Theorem X21_rankings_section (rs : list ranking) :
  let cards := (render_rankings comparison_data rs).1 in
  let failure := (render_rankings comparison_data rs).2 in
  (failure = None ↔
   ∀ r, r ∈ rs → is_Some (asset_metrics comparison_data (symbol r))) ∧
  (failure = None → length cards = length rs) ∧
  (∀ i c, cards !! i = Some c →
     ∃ r e m, rs !! i = Some r ∧ comparison_data !! symbol r = Some e ∧
       calculate_metrics (data e) = Some m ∧
       card_symbol c = symbol r ∧ card_rank c = rank r ∧
       card_score c = score r ∧ card_rationale c = rationale_text r ∧
       card_currency_code c = CurrencyHelper.get_currency_code (market e) ∧
       card_price c = CurrencyHelper.format_price (current_price m) (market e) 2 ∧
       (card_medal c = "🥇" ↔ rank r = 1) ∧
       (card_medal c = "🥈" ↔ rank r = 2)) ∧
  (∀ ex, failure = Some ex →
     ∃ r, rs !! length cards = Some r ∧
       asset_metrics comparison_data (symbol r) = None ∧
       ex = match comparison_data !! symbol r with
            | None => KeyError (symbol r)
            | Some _ => TypeError
            end).
Proof.
  cbv zeta. split; [apply render_rankings_complete|].
  split; [apply render_rankings_length|].
  induction rs as [|r rs [IHc IHf]]; cbn.
  - split; [intros i c H; by rewrite lookup_nil in H|done].
  - pose proof (ranking_card_spec r) as Hc.
    destruct (ranking_card comparison_data r) as [c|ex]; cbn.
    + destruct (render_rankings comparison_data rs) as [cards failure]. cbn in *.
      split.
      * intros [|i] c' Hi; cbn in Hi.
        -- injection Hi as <-. destruct Hc as (e & m & Hc). exists r, e, m.
           split; [done|exact Hc].
        -- apply (IHc i c' Hi).
      * intros ex Hex. apply (IHf ex Hex).
    + split; [intros i c H; by rewrite lookup_nil in H|].
      intros ex' [= <-]. exists r. destruct Hc as [Hn ->]. done.
Qed.

End RankingsSection.

Section PageWithoutAdvisor.

Import ComparisonPage.

Context (symbols : list string) (comparison_data : gmap string asset).

(** The two kinds of result of the fallback ranker. *)
Lemma fallback_result_cases (res : analysis) :
  _generate_fallback_comparison symbols comparison_data = Ok res →
  res = _get_default_analysis symbols ∧ top_usable symbols comparison_data = false ∨
  top_usable symbols comparison_data = true ∧
  build_rankings comparison_data 0 (ranked_items symbols comparison_data)
  = Ok (rankings res).
Proof.
  intros Hres. unfold top_usable.
  destruct (ranked_items symbols comparison_data) as [|[best sb] rest] eqn:Hr.
  { rewrite fallback_nothing_scored in Hres by done. injection Hres as <-. by left. }
  destruct (asset_metrics comparison_data best) as [m1|] eqn:Hm1.
  2: { rewrite (fallback_best_unusable symbols comparison_data best sb rest Hr Hm1)
         in Hres.
       injection Hres as <-. left. split; [done|]. apply bool_decide_eq_false.
       by intros [? ?]. }
  assert (Hsec : second_usable comparison_data rest).
  { destruct rest as [|[second ss] rest]; [done|]. cbn.
    destruct (asset_metrics comparison_data second) eqn:Hm2; [eauto|].
    rewrite (fallback_second_unusable symbols comparison_data
               best second sb ss rest) in Hres; [done|done|eauto|done]. }
  destruct (fallback_main_path symbols comparison_data best sb rest m1 Hr Hm1 Hsec)
    as (res' & rs & Hres' & Hrs & Hrank & _).
  rewrite Hres in Hres'. injection Hres' as <-. right.
  split; [apply bool_decide_eq_true; eauto|]. by rewrite Hrank.
Qed.

(** The symbols of the rankings built from [ranked]. *)
Lemma build_rankings_symbols (ranked : scores_dict) (i : nat) (rs : list ranking) :
  build_rankings comparison_data i ranked = Ok rs → map symbol rs = ranked.*1.
Proof.
  intros Hb. destruct (build_rankings_spec comparison_data _ _ _ Hb) as [Hrl Hent].
  apply list_eq. intros n. rewrite !list_lookup_fmap.
  destruct (rs !! n) as [r|] eqn:Hn.
  - destruct (Hent n r Hn) as [-> _]. done.
  - apply lookup_ge_None in Hn. rewrite Hrl in Hn.
    apply lookup_ge_None in Hn. by rewrite Hn.
Qed.

Lemma default_rankings_symbols :
  map symbol (rankings (_get_default_analysis symbols)) = symbols.
Proof.
  cbn [_get_default_analysis rankings]. apply list_eq. intros i.
  rewrite list_lookup_fmap, list_lookup_imap. by destruct (symbols !! i).
Qed.

(** When every requested symbol has an entry, a returned result ranks the
    requested symbols, and each once when they are distinct. *)
Lemma fallback_ranks_requested (res : analysis) :
  (∀ s, s ∈ symbols → is_Some (comparison_data !! s)) →
  _generate_fallback_comparison symbols comparison_data = Ok res →
  (∀ s, s ∈ map symbol (rankings res) ↔ s ∈ symbols) ∧
  (NoDup symbols → NoDup (map symbol (rankings res))).
Proof.
  intros Hall Hres.
  destruct (fallback_result_cases res Hres) as [[-> _]|[_ Hb]].
  { by rewrite default_rankings_symbols. }
  rewrite (build_rankings_symbols _ _ _ Hb). unfold ranked_items.
  destruct (compute_scores_inv symbols comparison_data) as (Hkeys & _ & _).
  split.
  - intros s. rewrite sorted_desc_perm, Hkeys. split; [by intros [? _]|].
    intros Hs. split; [done|by apply Hall].
  - intros _. rewrite sorted_desc_perm. apply compute_scores_NoDup.
Qed.

(** The ranker returns when every requested symbol that has an entry has
    usable metrics. *)
Lemma fallback_returns_when_usable :
  (∀ s, s ∈ symbols → is_Some (comparison_data !! s) →
        is_Some (asset_metrics comparison_data s)) →
  ∃ res, _generate_fallback_comparison symbols comparison_data = Ok res.
Proof.
  intros Hus.
  destruct (ranked_items symbols comparison_data) as [|[best sb] rest] eqn:Hr.
  { rewrite fallback_nothing_scored by done. eauto. }
  assert (Hel : ∀ k v, (k, v) ∈ (best, sb) :: rest →
                       is_Some (asset_metrics comparison_data k)).
  { intros k v Hkv. rewrite <- Hr in Hkv.
    apply ranked_items_elem in Hkv as (? & e & He & _). apply Hus; [done|].
    rewrite He. eauto. }
  destruct (Hel best sb) as [m1 Hm1]; [apply elem_of_cons; by left|].
  destruct (fallback_main_path symbols comparison_data best sb rest m1 Hr Hm1)
    as (res & _ & -> & _); [|eauto].
  destruct rest as [|[second ss] rest]; [done|]. cbn.
  apply (Hel second ss). apply elem_of_cons. right. apply elem_of_cons. by left.
Qed.

(** The cards of a complete section carry the symbols of the rankings. *)
Lemma render_rankings_symbols (rs : list ranking) (cards : list card) :
  render_rankings comparison_data rs = (cards, None) →
  map card_symbol cards = map symbol rs.
Proof.
  revert cards. induction rs as [|r rs IH]; intros cards Hrender; cbn in Hrender.
  - by injection Hrender as <-.
  - pose proof (ranking_card_spec comparison_data r) as Hspec.
    destruct (ranking_card comparison_data r) as [c0|]; [|done].
    destruct (render_rankings comparison_data rs) as [cards' f'].
    injection Hrender as <- ->. destruct Hspec as (? & ? & ? & ? & Hs & _).
    cbn. by rewrite Hs, (IH cards' eq_refl).
Qed.

(** X22.  The comparison page without the advisor (fallback ranker, then
    the rankings section), for symbols that all have an entry, as the
    application passes them: the rankings are shown completely exactly
    when every symbol has usable metrics.  A single stock whose metrics
    cannot be computed (a history of one bar, say) is enough to lose the
    section: the ranker raises, or returns a list the section fails on.
    When the symbols are distinct, a complete section shows each symbol on
    exactly one card. *)
Theorem X22_page_complete_iff :
  (∀ s, s ∈ symbols → is_Some (comparison_data !! s)) →
  ((∃ cards, compare_without_advisor symbols comparison_data = Ok (cards, None)) ↔
   (∀ s, s ∈ symbols → is_Some (asset_metrics comparison_data s))) ∧
  (NoDup symbols →
   ∀ cards, compare_without_advisor symbols comparison_data = Ok (cards, None) →
            map card_symbol cards ≡ₚ symbols).
Proof.
  intros Hall. unfold compare_without_advisor. split; [split|].
  - intros [cards Hpage].
    destruct (_generate_fallback_comparison symbols comparison_data)
      as [res|] eqn:Hres; [|done].
    cbn in Hpage. injection Hpage as Hrender.
    assert (Hf : (render_rankings comparison_data (rankings res)).2 = None)
      by (by rewrite Hrender).
    rewrite render_rankings_complete in Hf.
    destruct (fallback_ranks_requested res Hall Hres) as [Hsyms _].
    intros s Hs. apply Hsyms, list_elem_of_fmap in Hs as (r & -> & Hr).
    by apply Hf.
  - intros Hus.
    destruct fallback_returns_when_usable as [res Hres]; [by eauto|].
    rewrite Hres. cbn.
    destruct (fallback_ranks_requested res Hall Hres) as [Hsyms _].
    destruct (render_rankings comparison_data (rankings res)) as [cards f] eqn:E.
    assert (Hf : (render_rankings comparison_data (rankings res)).2 = None).
    { apply render_rankings_complete. intros r Hr. apply Hus, Hsyms.
      apply list_elem_of_fmap. eauto. }
    rewrite E in Hf. cbn in Hf. subst f. eauto.
  - intros Hnd cards Hpage.
    destruct (_generate_fallback_comparison symbols comparison_data)
      as [res|] eqn:Hres; [|done].
    cbn in Hpage. injection Hpage as Hrender.
    rewrite (render_rankings_symbols _ _ Hrender).
    destruct (fallback_ranks_requested res Hall Hres) as [Hsyms Hnd'].
    apply NoDup_Permutation; [by apply Hnd'|done|exact Hsyms].
Qed.

End PageWithoutAdvisor.

Lemma X22_page_complete_iff_witness :
  ((∃ cards, ComparisonPage.compare_without_advisor ["AAA"; "BBB"] Examples.twins = Ok (cards, None)) ↔
   (∀ s, s ∈ ["AAA"; "BBB"] → is_Some (asset_metrics Examples.twins s))) ∧
  (NoDup ["AAA"; "BBB"] →
   ∀ cards, ComparisonPage.compare_without_advisor ["AAA"; "BBB"] Examples.twins = Ok (cards, None) →
            map ComparisonPage.card_symbol cards ≡ₚ ["AAA"; "BBB"]).
Proof.
  apply (X22_page_complete_iff ["AAA"; "BBB"] Examples.twins).
  intros s Hs. rewrite !elem_of_cons in Hs.
  destruct Hs as [->|[->|Hs]]; [vm_compute; eauto..|by apply elem_of_nil in Hs].
Defined.
(* ===================================================================== *)
(** ** Fetching the comparison data *)
(* ===================================================================== *)

Section Fetching.

Import ComparisonPage.

(** An assignment to a key of the dictionary. *)
Lemma store_keys (d : comparison_dict) (k : string) (e : asset) :
  (store d k e).*1 = if decide (k ∈ d.*1) then d.*1 else d.*1 ++ [k].
Proof.
  induction d as [|[k' e'] d IH]; cbn; [done|].
  destruct (String.eqb k' k) eqn:E.
  - apply String.eqb_eq in E. subst k'. rewrite decide_True by (apply elem_of_cons; by left).
    done.
  - apply String.eqb_neq in E. cbn. rewrite IH.
    destruct (decide (k ∈ d.*1)) as [Hin|Hnin].
    + rewrite decide_True by (apply elem_of_cons; by right). done.
    + rewrite decide_False; [done|]. intros Hin. apply elem_of_cons in Hin as [?|?]; done.
Qed.

Lemma store_elem (d : comparison_dict) (k : string) (e : asset) (k' : string) (e' : asset) :
  (k', e') ∈ store d k e → (k', e') ∈ d ∨ (k' = k ∧ e' = e).
Proof.
  induction d as [|[k0 e0] d IH]; cbn.
  - intros H. apply elem_of_cons in H as [[= -> ->]|H]; [by right|].
    by apply elem_of_nil in H.
  - destruct (String.eqb k0 k) eqn:E.
    + apply String.eqb_eq in E. subst k0. intros H.
      apply elem_of_cons in H as [[= -> ->]|H]; [by right|].
      left. apply elem_of_cons. by right.
    + intros H. apply elem_of_cons in H as [->|H]; [left; apply elem_of_cons; by left|].
      destruct (IH H) as [?|?]; [|by right]. left. apply elem_of_cons. by right.
Qed.

Lemma store_NoDup (d : comparison_dict) (k : string) (e : asset) :
  NoDup d.*1 → NoDup (store d k e).*1.
Proof.
  intros Hnd. rewrite store_keys. destruct (decide (k ∈ d.*1)); [done|].
  apply NoDup_app. split_and!; [done| |apply NoDup_singleton].
  intros x Hx Hx'. apply list_elem_of_singleton in Hx'. by subst x.
Qed.

Lemma store_length (d : comparison_dict) (k : string) (e : asset) :
  length (store d k e) ≤ S (length d).
Proof.
  rewrite <- !(length_fmap fst), store_keys.
  destruct (decide (k ∈ d.*1)); [lia|]. rewrite length_app. cbn. lia.
Qed.

Lemma fst_zip_take {A B : Type} (l : list A) (k : list B) :
  (zip l k).*1 = take (length k) l.
Proof.
  revert k. induction l as [|a l IH]; intros [|b k]; cbn; [done..|].
  by rewrite IH.
Qed.

Context (W : Type) (get_stock_data : string → string → Z → W → except (option frame) * W).

Lemma fetch_loop_inv (all pairs : list (string * string)) (days : Z)
    (d : comparison_dict) (w : W) :
  pairs ⊆ all →
  fetched_from all d →
  fetched_from all (fetch_loop W get_stock_data pairs days d w).1.
Proof.
  revert d w. induction pairs as [|[s m] pairs IH]; intros d w Hsub Hd; [done|].
  cbn. assert (Hsub' : pairs ⊆ all).
  { intros x Hx. apply Hsub. apply elem_of_cons. by right. }
  destruct (get_stock_data s m days w) as [[[f|]|] w']; [|by apply IH..].
  destruct (empty f) eqn:Hf; [by apply IH|].
  apply IH; [done|]. destruct Hd as [Hnd Hd]. split; [by apply store_NoDup|].
  intros k e He. apply store_elem in He as [He|[-> ->]]; [by apply Hd|].
  cbn. split_and!; [|done|done]. apply Hsub. apply elem_of_cons. by left.
Qed.

Lemma fetch_loop_length (pairs : list (string * string)) (days : Z)
    (d : comparison_dict) (w : W) :
  length (fetch_loop W get_stock_data pairs days d w).1 ≤ length d + length pairs.
Proof.
  revert d w. induction pairs as [|[s m] pairs IH]; intros d w; cbn; [lia|].
  destruct (get_stock_data s m days w) as [[[f|]|] w'];
    [|specialize (IH d w'); lia..].
  destruct (empty f); [specialize (IH d w'); lia|].
  specialize (IH (store d s (comparison_entry f m)) w').
  pose proof (store_length d s (comparison_entry f m)). lia.
Qed.

Lemma fetch_loop_order (seen : list string) (pairs : list (string * string)) (days : Z)
    (d : comparison_dict) (w : W) :
  NoDup (seen ++ pairs.*1) →
  d.*1 `sublist_of` seen →
  (fetch_loop W get_stock_data pairs days d w).1.*1 `sublist_of` seen ++ pairs.*1.
Proof.
  revert seen d w. induction pairs as [|[s m] pairs IH]; intros seen d w Hnd Hd.
  { cbn. by rewrite app_nil_r. }
  cbn [fmap list_fmap fst] in *.
  assert (Hnd' : NoDup ((seen ++ [s]) ++ pairs.*1)) by (by rewrite <- app_assoc).
  assert (Hkeep : d.*1 `sublist_of` seen ++ [s]) by (by apply sublist_inserts_r).
  replace (seen ++ s :: pairs.*1) with ((seen ++ [s]) ++ pairs.*1)
    by (by rewrite <- app_assoc).
  cbn [fetch_loop].
  destruct (get_stock_data s m days w) as [[[f|]|] w']; [|by apply IH..].
  destruct (empty f); [by apply IH|].
  apply IH; [done|]. rewrite store_keys.
  destruct (decide (s ∈ d.*1)) as [Hin|Hnin]; [done|].
  by apply sublist_app.
Qed.

Lemma fetch_loop_nothing (pairs : list (string * string)) (days : Z)
    (d : comparison_dict) (w : W) :
  (∀ s m w', match (get_stock_data s m days w').1 with
             | Ok (Some f) => empty f = true
             | _ => True
             end) →
  (fetch_loop W get_stock_data pairs days d w).1 = d.
Proof.
  intros Hnone. revert w. induction pairs as [|[s m] pairs IH]; intros w; cbn; [done|].
  specialize (Hnone s m w).
  destruct (get_stock_data s m days w) as [[[f|]|] w']; cbn in Hnone; [|by apply IH..].
  rewrite Hnone. apply IH.
Qed.

(** X23.  What [fetch_comparison_data] returns, whatever the data fetcher
    does (it may return a frame, an empty frame or [None], or raise, and
    change its mind between calls): no exception leaves the function; the
    keys of the dictionary are distinct, so every key has its entry; each
    entry stores a non-empty history under a requested symbol, with the
    market code paired with that symbol, the indicator panel of that
    history and the summary of that panel; there are at most as many
    entries as (symbol, market) pairs; for distinct symbols the keys keep
    the order of the request; and nothing is stored when no fetch gives a
    non-empty frame. *)
Theorem X23_fetched_entries
    (symbols market_codes : list string) (days : Z) (w : W) :
  let d := (fetch_comparison_data W get_stock_data symbols market_codes days w).1 in
  NoDup (keys d) ∧
  (∀ s, s ∈ keys d → is_Some (as_map d !! s)) ∧
  (∀ k e, as_map d !! k = Some e →
     (∃ i, symbols !! i = Some k ∧ market_codes !! i = Some (market e)) ∧
     empty (data e) = false ∧
     technical e = calculate_all_indicators (data e) ∧
     summary e = get_technical_summary (technical e)) ∧
  length d ≤ length symbols `min` length market_codes ∧
  (NoDup symbols → keys d `sublist_of` symbols) ∧
  ((∀ s m w', match (get_stock_data s m days w').1 with
              | Ok (Some f) => empty f = true
              | _ => True
              end) → d = []).
Proof.
  cbv zeta. unfold fetch_comparison_data, keys, as_map.
  destruct (fetch_loop_inv (zip symbols market_codes) (zip symbols market_codes)
              days [] w) as [Hnd Hent]; [done|split; [constructor|]|].
  { intros k e H. by apply elem_of_nil in H. }
  split_and!.
  - done.
  - intros s Hs. apply list_elem_of_fmap in Hs as ([k e] & -> & Hin).
    exists e. by apply elem_of_list_to_map.
  - intros k e Hk. apply elem_of_list_to_map in Hk; [|done].
    destruct (Hent k e Hk) as (Hpair & Hne & He).
    apply list_elem_of_lookup in Hpair as [i Hi].
    apply lookup_zip_with_Some in Hi as (x & y & [= <- <-] & Hx & Hy).
    split_and!; [by exists i|done|by rewrite He|by rewrite He].
  - pose proof (fetch_loop_length (zip symbols market_codes) days [] w) as Hlen.
    rewrite length_zip in Hlen. cbn in Hlen. lia.
  - intros Hsyms.
    pose proof (fetch_loop_order [] (zip symbols market_codes) days [] w) as Hord.
    cbn in Hord. rewrite fst_zip_take in Hord.
    assert (Htake : NoDup (take (length market_codes) symbols))
      by (apply (sublist_NoDup _ symbols); [done|apply sublist_take]).
    etrans; [exact (Hord Htake (sublist_nil_l _))|apply sublist_take].
  - intros Hnone. by apply fetch_loop_nothing.
Qed.

End Fetching.
(* ===================================================================== *)
(** ** The advisor's answer: cleaning, and the choice of the fallback *)
(* ===================================================================== *)

Section Cleaning.

Import PyStr Advisor.

Lemma lstrip_spaces (ws s : pystr) :
  forallb isspace ws = true → lstrip (ws ++ s) = lstrip s.
Proof.
  induction ws as [|c ws IH]; cbn; [done|].
  intros H. apply andb_prop in H as [-> H]. by apply IH.
Qed.

Lemma lstrip_all_spaces (ws : pystr) : forallb isspace ws = true → lstrip ws = [].
Proof.
  intros H. rewrite <- (app_nil_r ws). by rewrite lstrip_spaces.
Qed.

Lemma forallb_rev {A : Type} (f : A → bool) (l : list A) :
  forallb f (rev l) = forallb f l.
Proof.
  induction l as [|a l IH]; cbn; [done|].
  rewrite forallb_app, IH. cbn. destruct (f a), (forallb f l); done.
Qed.

Lemma rstrip_spaces (s ws : pystr) :
  forallb isspace ws = true → rstrip (s ++ ws) = rstrip s.
Proof.
  intros H. unfold rstrip. rewrite rev_app_distr, lstrip_spaces; [done|].
  by rewrite forallb_rev.
Qed.

(** Stripping stops at a character that is not white space. *)
Lemma lstrip_stop (c : N) (s : pystr) : isspace c = false → lstrip (c :: s) = c :: s.
Proof. intros H. cbn. by rewrite H. Qed.

Lemma rstrip_stop (s : pystr) (c : N) : isspace c = false → rstrip (s ++ [c]) = s ++ [c].
Proof.
  intros H. unfold rstrip. rewrite rev_app_distr. cbn. rewrite H. cbn.
  by rewrite rev_involutive.
Qed.

Lemma lstrip_head (s : pystr) :
  lstrip s = [] ∨ ∃ c r, lstrip s = c :: r ∧ isspace c = false.
Proof.
  induction s as [|c s IH]; cbn; [by left|].
  destruct (isspace c) eqn:Hc; [done|]. right. eauto.
Qed.

Lemma lstrip_idemp (s : pystr) : lstrip (lstrip s) = lstrip s.
Proof.
  destruct (lstrip_head s) as [->|(c & r & -> & Hc)]; [done|]. by apply lstrip_stop.
Qed.

Lemma rstrip_idemp (s : pystr) : rstrip (rstrip s) = rstrip s.
Proof. unfold rstrip. by rewrite rev_involutive, lstrip_idemp. Qed.

(** Stripping on the right keeps a first character that is not white
    space. *)
Lemma rstrip_keeps_head (c : N) (s : pystr) :
  isspace c = false → ∃ r, rstrip (c :: s) = c :: r.
Proof.
  intros Hc. unfold rstrip. cbn [rev].
  assert (Hkeep : ∀ t : pystr, ∃ t', lstrip (t ++ [c]) = t' ++ [c]).
  { induction t as [|a t [t' IHt]]; cbn.
    - rewrite Hc. by exists [].
    - destruct (isspace a); [eauto|]. by exists (a :: t). }
  destruct (Hkeep (rev s)) as [t' ->]. rewrite rev_app_distr. cbn. eauto.
Qed.

Lemma strip_idemp (s : pystr) : strip (strip s) = strip s.
Proof.
  unfold strip. destruct (lstrip_head s) as [->|(c & r & -> & Hc)]; [done|].
  destruct (rstrip_keeps_head c r Hc) as [r' Hr'].
  rewrite Hr', lstrip_stop by done. by rewrite <- Hr', rstrip_idemp.
Qed.

(** White space around a text does not change what [strip] returns. *)
Lemma strip_spaces (pre s post : pystr) :
  forallb isspace pre = true → forallb isspace post = true →
  strip (pre ++ s ++ post) = strip s.
Proof.
  intros Hpre Hpost. unfold strip. rewrite lstrip_spaces by done. clear pre Hpre.
  induction s as [|c s IH]; cbn [app lstrip].
  - by rewrite lstrip_all_spaces.
  - destruct (isspace c) eqn:Hc; [done|].
    by rewrite app_comm_cons, rstrip_spaces.
Qed.

Lemma startswith_app (s t : pystr) : startswith (s ++ t) s = true.
Proof.
  induction s as [|c s IH]; cbn; [by destruct t|]. rewrite N.eqb_refl. exact IH.
Qed.

Lemma endswith_app (s t : pystr) : endswith (s ++ t) t = true.
Proof. unfold endswith. rewrite rev_app_distr. apply startswith_app. Qed.

Lemma take_app_suffix (s t : pystr) : take (length (s ++ t) - length t) (s ++ t) = s.
Proof.
  rewrite length_app. replace (length s + length t - length t) with (length s) by lia.
  by rewrite take_app_length.
Qed.

Lemma startswith_mismatch (a s t : pystr) (c p : N) :
  (c =? p)%N = false → startswith (a ++ c :: s) (a ++ p :: t) = false.
Proof.
  intros H. induction a as [|x a IH]; cbn; [by rewrite H|].
  rewrite N.eqb_refl. exact IH.
Qed.

Lemma startswith_longer (s p q : pystr) :
  startswith s p = false → startswith s (p ++ q) = false.
Proof.
  revert s. induction p as [|x p IH]; intros [|c s]; cbn; [done..|].
  destruct (c =? x)%N; cbn; [apply IH|done].
Qed.

(** A text between two characters that are not white space is what
    [strip] returns for it, whatever white space surrounds it. *)
Lemma strip_tight (pre post middle : pystr) (c d : N) :
  forallb isspace pre = true → forallb isspace post = true →
  isspace c = false → isspace d = false →
  strip (pre ++ (c :: middle ++ [d]) ++ post) = c :: middle ++ [d].
Proof.
  intros Hpre Hpost Hc Hd. rewrite strip_spaces by done. unfold strip.
  rewrite lstrip_stop by done. by rewrite app_comm_cons, rstrip_stop.
Qed.

(** X24.  The cleaning of the advisor's answer before [json.loads]: an
    answer that wraps a text in a Markdown fence, opened by ``` or by
    ```json followed by at least one white-space character and closed by
    ```, with any white space around the fence and on both sides of the
    text inside it, is cleaned to that text stripped of its surrounding
    white space; and an answer that, once stripped, neither starts nor
    ends with ``` is only stripped. *)
Theorem X24_fence_removed (pre gap1 text gap2 post lang : pystr) :
  forallb isspace pre = true → forallb isspace post = true →
  forallb isspace gap1 = true → forallb isspace gap2 = true →
  gap1 ≠ [] →
  lang = [] ∨ lang = literal "json" →
  clean_response
    (pre ++ literal "```" ++ lang ++ gap1 ++ text ++ gap2 ++ literal "```" ++ post)
  = strip text ∧
  (startswith (strip text) (literal "```") = false →
   endswith (strip text) (literal "```") = false →
   clean_response (pre ++ text ++ post) = strip text).
Proof.
  intros Hpre Hpost Hgap1 Hgap2 Hne Hlang. split.
  - destruct gap1 as [|g gap1]; [done|]. cbn in Hgap1.
    apply andb_prop in Hgap1 as [Hg Hgap1].
    assert (Hg96 : (g =? 96)%N = false).
    { destruct (g =? 96)%N eqn:E; [|done]. apply N.eqb_eq in E. subst g. done. }
    assert (Hg106 : (g =? 106)%N = false).
    { destruct (g =? 106)%N eqn:E; [|done]. apply N.eqb_eq in E. subst g. done. }
    set (rest := gap1 ++ text ++ gap2 ++ literal "```").
    assert (Hstripped :
      strip (pre ++ literal "```" ++ lang ++ (g :: gap1) ++ text ++ gap2
             ++ literal "```" ++ post)
      = literal "```" ++ lang ++ g :: rest).
    { pose proof (strip_tight pre post
                    ([96; 96]%N ++ lang ++ (g :: gap1) ++ text ++ gap2 ++ [96; 96]%N)
                    96%N 96%N Hpre Hpost eq_refl eq_refl) as H.
      subst rest. change (literal "```") with [96; 96; 96]%N.
      cbn [app] in H |- *. rewrite <- !app_assoc in H. cbn [app] in H.
      rewrite <- !app_assoc in H. exact H. }
    assert (Hrest :
      strip (if endswith (g :: rest) (literal "```")
             then take (length (g :: rest) - 3) (g :: rest) else g :: rest)
      = strip text).
    { subst rest. rewrite !app_comm_cons, !app_assoc, endswith_app.
      change 3 with (length (literal "```")). rewrite take_app_suffix.
      rewrite <- !app_assoc, <- app_comm_cons.
      apply (strip_spaces (g :: gap1) text gap2); [cbn; by rewrite Hg|done]. }
    unfold clean_response. cbv zeta. rewrite Hstripped. clearbody rest.
    destruct Hlang as [-> | ->].
    + assert (H1 : startswith (literal "```" ++ [] ++ g :: rest) (literal "```json")
                   = false)
        by apply (startswith_mismatch (literal "```") rest [115; 111; 110]%N g 106 Hg106).
      assert (H2 : startswith (literal "```" ++ [] ++ g :: rest) (literal "```") = true)
        by apply (startswith_app (literal "```") (g :: rest)).
      rewrite H1, H2.
      change (drop 3 (literal "```" ++ [] ++ g :: rest)) with (g :: rest).
      exact Hrest.
    + assert (H1 : startswith (literal "```" ++ literal "json" ++ g :: rest)
                     (literal "```json") = true)
        by apply (startswith_app (literal "```json") (g :: rest)).
      rewrite H1.
      change (drop 7 (literal "```" ++ literal "json" ++ g :: rest)) with (g :: rest).
      assert (H2 : startswith (g :: rest) (literal "```") = false)
        by apply (startswith_mismatch [] rest [96; 96]%N g 96 Hg96).
      rewrite H2. exact Hrest.
  - intros Hstart Hend. unfold clean_response. cbv zeta.
    rewrite strip_spaces by done.
    assert (Hjson : startswith (strip text) (literal "```json") = false).
    { apply (startswith_longer _ (literal "```") (literal "json") Hstart). }
    rewrite Hjson, Hstart, Hend. apply strip_idemp.
Qed.

End Cleaning.

Lemma X24_fence_removed_witness :
  Advisor.clean_response
    (PyStr.literal " " ++ PyStr.literal "```" ++ PyStr.literal "json"
     ++ [10%N] ++ PyStr.literal "{ }" ++ [10%N] ++ PyStr.literal "```" ++ [10%N])
  = PyStr.strip (PyStr.literal "{ }") ∧
  (PyStr.startswith (PyStr.strip (PyStr.literal "{ }")) (PyStr.literal "```") = false →
   PyStr.endswith (PyStr.strip (PyStr.literal "{ }")) (PyStr.literal "```") = false →
   Advisor.clean_response (PyStr.literal " " ++ PyStr.literal "{ }" ++ [10%N])
   = PyStr.strip (PyStr.literal "{ }")).
Proof.
  apply (X24_fence_removed (PyStr.literal " ") [10%N] (PyStr.literal "{ }") [10%N]
           [10%N] (PyStr.literal "json"));
    [reflexivity|reflexivity|reflexivity|reflexivity|discriminate|by right].
Defined.

Section Dispatch.

Import PyStr Advisor.

Context (W J : Type) (json_loads : pystr → outcome J).

#[local] Arguments clean_response : simpl never.

(** The only exception of the fallback ranker. *)
Lemma fallback_raise_TypeError (symbols : list string)
    (comparison_data : gmap string asset) (e : exn) :
  _generate_fallback_comparison symbols comparison_data = Raise e → e = TypeError.
Proof.
  destruct (ranked_items symbols comparison_data) as [|[best sb] rest] eqn:Hr.
  { by rewrite fallback_nothing_scored. }
  destruct (asset_metrics comparison_data best) as [m1|] eqn:Hm1.
  2: { by rewrite (fallback_best_unusable symbols comparison_data best sb rest Hr Hm1). }
  destruct rest as [|[second ss] rest].
  { destruct (fallback_main_path symbols comparison_data best sb [] m1 Hr Hm1)
      as (res & _ & -> & _); done. }
  destruct (asset_metrics comparison_data second) as [m2|] eqn:Hm2.
  - destruct (fallback_main_path symbols comparison_data best sb
                ((second, ss) :: rest) m1 Hr Hm1)
      as (res & _ & -> & _); [cbn; rewrite Hm2; eauto|done].
  - rewrite (fallback_second_unusable symbols comparison_data best second sb ss rest);
      [|done|eauto|done].
    by intros [= <-].
Qed.

(** The prompt names the requested symbols that have usable metrics, in
    the order of the request. *)
Lemma analysis_text_symbols (symbols : list string)
    (comparison_data : gmap string asset) :
  map brief_symbol (briefs (analysis_text symbols comparison_data))
  = filter (λ s, is_Some (asset_metrics comparison_data s)) symbols.
Proof.
  unfold analysis_text. cbn [briefs].
  induction symbols as [|s symbols IH]; [done|].
  cbn [flat_map]. rewrite map_app, IH, filter_cons.
  destruct (comparison_data !! s) as [e|] eqn:He; cbn.
  - destruct (calculate_metrics (data e)) as [m|] eqn:Hm; cbn.
    + rewrite decide_True; [done|]. unfold asset_metrics. rewrite He, Hm. eauto.
    + rewrite decide_False; [done|]. unfold asset_metrics. rewrite He, Hm.
      by intros [? ?].
  - rewrite decide_False; [done|]. unfold asset_metrics. rewrite He. by intros [? ?].
Qed.

(** X25.  [generate_comparison_analysis] returns the advisor's parsed
    answer exactly when the advisor is available, its call returns a
    non-empty text and [json.loads] accepts the cleaned text; in every
    other case (advisor unavailable, call raising or returning nothing,
    answer that does not parse) the outcome is exactly the outcome of the
    fallback ranker on the same arguments, its [TypeError] included, which
    is the only exception that can leave the function.  The advisor is
    called at most once, only when available, with a prompt that names
    the requested symbols with usable metrics in the order of the
    request.  With the [AIAdvisor] class of the repository, which has no
    method [_call_model_with_retry], the call always raises: the outcome
    is the fallback's whether the advisor is available or not. *)
Theorem X25_advisor_or_fallback (advisor : ai_advisor W)
    (symbols : list string) (comparison_data : gmap string asset) (w : W) :
  let out := generate_comparison_analysis W J json_loads advisor symbols
               comparison_data w in
  let fallback :=
    match _generate_fallback_comparison symbols comparison_data with
    | Ok result => Ok (Fallback result)
    | Raise e => Raise e
    end in
  let call :=
    _call_model_with_retry W advisor (analysis_text symbols comparison_data) w in
  (∀ parsed, out.1 = Ok (FromModel parsed) ↔
     available W advisor = true ∧
     ∃ text, call.1 = Returned (Some text) ∧ text ≠ [] ∧
             json_loads (clean_response text) = Returned parsed) ∧
  ((∀ parsed, out.1 ≠ Ok (FromModel parsed)) → out.1 = fallback) ∧
  (∀ e, out.1 = Raise e →
     e = TypeError ∧
     _generate_fallback_comparison symbols comparison_data = Raise TypeError) ∧
  out.2 = (if available W advisor then call.2 else w) ∧
  map brief_symbol (briefs (analysis_text symbols comparison_data))
  = filter (λ s, is_Some (asset_metrics comparison_data s)) symbols ∧
  generate_comparison_analysis W J json_loads (AIAdvisor W (available W advisor))
    symbols comparison_data w
  = (fallback, w).
Proof.
  cbv zeta. unfold generate_comparison_analysis. cbv zeta.
  pose proof (fallback_raise_TypeError symbols comparison_data) as Hexn.
  assert (Hfb :
    (result ← _generate_fallback_comparison symbols comparison_data;
     mret (Fallback (J:=J) result))
    = match _generate_fallback_comparison symbols comparison_data with
      | Ok result => Ok (Fallback result)
      | Raise e => Raise e
      end) by done.
  rewrite !Hfb. clear Hfb.
  destruct (_generate_fallback_comparison symbols comparison_data)
    as [res|e'] eqn:Hres.
  - (* the fallback ranker returns *)
    split_and!; [| | | |apply analysis_text_symbols|].
    + intros parsed. destruct (available W advisor); cbn [negb];
        [|split; [done|by intros [? _]]].
      destruct (_call_model_with_retry W advisor
                  (analysis_text symbols comparison_data) w)
        as [[|[[|c text]|]] w']; cbn;
        [split; [done|by intros (_ & ? & ? & _)]
        |split; [done|by intros (_ & ? & [= <-] & ? & _)]
        |
        |split; [done|by intros (_ & ? & ? & _)]].
      destruct (json_loads (clean_response (c :: text))) as [|j] eqn:Hj; cbn.
      * split; [done|]. intros (_ & ? & [= <-] & _ & Hj'). congruence.
      * split.
        -- intros [= <-]. split; [done|]. by exists (c :: text).
        -- intros (_ & ? & [= <-] & _ & Hj'). congruence.
    + intros Hnot. destruct (available W advisor); cbn [negb]; [|done].
      destruct (_call_model_with_retry W advisor
                  (analysis_text symbols comparison_data) w)
        as [[|[[|c text]|]] w']; cbn in *; [done|done| |done].
      destruct (json_loads (clean_response (c :: text))) as [|j]; cbn in *; [done|].
      by destruct (Hnot j).
    + intros e. destruct (available W advisor); cbn [negb]; [|done].
      destruct (_call_model_with_retry W advisor
                  (analysis_text symbols comparison_data) w)
        as [[|[[|c text]|]] w']; cbn; [done|done| |done].
      by destruct (json_loads (clean_response (c :: text))).
    + destruct (available W advisor); cbn [negb]; [|done].
      destruct (_call_model_with_retry W advisor
                  (analysis_text symbols comparison_data) w)
        as [[|[[|c text]|]] w']; cbn; [done|done| |done].
      by destruct (json_loads (clean_response (c :: text))).
    + by destruct (available W advisor).
  - (* the fallback ranker raises *)
    rewrite (Hexn e' eq_refl).
    split_and!; [| | | |apply analysis_text_symbols|].
    + intros parsed. destruct (available W advisor); cbn [negb];
        [|split; [done|by intros [? _]]].
      destruct (_call_model_with_retry W advisor
                  (analysis_text symbols comparison_data) w)
        as [[|[[|c text]|]] w']; cbn;
        [split; [done|by intros (_ & ? & ? & _)]
        |split; [done|by intros (_ & ? & [= <-] & ? & _)]
        |
        |split; [done|by intros (_ & ? & ? & _)]].
      destruct (json_loads (clean_response (c :: text))) as [|j] eqn:Hj; cbn.
      * split; [done|]. intros (_ & ? & [= <-] & _ & Hj'). congruence.
      * split.
        -- intros [= <-]. split; [done|]. by exists (c :: text).
        -- intros (_ & ? & [= <-] & _ & Hj'). congruence.
    + intros Hnot. destruct (available W advisor); cbn [negb]; [|done].
      destruct (_call_model_with_retry W advisor
                  (analysis_text symbols comparison_data) w)
        as [[|[[|c text]|]] w']; cbn in *; [done|done| |done].
      destruct (json_loads (clean_response (c :: text))) as [|j]; cbn in *; [done|].
      by destruct (Hnot j).
    + intros e. destruct (available W advisor); cbn [negb];
        [|intros H; injection H as ?; by subst].
      destruct (_call_model_with_retry W advisor
                  (analysis_text symbols comparison_data) w)
        as [[|[[|c text]|]] w']; cbn;
        [intros H; injection H as ?; by subst..
        |
        |intros H; injection H as ?; by subst].
      destruct (json_loads (clean_response (c :: text))); cbn;
        [intros H; injection H as ?; by subst|done].
    + destruct (available W advisor); cbn [negb]; [|done].
      destruct (_call_model_with_retry W advisor
                  (analysis_text symbols comparison_data) w)
        as [[|[[|c text]|]] w']; cbn; [done|done| |done].
      by destruct (json_loads (clean_response (c :: text))).
    + by destruct (available W advisor).
Qed.

End Dispatch.
(* ===================================================================== *)
(** ** The MACD *)
(* ===================================================================== *)

Section Macd.

(** The exponentially weighted mean of finite values is finite at every
    row. *)
Lemma ewm_from_finite (alpha : Q) (xs : list Q) :
  (0 <= 1 - alpha)%Q →
  ∀ (num d : Q) (seen : bool), (0 <= d)%Q →
    ∃ ys : list Q, ewm_from alpha (Fin num) d seen (map Fin xs) = map Fin ys ∧
                   length ys = length xs.
Proof.
  intros Hb. induction xs as [|x xs IH]; intros num d seen Hd.
  - by exists [].
  - cbn [map]. rewrite ewm_from_cons_fin.
    pose proof (weights_from_pos (1 - alpha) d 0 Hb Hd) as Hq. cbn in Hq.
    assert (Hq0 : ¬ ((1 - alpha) * d + 1 == 0)%Q).
    { intros E. rewrite E in Hq. by apply Qlt_irrefl in Hq. }
    rewrite fdiv_fin by done.
    destruct (IH ((1 - alpha) * num + x)%Q ((1 - alpha) * d + 1)%Q true)
      as (ys & -> & Hlen); [by apply Qlt_le_weak|].
    eexists (_ :: ys). split; [reflexivity|]. cbn. by rewrite Hlen.
Qed.

(** The first value of the weighted mean is the first observation. *)
Lemma ewm_mean_first (span : nat) (x : Q) (s : series) :
  ∃ e, ewm_mean span (Fin x :: s) !! 0 = Some (Fin e) ∧ (e == x)%Q.
Proof.
  unfold ewm_mean. rewrite ewm_from_cons_fin.
  assert (Hq0 : ¬ ((1 - span_alpha span) * 0 + 1 == 0)%Q).
  { intros E. ring_simplify in E. discriminate. }
  rewrite fdiv_fin by done. eexists. split; [reflexivity|]. field.
Qed.

Lemma zip_with_fsub_fin (a b : list Q) :
  zip_with fsub (map Fin a) (map Fin b) = map Fin (zip_with Qminus a b).
Proof.
  revert b. induction a as [|x a IH]; intros [|y b]; cbn; [done..|].
  by rewrite IH.
Qed.

(** X26.  The MACD has no warm-up: on a series of finite values, for any
    spans of at least 1, the MACD line, its signal line and the histogram
    are finite at every row, the histogram being the difference of the
    other two; and all three are 0 on the first row, where both averages
    equal the first value. *)
Theorem X26_macd_no_warm_up (xs : list Q) (fast slow signal i : nat) :
  1 ≤ fast → 1 ≤ slow → 1 ≤ signal → i < length xs →
  let result := calculate_macd (map Fin xs) fast slow signal in
  (∃ m s h, result.1.1 !! i = Some (Fin m) ∧ result.1.2 !! i = Some (Fin s) ∧
            result.2 !! i = Some (Fin h) ∧ (h == m - s)%Q) ∧
  (∃ m s h, result.1.1 !! 0 = Some (Fin m) ∧ result.1.2 !! 0 = Some (Fin s) ∧
            result.2 !! 0 = Some (Fin h) ∧ (m == 0)%Q ∧ (s == 0)%Q ∧ (h == 0)%Q).
Proof.
  intros Hf Hs Hg Hi. cbv zeta. unfold calculate_macd. cbv zeta. cbn [fst snd].
  unfold calculate_ema.
  destruct (ewm_from_finite (span_alpha fast) xs (span_alpha_le_1 fast Hf) 0 0 false)
    as (ef & Hef & Lf); [done|].
  destruct (ewm_from_finite (span_alpha slow) xs (span_alpha_le_1 slow Hs) 0 0 false)
    as (es & Hes & Ls); [done|].
  assert (Hfirst : ∃ x0 xs' e1 e2, xs = x0 :: xs' ∧ ef !! 0 = Some e1 ∧
                     es !! 0 = Some e2 ∧ (e1 == x0)%Q ∧ (e2 == x0)%Q).
  { destruct xs as [|x0 xs']; [cbn in Hi; lia|].
    destruct (ewm_mean_first fast x0 (map Fin xs')) as (e1 & H1 & E1).
    destruct (ewm_mean_first slow x0 (map Fin xs')) as (e2 & H2 & E2).
    unfold ewm_mean in H1, H2. cbn [map] in Hef, Hes. rewrite Hef in H1.
    rewrite Hes in H2. rewrite list_lookup_fmap in H1, H2.
    destruct (ef !! 0) as [e1'|] eqn:Hef0; [|done].
    destruct (es !! 0) as [e2'|] eqn:Hes0; [|done].
    cbn in H1, H2. injection H1 as ->. injection H2 as ->.
    exists x0, xs', e1, e2. done. }
  unfold ewm_mean. rewrite !Hef, !Hes, !zip_with_fsub_fin.
  set (ms := zip_with Qminus ef es).
  assert (Lm : length ms = length xs).
  { subst ms. rewrite length_zip_with. lia. }
  destruct (ewm_from_finite (span_alpha signal) ms (span_alpha_le_1 signal Hg) 0 0 false)
    as (ss & Hss & Lsg); [done|].
  pose proof Hss as Hss'. rewrite !Hss, zip_with_fsub_fin.
  split.
  - destruct (lookup_lt_is_Some_2 ms i) as [m Hm]; [lia|].
    destruct (lookup_lt_is_Some_2 ss i) as [s Hsi]; [lia|].
    exists m, s, (m - s)%Q. rewrite !list_lookup_fmap, lookup_zip_with, Hm, Hsi.
    cbn. split_and!; [done|done|done|reflexivity].
  - destruct Hfirst as (x0 & xs' & e1 & e2 & -> & He1 & He2 & E1 & E2).
    assert (Hm0 : ms !! 0 = Some (e1 - e2)%Q).
    { subst ms. apply lookup_zip_with_Some. eauto. }
    destruct ms as [|m0 ms']; [done|]. cbn in Hm0. injection Hm0 as ->.
    destruct (ewm_mean_first signal (e1 - e2) (map Fin ms')) as (s0 & Hs0 & Es0).
    unfold ewm_mean in Hs0. cbn [map] in Hss'. rewrite Hss' in Hs0.
    rewrite list_lookup_fmap in Hs0.
    destruct ss as [|s0' ss']; [done|]. cbn in Hs0. injection Hs0 as ->.
    exists (e1 - e2)%Q, s0, (e1 - e2 - s0)%Q. cbn.
    split_and!; [done|done|done| | |].
    + rewrite E1, E2. ring.
    + rewrite Es0, E1, E2. ring.
    + rewrite Es0. ring.
Qed.

End Macd.

Lemma X26_macd_no_warm_up_witness :
  let result := calculate_macd (map Fin [10; 11; 9]%Q) 12 26 9 in
  (∃ m s h, result.1.1 !! 2 = Some (Fin m) ∧ result.1.2 !! 2 = Some (Fin s) ∧
            result.2 !! 2 = Some (Fin h) ∧ (h == m - s)%Q) ∧
  (∃ m s h, result.1.1 !! 0 = Some (Fin m) ∧ result.1.2 !! 0 = Some (Fin s) ∧
            result.2 !! 0 = Some (Fin h) ∧ (m == 0)%Q ∧ (s == 0)%Q ∧ (h == 0)%Q).
Proof. apply (X26_macd_no_warm_up [10; 11; 9]%Q 12 26 9 2); cbn; lia. Defined.
